(** * akiko-charizard: the course catalogue page

    A shallow embedding of the parsing, filtering, priority-ranking and
    row-span code of the Svelte page (the three variants of [+page.svelte])
    and of [src/lib/util.ts], with the properties of the natural-language
    specification stated and proved against it. *)

From Stdlib Require Import ZArith NArith List Bool Lia Ascii String DecimalString.
From stdpp Require Import base decidable countable list sorting gmap.

Local Open Scope Z_scope.

(** ** The JavaScript runtime the page relies on *)

Module JS.

(** A JavaScript string is a sequence of UTF-16 code units. *)
Definition code_unit := N.
Definition jsstring := list code_unit.

(** ASCII literals, for writing examples. *)
Definition str (s : string) : jsstring :=
  List.map N_of_ascii (list_ascii_of_string s).

(** *** Case mapping

    [String.prototype.toLowerCase] and [toUpperCase] read the string as
    code points, apply the locale-insensitive case mappings of the Unicode
    Character Database (UnicodeData.txt and SpecialCasing.txt) and write
    the result back as code units.  The tables below are those of Unicode
    14.0; an engine built on a later version also maps the letters added
    since. *)

Definition is_leading_surrogate (c : code_unit) : bool :=
  ((0xD800 <=? c) && (c <=? 0xDBFF))%N.

Definition is_trailing_surrogate (c : code_unit) : bool :=
  ((0xDC00 <=? c) && (c <=? 0xDFFF))%N.

Definition UTF16SurrogatePairToCodePoint (lead trail : code_unit) : N :=
  ((lead - 0xD800) * 0x400 + (trail - 0xDC00) + 0x10000)%N.

(** A leading surrogate directly followed by a trailing one is one code
    point; every other code unit is a code point by itself. *)
Fixpoint StringToCodePoints (s : jsstring) : list N :=
  match s with
  | [] => []
  | c :: s' =>
      match s' with
      | d :: s'' =>
          if is_leading_surrogate c && is_trailing_surrogate d
          then UTF16SurrogatePairToCodePoint c d :: StringToCodePoints s''
          else c :: StringToCodePoints s'
      | [] => [c]
      end
  end.

(** Code points run up to 0x10FFFF; a larger number is kept as it is. *)
Definition UTF16EncodeCodePoint (cp : N) : jsstring :=
  if ((0x10000 <=? cp) && (cp <=? 0x10FFFF))%N
  then [((cp - 0x10000) / 0x400 + 0xD800)%N;
        ((cp - 0x10000) mod 0x400 + 0xDC00)%N]
  else [cp].

Definition CodePointsToString (text : list N) : jsstring :=
  flat_map UTF16EncodeCodePoint text.

(** The code points with the property [Cased] (DerivedCoreProperties.txt),
    as ranges [(first, last)]. *)
Definition cased_ranges : list (N * N) :=
  [
   (0x0041, 0x005A); (0x0061, 0x007A); (0x00AA, 0x00AA); (0x00B5, 0x00B5);
   (0x00BA, 0x00BA); (0x00C0, 0x00D6); (0x00D8, 0x00F6); (0x00F8, 0x01BA);
   (0x01BC, 0x01BF); (0x01C4, 0x0293); (0x0295, 0x02B8); (0x02C0, 0x02C1);
   (0x02E0, 0x02E4); (0x0345, 0x0345); (0x0370, 0x0373); (0x0376, 0x0377);
   (0x037A, 0x037D); (0x037F, 0x037F); (0x0386, 0x0386); (0x0388, 0x038A);
   (0x038C, 0x038C); (0x038E, 0x03A1); (0x03A3, 0x03F5); (0x03F7, 0x0481);
   (0x048A, 0x052F); (0x0531, 0x0556); (0x0560, 0x0588); (0x10A0, 0x10C5);
   (0x10C7, 0x10C7); (0x10CD, 0x10CD); (0x10D0, 0x10FA); (0x10FD, 0x10FF);
   (0x13A0, 0x13F5); (0x13F8, 0x13FD); (0x1C80, 0x1C88); (0x1C90, 0x1CBA);
   (0x1CBD, 0x1CBF); (0x1D00, 0x1DBF); (0x1E00, 0x1F15); (0x1F18, 0x1F1D);
   (0x1F20, 0x1F45); (0x1F48, 0x1F4D); (0x1F50, 0x1F57); (0x1F59, 0x1F59);
   (0x1F5B, 0x1F5B); (0x1F5D, 0x1F5D); (0x1F5F, 0x1F7D); (0x1F80, 0x1FB4);
   (0x1FB6, 0x1FBC); (0x1FBE, 0x1FBE); (0x1FC2, 0x1FC4); (0x1FC6, 0x1FCC);
   (0x1FD0, 0x1FD3); (0x1FD6, 0x1FDB); (0x1FE0, 0x1FEC); (0x1FF2, 0x1FF4);
   (0x1FF6, 0x1FFC); (0x2071, 0x2071); (0x207F, 0x207F); (0x2090, 0x209C);
   (0x2102, 0x2102); (0x2107, 0x2107); (0x210A, 0x2113); (0x2115, 0x2115);
   (0x2119, 0x211D); (0x2124, 0x2124); (0x2126, 0x2126); (0x2128, 0x2128);
   (0x212A, 0x212D); (0x212F, 0x2134); (0x2139, 0x2139); (0x213C, 0x213F);
   (0x2145, 0x2149); (0x214E, 0x214E); (0x2160, 0x217F); (0x2183, 0x2184);
   (0x24B6, 0x24E9); (0x2C00, 0x2CE4); (0x2CEB, 0x2CEE); (0x2CF2, 0x2CF3);
   (0x2D00, 0x2D25); (0x2D27, 0x2D27); (0x2D2D, 0x2D2D); (0xA640, 0xA66D);
   (0xA680, 0xA69D); (0xA722, 0xA787); (0xA78B, 0xA78E); (0xA790, 0xA7CA);
   (0xA7D0, 0xA7D1); (0xA7D3, 0xA7D3); (0xA7D5, 0xA7D9); (0xA7F5, 0xA7F6);
   (0xA7F8, 0xA7FA); (0xAB30, 0xAB5A); (0xAB5C, 0xAB68); (0xAB70, 0xABBF);
   (0xFB00, 0xFB06); (0xFB13, 0xFB17); (0xFF21, 0xFF3A); (0xFF41, 0xFF5A);
   (0x10400, 0x1044F); (0x104B0, 0x104D3); (0x104D8, 0x104FB); (0x10570, 0x1057A);
   (0x1057C, 0x1058A); (0x1058C, 0x10592); (0x10594, 0x10595); (0x10597, 0x105A1);
   (0x105A3, 0x105B1); (0x105B3, 0x105B9); (0x105BB, 0x105BC); (0x10780, 0x10780);
   (0x10783, 0x10785); (0x10787, 0x107B0); (0x107B2, 0x107BA); (0x10C80, 0x10CB2);
   (0x10CC0, 0x10CF2); (0x118A0, 0x118DF); (0x16E40, 0x16E7F); (0x1D400, 0x1D454);
   (0x1D456, 0x1D49C); (0x1D49E, 0x1D49F); (0x1D4A2, 0x1D4A2); (0x1D4A5, 0x1D4A6);
   (0x1D4A9, 0x1D4AC); (0x1D4AE, 0x1D4B9); (0x1D4BB, 0x1D4BB); (0x1D4BD, 0x1D4C3);
   (0x1D4C5, 0x1D505); (0x1D507, 0x1D50A); (0x1D50D, 0x1D514); (0x1D516, 0x1D51C);
   (0x1D51E, 0x1D539); (0x1D53B, 0x1D53E); (0x1D540, 0x1D544); (0x1D546, 0x1D546);
   (0x1D54A, 0x1D550); (0x1D552, 0x1D6A5); (0x1D6A8, 0x1D6C0); (0x1D6C2, 0x1D6DA);
   (0x1D6DC, 0x1D6FA); (0x1D6FC, 0x1D714); (0x1D716, 0x1D734); (0x1D736, 0x1D74E);
   (0x1D750, 0x1D76E); (0x1D770, 0x1D788); (0x1D78A, 0x1D7A8); (0x1D7AA, 0x1D7C2);
   (0x1D7C4, 0x1D7CB); (0x1DF00, 0x1DF09); (0x1DF0B, 0x1DF1E); (0x1E900, 0x1E943);
   (0x1F130, 0x1F149); (0x1F150, 0x1F169); (0x1F170, 0x1F189)
  ]%N.

(** The code points with the property [Case_Ignorable]. *)
Definition case_ignorable_ranges : list (N * N) :=
  [
   (0x0027, 0x0027); (0x002E, 0x002E); (0x003A, 0x003A); (0x005E, 0x005E);
   (0x0060, 0x0060); (0x00A8, 0x00A8); (0x00AD, 0x00AD); (0x00AF, 0x00AF);
   (0x00B4, 0x00B4); (0x00B7, 0x00B8); (0x02B0, 0x036F); (0x0374, 0x0375);
   (0x037A, 0x037A); (0x0384, 0x0385); (0x0387, 0x0387); (0x0483, 0x0489);
   (0x0559, 0x0559); (0x055F, 0x055F); (0x0591, 0x05BD); (0x05BF, 0x05BF);
   (0x05C1, 0x05C2); (0x05C4, 0x05C5); (0x05C7, 0x05C7); (0x05F4, 0x05F4);
   (0x0600, 0x0605); (0x0610, 0x061A); (0x061C, 0x061C); (0x0640, 0x0640);
   (0x064B, 0x065F); (0x0670, 0x0670); (0x06D6, 0x06DD); (0x06DF, 0x06E8);
   (0x06EA, 0x06ED); (0x070F, 0x070F); (0x0711, 0x0711); (0x0730, 0x074A);
   (0x07A6, 0x07B0); (0x07EB, 0x07F5); (0x07FA, 0x07FA); (0x07FD, 0x07FD);
   (0x0816, 0x082D); (0x0859, 0x085B); (0x0888, 0x0888); (0x0890, 0x0891);
   (0x0898, 0x089F); (0x08C9, 0x0902); (0x093A, 0x093A); (0x093C, 0x093C);
   (0x0941, 0x0948); (0x094D, 0x094D); (0x0951, 0x0957); (0x0962, 0x0963);
   (0x0971, 0x0971); (0x0981, 0x0981); (0x09BC, 0x09BC); (0x09C1, 0x09C4);
   (0x09CD, 0x09CD); (0x09E2, 0x09E3); (0x09FE, 0x09FE); (0x0A01, 0x0A02);
   (0x0A3C, 0x0A3C); (0x0A41, 0x0A42); (0x0A47, 0x0A48); (0x0A4B, 0x0A4D);
   (0x0A51, 0x0A51); (0x0A70, 0x0A71); (0x0A75, 0x0A75); (0x0A81, 0x0A82);
   (0x0ABC, 0x0ABC); (0x0AC1, 0x0AC5); (0x0AC7, 0x0AC8); (0x0ACD, 0x0ACD);
   (0x0AE2, 0x0AE3); (0x0AFA, 0x0AFF); (0x0B01, 0x0B01); (0x0B3C, 0x0B3C);
   (0x0B3F, 0x0B3F); (0x0B41, 0x0B44); (0x0B4D, 0x0B4D); (0x0B55, 0x0B56);
   (0x0B62, 0x0B63); (0x0B82, 0x0B82); (0x0BC0, 0x0BC0); (0x0BCD, 0x0BCD);
   (0x0C00, 0x0C00); (0x0C04, 0x0C04); (0x0C3C, 0x0C3C); (0x0C3E, 0x0C40);
   (0x0C46, 0x0C48); (0x0C4A, 0x0C4D); (0x0C55, 0x0C56); (0x0C62, 0x0C63);
   (0x0C81, 0x0C81); (0x0CBC, 0x0CBC); (0x0CBF, 0x0CBF); (0x0CC6, 0x0CC6);
   (0x0CCC, 0x0CCD); (0x0CE2, 0x0CE3); (0x0D00, 0x0D01); (0x0D3B, 0x0D3C);
   (0x0D41, 0x0D44); (0x0D4D, 0x0D4D); (0x0D62, 0x0D63); (0x0D81, 0x0D81);
   (0x0DCA, 0x0DCA); (0x0DD2, 0x0DD4); (0x0DD6, 0x0DD6); (0x0E31, 0x0E31);
   (0x0E34, 0x0E3A); (0x0E46, 0x0E4E); (0x0EB1, 0x0EB1); (0x0EB4, 0x0EBC);
   (0x0EC6, 0x0EC6); (0x0EC8, 0x0ECD); (0x0F18, 0x0F19); (0x0F35, 0x0F35);
   (0x0F37, 0x0F37); (0x0F39, 0x0F39); (0x0F71, 0x0F7E); (0x0F80, 0x0F84);
   (0x0F86, 0x0F87); (0x0F8D, 0x0F97); (0x0F99, 0x0FBC); (0x0FC6, 0x0FC6);
   (0x102D, 0x1030); (0x1032, 0x1037); (0x1039, 0x103A); (0x103D, 0x103E);
   (0x1058, 0x1059); (0x105E, 0x1060); (0x1071, 0x1074); (0x1082, 0x1082);
   (0x1085, 0x1086); (0x108D, 0x108D); (0x109D, 0x109D); (0x10FC, 0x10FC);
   (0x135D, 0x135F); (0x1712, 0x1714); (0x1732, 0x1733); (0x1752, 0x1753);
   (0x1772, 0x1773); (0x17B4, 0x17B5); (0x17B7, 0x17BD); (0x17C6, 0x17C6);
   (0x17C9, 0x17D3); (0x17D7, 0x17D7); (0x17DD, 0x17DD); (0x180B, 0x180F);
   (0x1843, 0x1843); (0x1885, 0x1886); (0x18A9, 0x18A9); (0x1920, 0x1922);
   (0x1927, 0x1928); (0x1932, 0x1932); (0x1939, 0x193B); (0x1A17, 0x1A18);
   (0x1A1B, 0x1A1B); (0x1A56, 0x1A56); (0x1A58, 0x1A5E); (0x1A60, 0x1A60);
   (0x1A62, 0x1A62); (0x1A65, 0x1A6C); (0x1A73, 0x1A7C); (0x1A7F, 0x1A7F);
   (0x1AA7, 0x1AA7); (0x1AB0, 0x1ACE); (0x1B00, 0x1B03); (0x1B34, 0x1B34);
   (0x1B36, 0x1B3A); (0x1B3C, 0x1B3C); (0x1B42, 0x1B42); (0x1B6B, 0x1B73);
   (0x1B80, 0x1B81); (0x1BA2, 0x1BA5); (0x1BA8, 0x1BA9); (0x1BAB, 0x1BAD);
   (0x1BE6, 0x1BE6); (0x1BE8, 0x1BE9); (0x1BED, 0x1BED); (0x1BEF, 0x1BF1);
   (0x1C2C, 0x1C33); (0x1C36, 0x1C37); (0x1C78, 0x1C7D); (0x1CD0, 0x1CD2);
   (0x1CD4, 0x1CE0); (0x1CE2, 0x1CE8); (0x1CED, 0x1CED); (0x1CF4, 0x1CF4);
   (0x1CF8, 0x1CF9); (0x1D2C, 0x1D6A); (0x1D78, 0x1D78); (0x1D9B, 0x1DFF);
   (0x1FBD, 0x1FBD); (0x1FBF, 0x1FC1); (0x1FCD, 0x1FCF); (0x1FDD, 0x1FDF);
   (0x1FED, 0x1FEF); (0x1FFD, 0x1FFE); (0x200B, 0x200F); (0x2018, 0x2019);
   (0x2024, 0x2024); (0x2027, 0x2027); (0x202A, 0x202E); (0x2060, 0x2064);
   (0x2066, 0x206F); (0x2071, 0x2071); (0x207F, 0x207F); (0x2090, 0x209C);
   (0x20D0, 0x20F0); (0x2C7C, 0x2C7D); (0x2CEF, 0x2CF1); (0x2D6F, 0x2D6F);
   (0x2D7F, 0x2D7F); (0x2DE0, 0x2DFF); (0x2E2F, 0x2E2F); (0x3005, 0x3005);
   (0x302A, 0x302D); (0x3031, 0x3035); (0x303B, 0x303B); (0x3099, 0x309E);
   (0x30FC, 0x30FE); (0xA015, 0xA015); (0xA4F8, 0xA4FD); (0xA60C, 0xA60C);
   (0xA66F, 0xA672); (0xA674, 0xA67D); (0xA67F, 0xA67F); (0xA69C, 0xA69F);
   (0xA6F0, 0xA6F1); (0xA700, 0xA721); (0xA770, 0xA770); (0xA788, 0xA78A);
   (0xA7F2, 0xA7F4); (0xA7F8, 0xA7F9); (0xA802, 0xA802); (0xA806, 0xA806);
   (0xA80B, 0xA80B); (0xA825, 0xA826); (0xA82C, 0xA82C); (0xA8C4, 0xA8C5);
   (0xA8E0, 0xA8F1); (0xA8FF, 0xA8FF); (0xA926, 0xA92D); (0xA947, 0xA951);
   (0xA980, 0xA982); (0xA9B3, 0xA9B3); (0xA9B6, 0xA9B9); (0xA9BC, 0xA9BD);
   (0xA9CF, 0xA9CF); (0xA9E5, 0xA9E6); (0xAA29, 0xAA2E); (0xAA31, 0xAA32);
   (0xAA35, 0xAA36); (0xAA43, 0xAA43); (0xAA4C, 0xAA4C); (0xAA70, 0xAA70);
   (0xAA7C, 0xAA7C); (0xAAB0, 0xAAB0); (0xAAB2, 0xAAB4); (0xAAB7, 0xAAB8);
   (0xAABE, 0xAABF); (0xAAC1, 0xAAC1); (0xAADD, 0xAADD); (0xAAEC, 0xAAED);
   (0xAAF3, 0xAAF4); (0xAAF6, 0xAAF6); (0xAB5B, 0xAB5F); (0xAB69, 0xAB6B);
   (0xABE5, 0xABE5); (0xABE8, 0xABE8); (0xABED, 0xABED); (0xFB1E, 0xFB1E);
   (0xFBB2, 0xFBC2); (0xFE00, 0xFE0F); (0xFE13, 0xFE13); (0xFE20, 0xFE2F);
   (0xFE52, 0xFE52); (0xFE55, 0xFE55); (0xFEFF, 0xFEFF); (0xFF07, 0xFF07);
   (0xFF0E, 0xFF0E); (0xFF1A, 0xFF1A); (0xFF3E, 0xFF3E); (0xFF40, 0xFF40);
   (0xFF70, 0xFF70); (0xFF9E, 0xFF9F); (0xFFE3, 0xFFE3); (0xFFF9, 0xFFFB);
   (0x101FD, 0x101FD); (0x102E0, 0x102E0); (0x10376, 0x1037A); (0x10780, 0x10785);
   (0x10787, 0x107B0); (0x107B2, 0x107BA); (0x10A01, 0x10A03); (0x10A05, 0x10A06);
   (0x10A0C, 0x10A0F); (0x10A38, 0x10A3A); (0x10A3F, 0x10A3F); (0x10AE5, 0x10AE6);
   (0x10D24, 0x10D27); (0x10EAB, 0x10EAC); (0x10F46, 0x10F50); (0x10F82, 0x10F85);
   (0x11001, 0x11001); (0x11038, 0x11046); (0x11070, 0x11070); (0x11073, 0x11074);
   (0x1107F, 0x11081); (0x110B3, 0x110B6); (0x110B9, 0x110BA); (0x110BD, 0x110BD);
   (0x110C2, 0x110C2); (0x110CD, 0x110CD); (0x11100, 0x11102); (0x11127, 0x1112B);
   (0x1112D, 0x11134); (0x11173, 0x11173); (0x11180, 0x11181); (0x111B6, 0x111BE);
   (0x111C9, 0x111CC); (0x111CF, 0x111CF); (0x1122F, 0x11231); (0x11234, 0x11234);
   (0x11236, 0x11237); (0x1123E, 0x1123E); (0x112DF, 0x112DF); (0x112E3, 0x112EA);
   (0x11300, 0x11301); (0x1133B, 0x1133C); (0x11340, 0x11340); (0x11366, 0x1136C);
   (0x11370, 0x11374); (0x11438, 0x1143F); (0x11442, 0x11444); (0x11446, 0x11446);
   (0x1145E, 0x1145E); (0x114B3, 0x114B8); (0x114BA, 0x114BA); (0x114BF, 0x114C0);
   (0x114C2, 0x114C3); (0x115B2, 0x115B5); (0x115BC, 0x115BD); (0x115BF, 0x115C0);
   (0x115DC, 0x115DD); (0x11633, 0x1163A); (0x1163D, 0x1163D); (0x1163F, 0x11640);
   (0x116AB, 0x116AB); (0x116AD, 0x116AD); (0x116B0, 0x116B5); (0x116B7, 0x116B7);
   (0x1171D, 0x1171F); (0x11722, 0x11725); (0x11727, 0x1172B); (0x1182F, 0x11837);
   (0x11839, 0x1183A); (0x1193B, 0x1193C); (0x1193E, 0x1193E); (0x11943, 0x11943);
   (0x119D4, 0x119D7); (0x119DA, 0x119DB); (0x119E0, 0x119E0); (0x11A01, 0x11A0A);
   (0x11A33, 0x11A38); (0x11A3B, 0x11A3E); (0x11A47, 0x11A47); (0x11A51, 0x11A56);
   (0x11A59, 0x11A5B); (0x11A8A, 0x11A96); (0x11A98, 0x11A99); (0x11C30, 0x11C36);
   (0x11C38, 0x11C3D); (0x11C3F, 0x11C3F); (0x11C92, 0x11CA7); (0x11CAA, 0x11CB0);
   (0x11CB2, 0x11CB3); (0x11CB5, 0x11CB6); (0x11D31, 0x11D36); (0x11D3A, 0x11D3A);
   (0x11D3C, 0x11D3D); (0x11D3F, 0x11D45); (0x11D47, 0x11D47); (0x11D90, 0x11D91);
   (0x11D95, 0x11D95); (0x11D97, 0x11D97); (0x11EF3, 0x11EF4); (0x13430, 0x13438);
   (0x16AF0, 0x16AF4); (0x16B30, 0x16B36); (0x16B40, 0x16B43); (0x16F4F, 0x16F4F);
   (0x16F8F, 0x16F9F); (0x16FE0, 0x16FE1); (0x16FE3, 0x16FE4); (0x1AFF0, 0x1AFF3);
   (0x1AFF5, 0x1AFFB); (0x1AFFD, 0x1AFFE); (0x1BC9D, 0x1BC9E); (0x1BCA0, 0x1BCA3);
   (0x1CF00, 0x1CF2D); (0x1CF30, 0x1CF46); (0x1D167, 0x1D169); (0x1D173, 0x1D182);
   (0x1D185, 0x1D18B); (0x1D1AA, 0x1D1AD); (0x1D242, 0x1D244); (0x1DA00, 0x1DA36);
   (0x1DA3B, 0x1DA6C); (0x1DA75, 0x1DA75); (0x1DA84, 0x1DA84); (0x1DA9B, 0x1DA9F);
   (0x1DAA1, 0x1DAAF); (0x1E000, 0x1E006); (0x1E008, 0x1E018); (0x1E01B, 0x1E021);
   (0x1E023, 0x1E024); (0x1E026, 0x1E02A); (0x1E130, 0x1E13D); (0x1E2AE, 0x1E2AE);
   (0x1E2EC, 0x1E2EF); (0x1E8D0, 0x1E8D6); (0x1E944, 0x1E94B); (0x1F3FB, 0x1F3FF);
   (0xE0001, 0xE0001); (0xE0020, 0xE007F); (0xE0100, 0xE01EF)
  ]%N.

(** The simple lower-case mappings of UnicodeData.txt.  An entry
    [(first, last, step, image)] maps [first], [first + step], ... up to
    [last] to [image], [image + step], ... *)
Definition lower_ranges : list (N * N * N * N) :=
  [
   (0x0041, 0x005A, 1, 0x0061); (0x00C0, 0x00D6, 1, 0x00E0); (0x00D8, 0x00DE, 1, 0x00F8);
   (0x0100, 0x012E, 2, 0x0101); (0x0132, 0x0136, 2, 0x0133); (0x0139, 0x0147, 2, 0x013A);
   (0x014A, 0x0176, 2, 0x014B); (0x0178, 0x0178, 1, 0x00FF); (0x0179, 0x017D, 2, 0x017A);
   (0x0181, 0x0181, 1, 0x0253); (0x0182, 0x0184, 2, 0x0183); (0x0186, 0x0186, 1, 0x0254);
   (0x0187, 0x0187, 1, 0x0188); (0x0189, 0x018A, 1, 0x0256); (0x018B, 0x018B, 1, 0x018C);
   (0x018E, 0x018E, 1, 0x01DD); (0x018F, 0x018F, 1, 0x0259); (0x0190, 0x0190, 1, 0x025B);
   (0x0191, 0x0191, 1, 0x0192); (0x0193, 0x0193, 1, 0x0260); (0x0194, 0x0194, 1, 0x0263);
   (0x0196, 0x0196, 1, 0x0269); (0x0197, 0x0197, 1, 0x0268); (0x0198, 0x0198, 1, 0x0199);
   (0x019C, 0x019C, 1, 0x026F); (0x019D, 0x019D, 1, 0x0272); (0x019F, 0x019F, 1, 0x0275);
   (0x01A0, 0x01A4, 2, 0x01A1); (0x01A6, 0x01A6, 1, 0x0280); (0x01A7, 0x01A7, 1, 0x01A8);
   (0x01A9, 0x01A9, 1, 0x0283); (0x01AC, 0x01AC, 1, 0x01AD); (0x01AE, 0x01AE, 1, 0x0288);
   (0x01AF, 0x01AF, 1, 0x01B0); (0x01B1, 0x01B2, 1, 0x028A); (0x01B3, 0x01B5, 2, 0x01B4);
   (0x01B7, 0x01B7, 1, 0x0292); (0x01B8, 0x01B8, 1, 0x01B9); (0x01BC, 0x01BC, 1, 0x01BD);
   (0x01C4, 0x01C4, 1, 0x01C6); (0x01C5, 0x01C5, 1, 0x01C6); (0x01C7, 0x01C7, 1, 0x01C9);
   (0x01C8, 0x01C8, 1, 0x01C9); (0x01CA, 0x01CA, 1, 0x01CC); (0x01CB, 0x01DB, 2, 0x01CC);
   (0x01DE, 0x01EE, 2, 0x01DF); (0x01F1, 0x01F1, 1, 0x01F3); (0x01F2, 0x01F4, 2, 0x01F3);
   (0x01F6, 0x01F6, 1, 0x0195); (0x01F7, 0x01F7, 1, 0x01BF); (0x01F8, 0x021E, 2, 0x01F9);
   (0x0220, 0x0220, 1, 0x019E); (0x0222, 0x0232, 2, 0x0223); (0x023A, 0x023A, 1, 0x2C65);
   (0x023B, 0x023B, 1, 0x023C); (0x023D, 0x023D, 1, 0x019A); (0x023E, 0x023E, 1, 0x2C66);
   (0x0241, 0x0241, 1, 0x0242); (0x0243, 0x0243, 1, 0x0180); (0x0244, 0x0244, 1, 0x0289);
   (0x0245, 0x0245, 1, 0x028C); (0x0246, 0x024E, 2, 0x0247); (0x0370, 0x0372, 2, 0x0371);
   (0x0376, 0x0376, 1, 0x0377); (0x037F, 0x037F, 1, 0x03F3); (0x0386, 0x0386, 1, 0x03AC);
   (0x0388, 0x038A, 1, 0x03AD); (0x038C, 0x038C, 1, 0x03CC); (0x038E, 0x038F, 1, 0x03CD);
   (0x0391, 0x03A1, 1, 0x03B1); (0x03A3, 0x03AB, 1, 0x03C3); (0x03CF, 0x03CF, 1, 0x03D7);
   (0x03D8, 0x03EE, 2, 0x03D9); (0x03F4, 0x03F4, 1, 0x03B8); (0x03F7, 0x03F7, 1, 0x03F8);
   (0x03F9, 0x03F9, 1, 0x03F2); (0x03FA, 0x03FA, 1, 0x03FB); (0x03FD, 0x03FF, 1, 0x037B);
   (0x0400, 0x040F, 1, 0x0450); (0x0410, 0x042F, 1, 0x0430); (0x0460, 0x0480, 2, 0x0461);
   (0x048A, 0x04BE, 2, 0x048B); (0x04C0, 0x04C0, 1, 0x04CF); (0x04C1, 0x04CD, 2, 0x04C2);
   (0x04D0, 0x052E, 2, 0x04D1); (0x0531, 0x0556, 1, 0x0561); (0x10A0, 0x10C5, 1, 0x2D00);
   (0x10C7, 0x10C7, 1, 0x2D27); (0x10CD, 0x10CD, 1, 0x2D2D); (0x13A0, 0x13EF, 1, 0xAB70);
   (0x13F0, 0x13F5, 1, 0x13F8); (0x1C90, 0x1CBA, 1, 0x10D0); (0x1CBD, 0x1CBF, 1, 0x10FD);
   (0x1E00, 0x1E94, 2, 0x1E01); (0x1E9E, 0x1E9E, 1, 0x00DF); (0x1EA0, 0x1EFE, 2, 0x1EA1);
   (0x1F08, 0x1F0F, 1, 0x1F00); (0x1F18, 0x1F1D, 1, 0x1F10); (0x1F28, 0x1F2F, 1, 0x1F20);
   (0x1F38, 0x1F3F, 1, 0x1F30); (0x1F48, 0x1F4D, 1, 0x1F40); (0x1F59, 0x1F5F, 2, 0x1F51);
   (0x1F68, 0x1F6F, 1, 0x1F60); (0x1F88, 0x1F8F, 1, 0x1F80); (0x1F98, 0x1F9F, 1, 0x1F90);
   (0x1FA8, 0x1FAF, 1, 0x1FA0); (0x1FB8, 0x1FB9, 1, 0x1FB0); (0x1FBA, 0x1FBB, 1, 0x1F70);
   (0x1FBC, 0x1FBC, 1, 0x1FB3); (0x1FC8, 0x1FCB, 1, 0x1F72); (0x1FCC, 0x1FCC, 1, 0x1FC3);
   (0x1FD8, 0x1FD9, 1, 0x1FD0); (0x1FDA, 0x1FDB, 1, 0x1F76); (0x1FE8, 0x1FE9, 1, 0x1FE0);
   (0x1FEA, 0x1FEB, 1, 0x1F7A); (0x1FEC, 0x1FEC, 1, 0x1FE5); (0x1FF8, 0x1FF9, 1, 0x1F78);
   (0x1FFA, 0x1FFB, 1, 0x1F7C); (0x1FFC, 0x1FFC, 1, 0x1FF3); (0x2126, 0x2126, 1, 0x03C9);
   (0x212A, 0x212A, 1, 0x006B); (0x212B, 0x212B, 1, 0x00E5); (0x2132, 0x2132, 1, 0x214E);
   (0x2160, 0x216F, 1, 0x2170); (0x2183, 0x2183, 1, 0x2184); (0x24B6, 0x24CF, 1, 0x24D0);
   (0x2C00, 0x2C2F, 1, 0x2C30); (0x2C60, 0x2C60, 1, 0x2C61); (0x2C62, 0x2C62, 1, 0x026B);
   (0x2C63, 0x2C63, 1, 0x1D7D); (0x2C64, 0x2C64, 1, 0x027D); (0x2C67, 0x2C6B, 2, 0x2C68);
   (0x2C6D, 0x2C6D, 1, 0x0251); (0x2C6E, 0x2C6E, 1, 0x0271); (0x2C6F, 0x2C6F, 1, 0x0250);
   (0x2C70, 0x2C70, 1, 0x0252); (0x2C72, 0x2C72, 1, 0x2C73); (0x2C75, 0x2C75, 1, 0x2C76);
   (0x2C7E, 0x2C7F, 1, 0x023F); (0x2C80, 0x2CE2, 2, 0x2C81); (0x2CEB, 0x2CED, 2, 0x2CEC);
   (0x2CF2, 0x2CF2, 1, 0x2CF3); (0xA640, 0xA66C, 2, 0xA641); (0xA680, 0xA69A, 2, 0xA681);
   (0xA722, 0xA72E, 2, 0xA723); (0xA732, 0xA76E, 2, 0xA733); (0xA779, 0xA77B, 2, 0xA77A);
   (0xA77D, 0xA77D, 1, 0x1D79); (0xA77E, 0xA786, 2, 0xA77F); (0xA78B, 0xA78B, 1, 0xA78C);
   (0xA78D, 0xA78D, 1, 0x0265); (0xA790, 0xA792, 2, 0xA791); (0xA796, 0xA7A8, 2, 0xA797);
   (0xA7AA, 0xA7AA, 1, 0x0266); (0xA7AB, 0xA7AB, 1, 0x025C); (0xA7AC, 0xA7AC, 1, 0x0261);
   (0xA7AD, 0xA7AD, 1, 0x026C); (0xA7AE, 0xA7AE, 1, 0x026A); (0xA7B0, 0xA7B0, 1, 0x029E);
   (0xA7B1, 0xA7B1, 1, 0x0287); (0xA7B2, 0xA7B2, 1, 0x029D); (0xA7B3, 0xA7B3, 1, 0xAB53);
   (0xA7B4, 0xA7C2, 2, 0xA7B5); (0xA7C4, 0xA7C4, 1, 0xA794); (0xA7C5, 0xA7C5, 1, 0x0282);
   (0xA7C6, 0xA7C6, 1, 0x1D8E); (0xA7C7, 0xA7C9, 2, 0xA7C8); (0xA7D0, 0xA7D0, 1, 0xA7D1);
   (0xA7D6, 0xA7D8, 2, 0xA7D7); (0xA7F5, 0xA7F5, 1, 0xA7F6); (0xFF21, 0xFF3A, 1, 0xFF41);
   (0x10400, 0x10427, 1, 0x10428); (0x104B0, 0x104D3, 1, 0x104D8); (0x10570, 0x10594, 2, 0x10597);
   (0x10571, 0x10579, 2, 0x10598); (0x1057D, 0x10589, 2, 0x105A4); (0x1058D, 0x10591, 2, 0x105B4);
   (0x10595, 0x10595, 1, 0x105BC); (0x10C80, 0x10CB2, 1, 0x10CC0); (0x118A0, 0x118BF, 1, 0x118C0);
   (0x16E40, 0x16E5F, 1, 0x16E60); (0x1E900, 0x1E921, 1, 0x1E922)
  ]%N.

(** The unconditional lower-case mapping of SpecialCasing.txt to more than
    one code point. *)
Definition lower_special : list (N * list N) :=
  [
   (0x0130, [0x0069; 0x0307])
  ]%N.

(** The simple upper-case mappings of UnicodeData.txt. *)
Definition upper_ranges : list (N * N * N * N) :=
  [
   (0x0061, 0x007A, 1, 0x0041); (0x00B5, 0x00B5, 1, 0x039C); (0x00E0, 0x00F6, 1, 0x00C0);
   (0x00F8, 0x00FE, 1, 0x00D8); (0x00FF, 0x00FF, 1, 0x0178); (0x0101, 0x012F, 2, 0x0100);
   (0x0131, 0x0131, 1, 0x0049); (0x0133, 0x0137, 2, 0x0132); (0x013A, 0x0148, 2, 0x0139);
   (0x014B, 0x0177, 2, 0x014A); (0x017A, 0x017E, 2, 0x0179); (0x017F, 0x017F, 1, 0x0053);
   (0x0180, 0x0180, 1, 0x0243); (0x0183, 0x0185, 2, 0x0182); (0x0188, 0x0188, 1, 0x0187);
   (0x018C, 0x018C, 1, 0x018B); (0x0192, 0x0192, 1, 0x0191); (0x0195, 0x0195, 1, 0x01F6);
   (0x0199, 0x0199, 1, 0x0198); (0x019A, 0x019A, 1, 0x023D); (0x019E, 0x019E, 1, 0x0220);
   (0x01A1, 0x01A5, 2, 0x01A0); (0x01A8, 0x01A8, 1, 0x01A7); (0x01AD, 0x01AD, 1, 0x01AC);
   (0x01B0, 0x01B0, 1, 0x01AF); (0x01B4, 0x01B6, 2, 0x01B3); (0x01B9, 0x01B9, 1, 0x01B8);
   (0x01BD, 0x01BD, 1, 0x01BC); (0x01BF, 0x01BF, 1, 0x01F7); (0x01C5, 0x01C5, 1, 0x01C4);
   (0x01C6, 0x01C6, 1, 0x01C4); (0x01C8, 0x01C8, 1, 0x01C7); (0x01C9, 0x01C9, 1, 0x01C7);
   (0x01CB, 0x01CB, 1, 0x01CA); (0x01CC, 0x01CC, 1, 0x01CA); (0x01CE, 0x01DC, 2, 0x01CD);
   (0x01DD, 0x01DD, 1, 0x018E); (0x01DF, 0x01EF, 2, 0x01DE); (0x01F2, 0x01F2, 1, 0x01F1);
   (0x01F3, 0x01F3, 1, 0x01F1); (0x01F5, 0x01F5, 1, 0x01F4); (0x01F9, 0x021F, 2, 0x01F8);
   (0x0223, 0x0233, 2, 0x0222); (0x023C, 0x023C, 1, 0x023B); (0x023F, 0x0240, 1, 0x2C7E);
   (0x0242, 0x0242, 1, 0x0241); (0x0247, 0x024F, 2, 0x0246); (0x0250, 0x0250, 1, 0x2C6F);
   (0x0251, 0x0251, 1, 0x2C6D); (0x0252, 0x0252, 1, 0x2C70); (0x0253, 0x0253, 1, 0x0181);
   (0x0254, 0x0254, 1, 0x0186); (0x0256, 0x0257, 1, 0x0189); (0x0259, 0x0259, 1, 0x018F);
   (0x025B, 0x025B, 1, 0x0190); (0x025C, 0x025C, 1, 0xA7AB); (0x0260, 0x0260, 1, 0x0193);
   (0x0261, 0x0261, 1, 0xA7AC); (0x0263, 0x0263, 1, 0x0194); (0x0265, 0x0265, 1, 0xA78D);
   (0x0266, 0x0266, 1, 0xA7AA); (0x0268, 0x0268, 1, 0x0197); (0x0269, 0x0269, 1, 0x0196);
   (0x026A, 0x026A, 1, 0xA7AE); (0x026B, 0x026B, 1, 0x2C62); (0x026C, 0x026C, 1, 0xA7AD);
   (0x026F, 0x026F, 1, 0x019C); (0x0271, 0x0271, 1, 0x2C6E); (0x0272, 0x0272, 1, 0x019D);
   (0x0275, 0x0275, 1, 0x019F); (0x027D, 0x027D, 1, 0x2C64); (0x0280, 0x0280, 1, 0x01A6);
   (0x0282, 0x0282, 1, 0xA7C5); (0x0283, 0x0283, 1, 0x01A9); (0x0287, 0x0287, 1, 0xA7B1);
   (0x0288, 0x0288, 1, 0x01AE); (0x0289, 0x0289, 1, 0x0244); (0x028A, 0x028B, 1, 0x01B1);
   (0x028C, 0x028C, 1, 0x0245); (0x0292, 0x0292, 1, 0x01B7); (0x029D, 0x029D, 1, 0xA7B2);
   (0x029E, 0x029E, 1, 0xA7B0); (0x0345, 0x0345, 1, 0x0399); (0x0371, 0x0373, 2, 0x0370);
   (0x0377, 0x0377, 1, 0x0376); (0x037B, 0x037D, 1, 0x03FD); (0x03AC, 0x03AC, 1, 0x0386);
   (0x03AD, 0x03AF, 1, 0x0388); (0x03B1, 0x03C1, 1, 0x0391); (0x03C2, 0x03C2, 1, 0x03A3);
   (0x03C3, 0x03CB, 1, 0x03A3); (0x03CC, 0x03CC, 1, 0x038C); (0x03CD, 0x03CE, 1, 0x038E);
   (0x03D0, 0x03D0, 1, 0x0392); (0x03D1, 0x03D1, 1, 0x0398); (0x03D5, 0x03D5, 1, 0x03A6);
   (0x03D6, 0x03D6, 1, 0x03A0); (0x03D7, 0x03D7, 1, 0x03CF); (0x03D9, 0x03EF, 2, 0x03D8);
   (0x03F0, 0x03F0, 1, 0x039A); (0x03F1, 0x03F1, 1, 0x03A1); (0x03F2, 0x03F2, 1, 0x03F9);
   (0x03F3, 0x03F3, 1, 0x037F); (0x03F5, 0x03F5, 1, 0x0395); (0x03F8, 0x03F8, 1, 0x03F7);
   (0x03FB, 0x03FB, 1, 0x03FA); (0x0430, 0x044F, 1, 0x0410); (0x0450, 0x045F, 1, 0x0400);
   (0x0461, 0x0481, 2, 0x0460); (0x048B, 0x04BF, 2, 0x048A); (0x04C2, 0x04CE, 2, 0x04C1);
   (0x04CF, 0x04CF, 1, 0x04C0); (0x04D1, 0x052F, 2, 0x04D0); (0x0561, 0x0586, 1, 0x0531);
   (0x10D0, 0x10FA, 1, 0x1C90); (0x10FD, 0x10FF, 1, 0x1CBD); (0x13F8, 0x13FD, 1, 0x13F0);
   (0x1C80, 0x1C80, 1, 0x0412); (0x1C81, 0x1C81, 1, 0x0414); (0x1C82, 0x1C82, 1, 0x041E);
   (0x1C83, 0x1C84, 1, 0x0421); (0x1C85, 0x1C85, 1, 0x0422); (0x1C86, 0x1C86, 1, 0x042A);
   (0x1C87, 0x1C87, 1, 0x0462); (0x1C88, 0x1C88, 1, 0xA64A); (0x1D79, 0x1D79, 1, 0xA77D);
   (0x1D7D, 0x1D7D, 1, 0x2C63); (0x1D8E, 0x1D8E, 1, 0xA7C6); (0x1E01, 0x1E95, 2, 0x1E00);
   (0x1E9B, 0x1E9B, 1, 0x1E60); (0x1EA1, 0x1EFF, 2, 0x1EA0); (0x1F00, 0x1F07, 1, 0x1F08);
   (0x1F10, 0x1F15, 1, 0x1F18); (0x1F20, 0x1F27, 1, 0x1F28); (0x1F30, 0x1F37, 1, 0x1F38);
   (0x1F40, 0x1F45, 1, 0x1F48); (0x1F51, 0x1F57, 2, 0x1F59); (0x1F60, 0x1F67, 1, 0x1F68);
   (0x1F70, 0x1F71, 1, 0x1FBA); (0x1F72, 0x1F75, 1, 0x1FC8); (0x1F76, 0x1F77, 1, 0x1FDA);
   (0x1F78, 0x1F79, 1, 0x1FF8); (0x1F7A, 0x1F7B, 1, 0x1FEA); (0x1F7C, 0x1F7D, 1, 0x1FFA);
   (0x1FB0, 0x1FB1, 1, 0x1FB8); (0x1FBE, 0x1FBE, 1, 0x0399); (0x1FD0, 0x1FD1, 1, 0x1FD8);
   (0x1FE0, 0x1FE1, 1, 0x1FE8); (0x1FE5, 0x1FE5, 1, 0x1FEC); (0x214E, 0x214E, 1, 0x2132);
   (0x2170, 0x217F, 1, 0x2160); (0x2184, 0x2184, 1, 0x2183); (0x24D0, 0x24E9, 1, 0x24B6);
   (0x2C30, 0x2C5F, 1, 0x2C00); (0x2C61, 0x2C61, 1, 0x2C60); (0x2C65, 0x2C65, 1, 0x023A);
   (0x2C66, 0x2C66, 1, 0x023E); (0x2C68, 0x2C6C, 2, 0x2C67); (0x2C73, 0x2C73, 1, 0x2C72);
   (0x2C76, 0x2C76, 1, 0x2C75); (0x2C81, 0x2CE3, 2, 0x2C80); (0x2CEC, 0x2CEE, 2, 0x2CEB);
   (0x2CF3, 0x2CF3, 1, 0x2CF2); (0x2D00, 0x2D25, 1, 0x10A0); (0x2D27, 0x2D27, 1, 0x10C7);
   (0x2D2D, 0x2D2D, 1, 0x10CD); (0xA641, 0xA66D, 2, 0xA640); (0xA681, 0xA69B, 2, 0xA680);
   (0xA723, 0xA72F, 2, 0xA722); (0xA733, 0xA76F, 2, 0xA732); (0xA77A, 0xA77C, 2, 0xA779);
   (0xA77F, 0xA787, 2, 0xA77E); (0xA78C, 0xA78C, 1, 0xA78B); (0xA791, 0xA793, 2, 0xA790);
   (0xA794, 0xA794, 1, 0xA7C4); (0xA797, 0xA7A9, 2, 0xA796); (0xA7B5, 0xA7C3, 2, 0xA7B4);
   (0xA7C8, 0xA7CA, 2, 0xA7C7); (0xA7D1, 0xA7D1, 1, 0xA7D0); (0xA7D7, 0xA7D9, 2, 0xA7D6);
   (0xA7F6, 0xA7F6, 1, 0xA7F5); (0xAB53, 0xAB53, 1, 0xA7B3); (0xAB70, 0xABBF, 1, 0x13A0);
   (0xFF41, 0xFF5A, 1, 0xFF21); (0x10428, 0x1044F, 1, 0x10400); (0x104D8, 0x104FB, 1, 0x104B0);
   (0x10597, 0x105BB, 2, 0x10570); (0x10598, 0x105A0, 2, 0x10571); (0x105A4, 0x105B0, 2, 0x1057D);
   (0x105B4, 0x105B8, 2, 0x1058D); (0x105BC, 0x105BC, 1, 0x10595); (0x10CC0, 0x10CF2, 1, 0x10C80);
   (0x118C0, 0x118DF, 1, 0x118A0); (0x16E60, 0x16E7F, 1, 0x16E40); (0x1E922, 0x1E943, 1, 0x1E900)
  ]%N.

(** The unconditional upper-case mappings of SpecialCasing.txt to more than
    one code point. *)
Definition upper_special : list (N * list N) :=
  [
   (0x00DF, [0x0053; 0x0053]); (0x0149, [0x02BC; 0x004E]);
   (0x01F0, [0x004A; 0x030C]); (0x0390, [0x0399; 0x0308; 0x0301]);
   (0x03B0, [0x03A5; 0x0308; 0x0301]); (0x0587, [0x0535; 0x0552]);
   (0x1E96, [0x0048; 0x0331]); (0x1E97, [0x0054; 0x0308]);
   (0x1E98, [0x0057; 0x030A]); (0x1E99, [0x0059; 0x030A]);
   (0x1E9A, [0x0041; 0x02BE]); (0x1F50, [0x03A5; 0x0313]);
   (0x1F52, [0x03A5; 0x0313; 0x0300]); (0x1F54, [0x03A5; 0x0313; 0x0301]);
   (0x1F56, [0x03A5; 0x0313; 0x0342]); (0x1F80, [0x1F08; 0x0399]);
   (0x1F81, [0x1F09; 0x0399]); (0x1F82, [0x1F0A; 0x0399]);
   (0x1F83, [0x1F0B; 0x0399]); (0x1F84, [0x1F0C; 0x0399]);
   (0x1F85, [0x1F0D; 0x0399]); (0x1F86, [0x1F0E; 0x0399]);
   (0x1F87, [0x1F0F; 0x0399]); (0x1F88, [0x1F08; 0x0399]);
   (0x1F89, [0x1F09; 0x0399]); (0x1F8A, [0x1F0A; 0x0399]);
   (0x1F8B, [0x1F0B; 0x0399]); (0x1F8C, [0x1F0C; 0x0399]);
   (0x1F8D, [0x1F0D; 0x0399]); (0x1F8E, [0x1F0E; 0x0399]);
   (0x1F8F, [0x1F0F; 0x0399]); (0x1F90, [0x1F28; 0x0399]);
   (0x1F91, [0x1F29; 0x0399]); (0x1F92, [0x1F2A; 0x0399]);
   (0x1F93, [0x1F2B; 0x0399]); (0x1F94, [0x1F2C; 0x0399]);
   (0x1F95, [0x1F2D; 0x0399]); (0x1F96, [0x1F2E; 0x0399]);
   (0x1F97, [0x1F2F; 0x0399]); (0x1F98, [0x1F28; 0x0399]);
   (0x1F99, [0x1F29; 0x0399]); (0x1F9A, [0x1F2A; 0x0399]);
   (0x1F9B, [0x1F2B; 0x0399]); (0x1F9C, [0x1F2C; 0x0399]);
   (0x1F9D, [0x1F2D; 0x0399]); (0x1F9E, [0x1F2E; 0x0399]);
   (0x1F9F, [0x1F2F; 0x0399]); (0x1FA0, [0x1F68; 0x0399]);
   (0x1FA1, [0x1F69; 0x0399]); (0x1FA2, [0x1F6A; 0x0399]);
   (0x1FA3, [0x1F6B; 0x0399]); (0x1FA4, [0x1F6C; 0x0399]);
   (0x1FA5, [0x1F6D; 0x0399]); (0x1FA6, [0x1F6E; 0x0399]);
   (0x1FA7, [0x1F6F; 0x0399]); (0x1FA8, [0x1F68; 0x0399]);
   (0x1FA9, [0x1F69; 0x0399]); (0x1FAA, [0x1F6A; 0x0399]);
   (0x1FAB, [0x1F6B; 0x0399]); (0x1FAC, [0x1F6C; 0x0399]);
   (0x1FAD, [0x1F6D; 0x0399]); (0x1FAE, [0x1F6E; 0x0399]);
   (0x1FAF, [0x1F6F; 0x0399]); (0x1FB2, [0x1FBA; 0x0399]);
   (0x1FB3, [0x0391; 0x0399]); (0x1FB4, [0x0386; 0x0399]);
   (0x1FB6, [0x0391; 0x0342]); (0x1FB7, [0x0391; 0x0342; 0x0399]);
   (0x1FBC, [0x0391; 0x0399]); (0x1FC2, [0x1FCA; 0x0399]);
   (0x1FC3, [0x0397; 0x0399]); (0x1FC4, [0x0389; 0x0399]);
   (0x1FC6, [0x0397; 0x0342]); (0x1FC7, [0x0397; 0x0342; 0x0399]);
   (0x1FCC, [0x0397; 0x0399]); (0x1FD2, [0x0399; 0x0308; 0x0300]);
   (0x1FD3, [0x0399; 0x0308; 0x0301]); (0x1FD6, [0x0399; 0x0342]);
   (0x1FD7, [0x0399; 0x0308; 0x0342]); (0x1FE2, [0x03A5; 0x0308; 0x0300]);
   (0x1FE3, [0x03A5; 0x0308; 0x0301]); (0x1FE4, [0x03A1; 0x0313]);
   (0x1FE6, [0x03A5; 0x0342]); (0x1FE7, [0x03A5; 0x0308; 0x0342]);
   (0x1FF2, [0x1FFA; 0x0399]); (0x1FF3, [0x03A9; 0x0399]);
   (0x1FF4, [0x038F; 0x0399]); (0x1FF6, [0x03A9; 0x0342]);
   (0x1FF7, [0x03A9; 0x0342; 0x0399]); (0x1FFC, [0x03A9; 0x0399]);
   (0xFB00, [0x0046; 0x0046]); (0xFB01, [0x0046; 0x0049]);
   (0xFB02, [0x0046; 0x004C]); (0xFB03, [0x0046; 0x0046; 0x0049]);
   (0xFB04, [0x0046; 0x0046; 0x004C]); (0xFB05, [0x0053; 0x0054]);
   (0xFB06, [0x0053; 0x0054]); (0xFB13, [0x0544; 0x0546]);
   (0xFB14, [0x0544; 0x0535]); (0xFB15, [0x0544; 0x053B]);
   (0xFB16, [0x054E; 0x0546]); (0xFB17, [0x0544; 0x053D])
  ]%N.

Definition in_ranges (ranges : list (N * N)) (cp : N) : bool :=
  existsb (fun '(first, last) => (first <=? cp) && (cp <=? last))%N ranges.

Definition Cased (cp : N) : bool := in_ranges cased_ranges cp.
Definition Case_Ignorable (cp : N) : bool := in_ranges case_ignorable_ranges cp.

(** The image of a code point under a table of mappings: that of
    SpecialCasing.txt if there is one, else the simple one, else the code
    point itself. *)
Definition covers (cp : N) (entry : N * N * N * N) : bool :=
  let '(first, last, step, _) := entry in
  if (first <=? cp)%N then
    if (cp <=? last)%N then ((cp - first) mod step =? 0)%N else false
  else false.

Definition simple_case (ranges : list (N * N * N * N)) (cp : N) : option N :=
  match find (covers cp) ranges with
  | Some (first, _, _, image) => Some (image + (cp - first))%N
  | None => None
  end.

Definition special_case (special : list (N * list N)) (cp : N)
    : option (list N) :=
  match find (fun entry => (fst entry =? cp)%N) special with
  | Some entry => Some (snd entry)
  | None => None
  end.

Definition full_case (special : list (N * list N))
    (ranges : list (N * N * N * N)) (cp : N) : list N :=
  match special_case special cp with
  | Some image => image
  | None =>
      match simple_case ranges cp with
      | Some image => [image]
      | None => [cp]
      end
  end.

Definition lower_point (cp : N) : list N :=
  full_case lower_special lower_ranges cp.

Definition upper_point (cp : N) : list N :=
  full_case upper_special upper_ranges cp.

(** The condition [Final_Sigma] of SpecialCasing.txt, decided the way the
    engines decide it: going away from the sigma, the first code point
    that is not case-ignorable is there and is cased.  [before] holds the
    code points in front of the sigma, the nearest first. *)
Fixpoint nearest_is_cased (text : list N) : bool :=
  match text with
  | [] => false
  | cp :: text' =>
      if Case_Ignorable cp then nearest_is_cased text' else Cased cp
  end.

Definition Final_Sigma (before after : list N) : bool :=
  nearest_is_cased before && negb (nearest_is_cased after).

(** [toLowercase] and [toUppercase] of the Unicode default case
    conversion; the capital sigma becomes the final small sigma at the
    end of a word. *)
Fixpoint toLowercase (before text : list N) : list N :=
  match text with
  | [] => []
  | cp :: text' =>
      (if (cp =? 0x03A3)%N && Final_Sigma before text' then [0x03C2%N]
       else lower_point cp)
      ++ toLowercase (cp :: before) text'
  end.

Definition toUppercase (text : list N) : list N :=
  flat_map upper_point text.

Definition toLowerCase (s : jsstring) : jsstring :=
  CodePointsToString (toLowercase [] (StringToCodePoints s)).

Definition toUpperCase (s : jsstring) : jsstring :=
  CodePointsToString (toUppercase (StringToCodePoints s)).

(** [s.startsWith(search)] and [s.includes(search)]. *)
Fixpoint startsWith (s search : jsstring) {struct search} : bool :=
  match search, s with
  | [], _ => true
  | _ :: _, [] => false
  | x :: search', y :: s' => (x =? y)%N && startsWith s' search'
  end.

Fixpoint includes (s search : jsstring) : bool :=
  startsWith s search ||
  match s with
  | [] => false
  | _ :: s' => includes s' search
  end.

(** [a === b] on strings. *)
Definition string_eqb (a b : jsstring) : bool := bool_decide (a = b).

(** [a < b] on strings: code units compared from the left, a proper prefix
    being smaller. *)
Fixpoint string_ltb (a b : jsstring) : bool :=
  match a, b with
  | _, [] => false
  | [], _ :: _ => true
  | x :: a', y :: b' =>
      if (x <? y)%N then true
      else if (y <? x)%N then false
      else string_ltb a' b'
  end.

(** White space and line terminators, as [String.prototype.trim] sees
    them. *)
Definition is_white_space (c : code_unit) : bool :=
  ((9 <=? c) && (c <=? 13) || (c =? 32) || (c =? 160) || (c =? 5760) ||
   (8192 <=? c) && (c <=? 8202) || (c =? 8232) || (c =? 8233) ||
   (c =? 8239) || (c =? 8287) || (c =? 12288) || (c =? 65279))%N.

Fixpoint trimStart (s : jsstring) : jsstring :=
  match s with
  | [] => []
  | c :: s' => if is_white_space c then trimStart s' else s
  end.

Definition trimEnd (s : jsstring) : jsstring :=
  reverse (trimStart (reverse s)).

Definition trim (s : jsstring) : jsstring := trimEnd (trimStart s).

(** Numbers.  The page compares the cap with array lengths and prints
    years; both are integers far below 2^53, where arithmetic on doubles
    is exact, so a number is an integer or [NaN]; [null], which the cap
    may hold instead of a number, comes below. *)
Inductive number : Type :=
| Num (z : Z)
| NaN.

Definition add (a b : number) : number :=
  match a, b with
  | Num x, Num y => Num (x + y)
  | _, _ => NaN
  end.

(** A variable bound to a number input ([bind:value]) holds a number, or
    [null] while the text of the input is empty or not a number. *)
Inductive number_or_null : Type :=
| NotNull (n : number)
| Null.

Coercion NotNull : number >-> number_or_null.

(** [ToNumber], which [+] applies to its operands: [null] counts as [0]. *)
Definition ToNumber (v : number_or_null) : number :=
  match v with
  | NotNull n => n
  | Null => Num 0
  end.

(** [a === b] on numbers: [NaN] is not equal to anything. *)
Definition number_eqb (a b : number) : bool :=
  match a, b with
  | Num x, Num y => (x =? y)%Z
  | _, _ => false
  end.

(** The string a template literal makes of an integer, as the years are:
    its decimal digits (from 10^21 on the runtime writes an exponent). *)
Definition numberToString (z : Z) : jsstring :=
  str (NilZero.string_of_int (Z.to_int z)).

(** Values, as far as [typeof], [in] and property access tell them
    apart. *)
#[warnings="-register-all"]
Inductive value : Type :=
| VUndefined
| VNull
| VBoolean (b : bool)
| VNumber (n : number)
| VString (s : jsstring)
| VObject (props : gmap jsstring value).

(** [Array.prototype.sort(compare)]: a stable sort; an element goes in
    front of the first already placed element it does not compare
    greater than. *)
Section Sort.
Context {A : Type} (compare : A -> A -> Z).

Fixpoint sort_insert (x : A) (l : list A) : list A :=
  match l with
  | [] => [x]
  | y :: l' => if compare x y <=? 0 then x :: l else y :: sort_insert x l'
  end.

Fixpoint sort (l : list A) : list A :=
  match l with
  | [] => []
  | x :: l' => sort_insert x (sort l')
  end.

(** [x] may stand before [y]: the comparator does not put it after. *)
Definition not_after (x y : A) : Prop := compare x y <= 0.
End Sort.

End JS.

(** ** [src/lib/util.ts] *)

Module Util.

(** [assert(b)] throws when [b] is false; [None] stands for the thrown
    error. *)
Definition assert (b : bool) : option unit :=
  if b then Some () else None.

(** [sortByKeyCached(ts, getKey)]: the keys are computed once, the pairs are
    sorted by key with [a - b], and [ts] is overwritten in place, index by
    index.  [pairs[i]] exists for every [i < ts.length]; were it missing,
    the read of [pairs[i][1]] would throw and [ts] is left as it is then. *)
Definition sortByKeyCached {T : Type} (ts : list T) (getKey : T -> Z) : list T :=
  let pairs := List.map (fun t => (getKey t, t)) ts in
  let pairs := JS.sort (fun p q => fst p - fst q) pairs in
  fold_left
    (fun ts i =>
       match pairs !! i with
       | Some p => <[i := snd p]> ts
       | None => ts
       end)
    (seq 0 (length ts)) ts.

End Util.

(** ** The page, in its latest variant: parsing and loading *)

Module Page.
Import JS.

Record Course : Type := {
  id : jsstring;
  name : jsstring;
  credit : jsstring;
  term : jsstring;
  when : jsstring;
  expects : jsstring;
  remark : jsstring;
  description : jsstring;
  organizer : jsstring;
  year : Z;
  key : jsstring;
}.

Definition courseCompare (a b : Course) : Z :=
  if string_ltb (key a) (key b) then -1
  else if string_ltb (key b) (key a) then 1
  else 0.

Definition courseContainsString (c : Course) (s : jsstring)
    (useDescription : bool) : bool :=
  let s := toLowerCase s in
  includes (toLowerCase (id c)) s ||
  includes (toLowerCase (name c)) s ||
  includes (toLowerCase (credit c)) s ||
  includes (toLowerCase (term c)) s ||
  includes (toLowerCase (when c)) s ||
  includes (toLowerCase (expects c)) s ||
  includes (toLowerCase (remark c)) s ||
  includes (toLowerCase (organizer c)) s ||
  (useDescription && includes (toLowerCase (description c)) s).

(** The header names of the catalogue files. *)
Definition col_id : jsstring := [31185; 30446; 30058; 21495]%N.
Definition col_name : jsstring := [31185; 30446; 21517]%N.
Definition col_credit : jsstring := [21336; 20301; 25968]%N.
Definition col_term : jsstring := [23455; 26045; 23398; 26399]%N.
Definition col_when : jsstring := [26332; 26178; 38480]%N.
Definition col_expects : jsstring :=
  [27161; 28310; 23653; 20462; 24180; 27425]%N.
Definition col_remark : jsstring := [20633; 32771]%N.
Definition col_description : jsstring := [25480; 26989; 27010; 35201]%N.
Definition col_organizer : jsstring := [25285; 24403; 25945; 21729]%N.

(** [typeof v === "object"], [v !== null], [k in v], [v[k]] and
    [typeof v[k] === "string"].  [in] is only reached on objects. *)
Definition typeof_object (v : value) : bool :=
  match v with
  | VNull | VObject _ => true
  | _ => false
  end.

Definition not_null (v : value) : bool :=
  match v with
  | VNull => false
  | _ => true
  end.

Definition has_property (k : jsstring) (v : value) : bool :=
  match v with
  | VObject props => bool_decide (is_Some (props !! k))
  | _ => false
  end.

Definition get (v : value) (k : jsstring) : value :=
  match v with
  | VObject props => default VUndefined (props !! k)
  | _ => VUndefined
  end.

Definition typeof_string (v : value) : bool :=
  match v with
  | VString _ => true
  | _ => false
  end.

(** The string behind a value the guard has found to be one. *)
Definition as_string (v : value) : jsstring :=
  match v with
  | VString s => s
  | _ => []
  end.

Definition string_column (row : value) (k : jsstring) : bool :=
  has_property k row && typeof_string (get row k).

(** The guard of the row loop (the condition whose negation skips the
    row). *)
Definition row_guard (row : value) : bool :=
  typeof_object row && not_null row &&
  string_column row col_id &&
  string_column row col_name &&
  string_column row col_credit &&
  string_column row col_term &&
  string_column row col_when &&
  string_column row col_expects &&
  string_column row col_remark &&
  string_column row col_description &&
  string_column row col_organizer.

(** One turn of the row loop: [None] where the loop continues without a
    push, [Some c] where it pushes [c]. *)
Definition parse_row (year : Z) (row : value) : option Course :=
  if negb (row_guard row) then None
  else
    let id := trim (as_string (get row col_id)) in
    if string_eqb id [] then None
    else Some {|
      id := id;
      name := trim (as_string (get row col_name));
      credit := trim (as_string (get row col_credit));
      term := trim (as_string (get row col_term));
      when := trim (as_string (get row col_when));
      expects := trim (as_string (get row col_expects));
      remark := trim (as_string (get row col_remark));
      description := trim (as_string (get row col_description));
      organizer := trim (as_string (get row col_organizer));
      year := year;
      key := id ++ str "," ++ numberToString year;
    |}.

(** What [papaparse.parse] returns: the decoded rows and the errors it
    met. *)
Record ParseError : Type := {
  error_type : jsstring;
  error_code : jsstring;
  error_message : jsstring;
  error_row : option Z;
}.

Record ParseResult : Type := {
  data : list value;
  errors : list ParseError;
}.

Section Loading.

(** [papaparse.parse(csv, { header: true })], a library outside the
    repository, and the three catalogue files bundled with the page. *)
Context (papaparse_parse : jsstring -> ParseResult).
Context (courses2023Csv courses2024Csv courses2025Csv : jsstring).

(** [undefined] is [None]. *)
Definition parseCoursesCsv (csv : jsstring) (year : Z) : option (list Course) :=
  let result := papaparse_parse csv in
  if (0 <? length (errors result))%nat then None
  else Some (omap (parse_row year) (data result)).

(** The loop of [loadCourses] over its sources; [None] is the error
    thrown by [assert]. *)
Fixpoint load_loop (sources : list (jsstring * Z)) (courses : list Course)
    : option (list Course) :=
  match sources with
  | [] => Some courses
  | (csv, year) :: sources' =>
      let cs := parseCoursesCsv csv year in
      match Util.assert (bool_decide (is_Some cs)), cs with
      | Some _, Some cs => load_loop sources' (courses ++ cs)
      | _, _ => None
      end
  end.

Definition loadCoursesFrom (sources : list (jsstring * Z))
    : option (list Course) :=
  match load_loop sources [] with
  | Some courses => Some (sort courseCompare courses)
  | None => None
  end.

Definition loadCourses : option (list Course) :=
  loadCoursesFrom
    [(courses2023Csv, 2023); (courses2024Csv, 2024); (courses2025Csv, 2025)].

End Loading.

(** ** The page: the derived view *)

(** The reactive state the view is derived from. *)
Inductive IdFilterMode : Type := IdPrefix | IdContain.
Inductive NameFilterMode : Type := NameContain | NameExact.

Record State : Type := {
  idFilter : jsstring;
  idFilterMode : IdFilterMode;
  nameFilter : jsstring;
  nameFilterMode : NameFilterMode;
  yearFilter : gset Z;
  priorityString : jsstring;
  showDescription : bool;
  maxVisibleCourseCount : number_or_null;
}.

Definition idPrefix (st : State) : bool :=
  match idFilterMode st with
  | IdPrefix => true
  | IdContain => false
  end.

Definition nameExact (st : State) : bool :=
  match nameFilterMode st with
  | NameExact => true
  | NameContain => false
  end.

Definition uppercaseIdFilter (st : State) : jsstring :=
  toUpperCase (idFilter st).

Definition lowercaseNameFilter (st : State) : jsstring :=
  toLowerCase (nameFilter st).

(** The three conjuncts of the filter condition. *)
Definition id_passes (st : State) (c : Course) : bool :=
  if idPrefix st then startsWith (id c) (uppercaseIdFilter st)
  else includes (id c) (uppercaseIdFilter st).

Definition name_passes (st : State) (c : Course) : bool :=
  if nameExact st then string_eqb (name c) (nameFilter st)
  else includes (toLowerCase (name c)) (lowercaseNameFilter st).

Definition year_passes (st : State) (c : Course) : bool :=
  bool_decide (year c ∈ yearFilter st).

Definition passes (st : State) (c : Course) : bool :=
  id_passes st c && name_passes st c && year_passes st c.

(** The filter loop, from the point where [courses] remain to be visited
    and [visibleCourses] has been collected; it yields the array and
    [maxExceeded].  The [break] is the branch that does not go on. *)
Fixpoint filter_loop (st : State) (courses visibleCourses : list Course)
    : list Course * bool :=
  match courses with
  | [] => (visibleCourses, false)
  | c :: courses' =>
      if negb (passes st c) then filter_loop st courses' visibleCourses
      else
        let visibleCourses := visibleCourses ++ [c] in
        if number_eqb (Num (Z.of_nat (length visibleCourses)))
                      (add (ToNumber (maxVisibleCourseCount st)) (Num 1))
        then (removelast visibleCourses, true)
        else filter_loop st courses' visibleCourses
  end.

Definition filterCourses (st : State) (courses : list Course)
    : list Course * bool :=
  filter_loop st courses [].

(** The counting loop after the sort: the length of the leading run of
    courses that contain the priority string. *)
Fixpoint count_loop (st : State) (visibleCourses : list Course)
    (prioritizedCount : Z) : Z :=
  match visibleCourses with
  | [] => prioritizedCount
  | c :: rest =>
      if courseContainsString c (priorityString st) (showDescription st)
      then count_loop st rest (prioritizedCount + 1)
      else prioritizedCount
  end.

(** The priority block: the reordered array and [prioritizedCount]
    ([None] is [undefined]). *)
Definition prioritize (st : State) (visibleCourses : list Course)
    : list Course * option Z :=
  if negb (string_eqb (priorityString st) []) then
    let visibleCourses :=
      Util.sortByKeyCached visibleCourses
        (fun c =>
           - Z.b2z (courseContainsString c (priorityString st)
                      (showDescription st))) in
    (visibleCourses, Some (count_loop st visibleCourses 0))
  else (visibleCourses, None).

(** The first row-span loop: one counter per run of equal ids.
    [lastCourseId] starts as [undefined], which differs from every id. *)
Definition count_step (acc : list Z * option jsstring) (c : Course)
    : list Z * option jsstring :=
  let '(duplicateCourseIdCounts, lastCourseId) := acc in
  let '(duplicateCourseIdCounts, lastCourseId) :=
    if negb (bool_decide (lastCourseId = Some (id c)))
    then (duplicateCourseIdCounts ++ [0], Some (id c))
    else (duplicateCourseIdCounts, lastCourseId) in
  (alter (fun n => n + 1) (Nat.pred (length duplicateCourseIdCounts))
     duplicateCourseIdCounts,
   lastCourseId).

Definition duplicateCourseIdCounts (visibleCourses : list Course) : list Z :=
  fst (fold_left count_step visibleCourses ([], None)).

(** The second loop: each count, followed by [count - 1] zeros. *)
Definition expand_count (count : Z) : list Z :=
  count :: replicate (Z.to_nat (count - 1)) 0.

Definition rowSpans (visibleCourses : list Course) : list Z :=
  flat_map expand_count (duplicateCourseIdCounts visibleCourses).

(** The four components of the derived view. *)
Record View : Type := {
  visibleCourses : list Course;
  visibleCourseIdRowSpans : list Z;
  maxExceeded : bool;
  prioritizedCount : option Z;
}.

Definition derived (st : State) (courses : list Course) : View :=
  let '(visible, exceeded) := filterCourses st courses in
  let '(visible, count) := prioritize st visible in
  {| visibleCourses := visible;
     visibleCourseIdRowSpans := rowSpans visible;
     maxExceeded := exceeded;
     prioritizedCount := count |}.

End Page.

(** ** The identifier filter of the earliest variant,
    [src/routes/+page.svelte] *)

Module RoutesPage.
Import JS.

(** There the filter text is used as typed. *)
Definition id_passes (prefix : bool) (idFilter : jsstring) (c : Page.Course)
    : bool :=
  if prefix then startsWith (Page.id c) idFilter
  else includes (Page.id c) idFilter.

End RoutesPage.

(** ** The notions the specification speaks in *)

Module Spec.
Import JS.

(** Two strings are equal ignoring case when they have the same lower-case
    form. *)
Definition eq_ignoring_case (a b : jsstring) : Prop :=
  toLowerCase a = toLowerCase b.

(** [p] is a prefix of [s] ignoring case: [s] starts with some spelling of
    [p]. *)
Definition prefix_ignoring_case (p s : jsstring) : Prop :=
  exists p' rest, s = p' ++ rest /\ eq_ignoring_case p p'.

(** [p] is a substring of [s]. *)
Definition substring (p s : jsstring) : Prop :=
  exists before after, s = before ++ p ++ after.

(** [p] is a substring of [s] ignoring case. *)
Definition substring_ignoring_case (p s : jsstring) : Prop :=
  exists before p' after, s = before ++ p' ++ after /\ eq_ignoring_case p p'.

(** The identifier filter compares in upper case: there two strings are
    equal ignoring case when they have the same upper-case form, [p] is a
    prefix of [s] ignoring case when [s] starts with some spelling of [p],
    and a substring when [s] contains one. *)
Definition eq_in_upper_case (a b : jsstring) : Prop :=
  toUpperCase a = toUpperCase b.

Definition prefix_in_upper_case (p s : jsstring) : Prop :=
  exists p' rest, s = p' ++ rest /\ eq_in_upper_case p p'.

Definition substring_in_upper_case (p s : jsstring) : Prop :=
  exists before p' after, s = before ++ p' ++ after /\ eq_in_upper_case p p'.

(** Well-formed text: every surrogate is half of a pair, a leading one
    directly followed by a trailing one. *)
Fixpoint well_formed (s : jsstring) : bool :=
  match s with
  | [] => true
  | c :: s' =>
      if is_leading_surrogate c then
        match s' with
        | d :: s'' => is_trailing_surrogate d && well_formed s''
        | [] => false
        end
      else
        negb (is_trailing_surrogate c) && (c <? 0x10000)%N && well_formed s'
  end.

(** Plain text: well-formed text that holds neither the capital sigma nor
    the capital I with a dot, the two letters whose lower-case form
    depends on the letters around or has two code points. *)
Definition plain_unit (c : code_unit) : bool :=
  negb (c =? 0x03A3)%N && negb (c =? 0x0130)%N.

Definition plain (s : jsstring) : Prop :=
  well_formed s = true /\ forallb plain_unit s = true.

(** The fields the priority query is looked for in; the description is
    one of them only on request. *)
Definition searched_fields (includeDescription : bool) (c : Page.Course)
    : list jsstring :=
  [Page.id c; Page.name c; Page.credit c; Page.term c; Page.when c;
   Page.expects c; Page.remark c; Page.organizer c] ++
  (if includeDescription then [Page.description c] else []).

(** The lower-case form of the query occurs in the lower-case form of a
    searched field. *)
Definition found_in_lower_case (query : jsstring) (includeDescription : bool)
    (c : Page.Course) : Prop :=
  exists field, field ∈ searched_fields includeDescription c /\
    substring (toLowerCase query) (toLowerCase field).

(** A record matches a priority query when one of the searched fields
    contains it ignoring case; the description is searched only on
    request. *)
Definition matches_query (query : jsstring) (includeDescription : bool)
    (c : Page.Course) : Prop :=
  substring_ignoring_case query (Page.id c) \/
  substring_ignoring_case query (Page.name c) \/
  substring_ignoring_case query (Page.credit c) \/
  substring_ignoring_case query (Page.term c) \/
  substring_ignoring_case query (Page.when c) \/
  substring_ignoring_case query (Page.expects c) \/
  substring_ignoring_case query (Page.remark c) \/
  substring_ignoring_case query (Page.organizer c) \/
  (includeDescription = true /\
   substring_ignoring_case query (Page.description c)).

(** A string is trimmed when neither its first nor its last code unit is
    white space. *)
Definition trimmed (s : jsstring) : Prop :=
  (forall c, head s = Some c -> is_white_space c = false) /\
  (forall c, last s = Some c -> is_white_space c = false).

(** The lexicographic order of strings: the first code unit that differs
    decides, and a proper prefix comes first. *)
Inductive lex_lt : jsstring -> jsstring -> Prop :=
| lex_lt_prefix (y : code_unit) (b : jsstring) : lex_lt [] (y :: b)
| lex_lt_here (x y : code_unit) (a b : jsstring) :
    (x < y)%N -> lex_lt (x :: a) (y :: b)
| lex_lt_later (x : code_unit) (a b : jsstring) :
    lex_lt a b -> lex_lt (x :: a) (x :: b).

Definition lex_le (a b : jsstring) : Prop := a = b \/ lex_lt a b.

(** Ascending order of sort keys. *)
Definition key_le (a b : Page.Course) : Prop :=
  lex_le (Page.key a) (Page.key b).

(** The columns a row must have, in the order of the record's fields, and
    those fields. *)
Definition required_columns : list jsstring :=
  [Page.col_id; Page.col_name; Page.col_credit; Page.col_term;
   Page.col_when; Page.col_expects; Page.col_remark;
   Page.col_description; Page.col_organizer].

Definition text_fields (c : Page.Course) : list jsstring :=
  [Page.id c; Page.name c; Page.credit c; Page.term c; Page.when c;
   Page.expects c; Page.remark c; Page.description c; Page.organizer c].

(** The string a decoded row holds in a column; there is none when the row
    is not an object, lacks the column, or holds something else there. *)
Definition cell (row : value) (k : jsstring) : option jsstring :=
  match row with
  | VObject props =>
      match props !! k with
      | Some (VString s) => Some s
      | _ => None
      end
  | _ => None
  end.

(** The sum of a sequence of spans. *)
Definition total (spans : list Z) : Z := foldr Z.add 0 spans.

End Spec.

(** ** Sample inputs *)

Module Samples.
Import JS Page.

(** Decoded rows: a complete one, one without most columns, one with a
    blank identifier, and one with a number where a string is required. *)
Definition full_props (i n : string) : gmap jsstring value :=
  list_to_map
    [(col_id, VString (str i)); (col_name, VString (str n));
     (col_credit, VString (str "2.0")); (col_term, VString (str "AB"));
     (col_when, VString (str " Mon1,2")); (col_expects, VString (str "1"));
     (col_remark, VString []); (col_description, VString (str "intro "));
     (col_organizer, VString (str "Sato"))].

Definition full_row (i n : string) : value := VObject (full_props i n).

Definition short_row : value :=
  VObject (list_to_map [(col_id, VString (str "GB10101"))]).

Definition number_row : value :=
  VObject (<[col_credit := VNumber (Num 2)]> (full_props "GB10201" "Algebra")).

Definition sample_rows : list value :=
  [full_row " GB10101 " "Logic"; short_row; full_row "   " "Blank";
   number_row; VNull; full_row "GA10101" " Sets"].

(** A decoder that reports an error for the text "bad" and the sample rows
    for any other text. *)
Definition sample_error : ParseError :=
  {| error_type := str "FieldMismatch"; error_code := str "TooFewFields";
     error_message := str "Too few fields"; error_row := Some 1 |}.

Definition sample_parse (csv : jsstring) : ParseResult :=
  if string_eqb csv (str "bad")
  then {| data := [full_row "GB10101" "Logic"]; errors := [sample_error] |}
  else {| data := sample_rows; errors := [] |}.

Definition course (i n : string) (y : Z) : Course :=
  {| id := str i; name := str n; credit := str "2.0"; term := str "AB";
     when := str "Mon1,2"; expects := str "1"; remark := [];
     description := str "intro"; organizer := str "Sato"; year := y;
     key := str i ++ str "," ++ numberToString y |}.

Definition sample_courses (y : Z) : list Course :=
  [course "GB10101" "Logic" y; course "GA10101" "Sets" y].

(** A state of the page: no identifier or name filter, every year ticked,
    a priority string and a cap. *)
Definition sample_state (priority : string) (cap : number) : State :=
  {| idFilter := []; idFilterMode := IdPrefix;
     nameFilter := []; nameFilterMode := NameContain;
     yearFilter := {[2023; 2024; 2025]};
     priorityString := str priority; showDescription := false;
     maxVisibleCourseCount := cap |}.

(** Four records, the second and the fourth of which contain "logic". *)
Definition four_courses : list Course :=
  [course "X1" "Algebra" 2023; course "Y1" "Logic" 2023;
   course "X1" "Algebra" 2024; course "Z1" "LOGIC II" 2024].

(** Identifiers A, A, B, A. *)
Definition aaba_courses : list Course :=
  [course "A" "Algebra" 2023; course "A" "Algebra" 2024;
   course "B" "Logic" 2024; course "A" "Algebra" 2025].

(** A state whose identifier filter is the text "gb", in either mode. *)
Definition gb_state (mode : IdFilterMode) : State :=
  {| idFilter := str "gb"; idFilterMode := mode;
     nameFilter := []; nameFilterMode := NameContain;
     yearFilter := {[2023; 2024; 2025]};
     priorityString := []; showDescription := false;
     maxVisibleCourseCount := Num 1000 |}.

(** The capital sigma as a priority string, and a record whose name is an
    alpha and a capital sigma. *)
Definition sigma : jsstring := [0x03A3%N].

Definition sigma_course : Course :=
  {| id := str "GE10101"; name := [0x0391; 0x03A3]%N; credit := str "2.0";
     term := str "AB"; when := str "Mon1,2"; expects := str "1";
     remark := []; description := str "intro"; organizer := str "Sato";
     year := 2023; key := str "GE10101,2023" |}.

Definition sigma_state : State :=
  {| idFilter := []; idFilterMode := IdPrefix;
     nameFilter := []; nameFilterMode := NameContain;
     yearFilter := {[2023; 2024; 2025]};
     priorityString := sigma; showDescription := false;
     maxVisibleCourseCount := Num 1000 |}.

(** The state of the page while the text of the cap input is empty or not
    a number. *)
Definition null_cap_state : State :=
  {| idFilter := []; idFilterMode := IdPrefix;
     nameFilter := []; nameFilterMode := NameContain;
     yearFilter := {[2023; 2024; 2025]};
     priorityString := []; showDescription := false;
     maxVisibleCourseCount := Null |}.

(** The end-to-end scenario: every source holds one row, for "CS101". *)
Definition cs101_parse (csv : jsstring) : ParseResult :=
  {| data := [full_row "CS101" "Logic"]; errors := [] |}.

Definition cs101_state : State :=
  {| idFilter := str "cs101"; idFilterMode := IdPrefix;
     nameFilter := []; nameFilterMode := NameContain;
     yearFilter := {[2023; 2024; 2025]};
     priorityString := []; showDescription := false;
     maxVisibleCourseCount := Num 1000 |}.

End Samples.

From Stdlib Require DecimalPos DecimalZ.

(** ** The page: event handlers and the table rows *)

Module PageEvents.
Import JS Page.

Definition set_yearFilter (st : State) (years : gset Z) : State :=
  {| idFilter := idFilter st; idFilterMode := idFilterMode st;
     nameFilter := nameFilter st; nameFilterMode := nameFilterMode st;
     yearFilter := years;
     priorityString := priorityString st;
     showDescription := showDescription st;
     maxVisibleCourseCount := maxVisibleCourseCount st |}.

(** The [onchange] handler of the checkbox of [year]: [yearFilter.add(year)]
    when the box is ticked, [yearFilter.delete(year)] when it is not. *)
Definition onchange_year (year : Z) (checked : bool) (st : State) : State :=
  set_yearFilter st
    (if checked then {[year]} ∪ yearFilter st
     else yearFilter st ∖ {[year]}).

(** What typing in the priority box and ticking the description box do to
    the state ([bind:value], [bind:checked]). *)
Definition set_priority (st : State) (text : jsstring) (description : bool)
    : State :=
  {| idFilter := idFilter st; idFilterMode := idFilterMode st;
     nameFilter := nameFilter st; nameFilterMode := nameFilterMode st;
     yearFilter := yearFilter st;
     priorityString := text;
     showDescription := description;
     maxVisibleCourseCount := maxVisibleCourseCount st |}.

(** [array[i]] for a number [i]: [undefined] ([None]) outside the array. *)
Definition at_index {T : Type} (array : list T) (i : Z) : option T :=
  if i <? 0 then None else array !! Z.to_nat i.

(** One turn of the loop of the Ctrl+Y handler, at index [i], with the text
    [s] built so far.  [None] is the [TypeError] of reading [course.id] on
    [undefined]; a span missing at [i] is not [0], so the course is looked
    up at a [NaN] index and missing too. *)
Definition copy_step (v : View) (s : option jsstring) (i : nat)
    : option jsstring :=
  match s with
  | None => None
  | Some s =>
      match visibleCourseIdRowSpans v !! i with
      | None => None
      | Some rowSpan =>
          if rowSpan =? 0 then Some s
          else
            match at_index (visibleCourses v) (Z.of_nat i + rowSpan - 1) with
            | None => None
            | Some course =>
                Some (s ++ id course ++ str " " ++ name course ++ [10%N])
            end
      end
  end.

(** The text the Ctrl+Y handler writes to the clipboard. *)
Definition copied_text (v : View) : option jsstring :=
  fold_left (copy_step v) (seq 0 (length (visibleCourseIdRowSpans v)))
    (Some []).

(** [{#if rowSpan > 0}]: whether row [i] of the table has an identifier
    cell ([undefined > 0] is false). *)
Definition id_cell_shown (v : View) (i : nat) : bool :=
  match visibleCourseIdRowSpans v !! i with
  | Some rowSpan => 0 <? rowSpan
  | None => false
  end.

(** The text of the priority cell of row [i]: the check mark when
    [i < prioritizedCount]; there is no such cell ([None]) when
    [prioritizedCount] is [undefined]. *)
Definition priority_cell (v : View) (i : nat) : option jsstring :=
  match prioritizedCount v with
  | Some count => Some (if Z.of_nat i <? count then [9989%N] else [])
  | None => None
  end.

End PageEvents.

(** ** The filter of the variant with a single year,
    [src/unnamed/part_001] *)

Module Page001.
Import JS.

Record State : Type := {
  idFilter : jsstring;
  idFilterMode : Page.IdFilterMode;
  nameFilter : jsstring;
  yearFilter : option Z;
  priorityString : jsstring;
  showDescription : bool;
  maxVisibleCourseCount : number_or_null;
}.

Definition prefix (st : State) : bool :=
  match idFilterMode st with
  | Page.IdPrefix => true
  | Page.IdContain => false
  end.

Definition uppercaseIdFilter (st : State) : jsstring :=
  toUpperCase (idFilter st).

Definition lowercaseNameFilter (st : State) : jsstring :=
  toLowerCase (nameFilter st).

(** The filter condition; [yearFilter === undefined] is [None]. *)
Definition passes (st : State) (c : Page.Course) : bool :=
  (if prefix st then startsWith (Page.id c) (uppercaseIdFilter st)
   else includes (Page.id c) (uppercaseIdFilter st)) &&
  includes (toLowerCase (Page.name c)) (lowercaseNameFilter st) &&
  match yearFilter st with
  | None => true
  | Some y => Page.year c =? y
  end.

Fixpoint filter_loop (st : State) (courses visibleCourses : list Page.Course)
    : list Page.Course * bool :=
  match courses with
  | [] => (visibleCourses, false)
  | c :: courses' =>
      if negb (passes st c) then filter_loop st courses' visibleCourses
      else
        let visibleCourses := visibleCourses ++ [c] in
        if number_eqb (Num (Z.of_nat (length visibleCourses)))
                      (add (ToNumber (maxVisibleCourseCount st)) (Num 1))
        then (removelast visibleCourses, true)
        else filter_loop st courses' visibleCourses
  end.

Definition filterCourses (st : State) (courses : list Page.Course)
    : list Page.Course * bool :=
  filter_loop st courses [].

End Page001.

(** ** More notions for stating properties *)

Module Runs.
Import JS.

(** The last record of every maximal run of records with one identifier. *)
Fixpoint run_ends (l : list Page.Course) : list Page.Course :=
  match l with
  | [] => []
  | c :: l' =>
      match l' with
      | [] => [c]
      | d :: _ =>
          if bool_decide (Page.id d = Page.id c) then run_ends l'
          else c :: run_ends l'
      end
  end.

(** One more on the first counter. *)
Definition bump (counts : list Z) : list Z :=
  match counts with
  | [] => []
  | n :: rest => (n + 1) :: rest
  end.

(** The view of a table that shows the given courses, as far as the rows
    and the copy handler use it. *)
Definition table (courses : list Page.Course) : Page.View :=
  {| Page.visibleCourses := courses;
     Page.visibleCourseIdRowSpans := Page.rowSpans courses;
     Page.maxExceeded := false;
     Page.prioritizedCount := None |}.

(** The decoded row that holds the text fields of a record under the
    catalogue's header names. *)
Definition row_of (c : Page.Course) : value :=
  VObject (list_to_map
    [(Page.col_id, VString (Page.id c));
     (Page.col_name, VString (Page.name c));
     (Page.col_credit, VString (Page.credit c));
     (Page.col_term, VString (Page.term c));
     (Page.col_when, VString (Page.when c));
     (Page.col_expects, VString (Page.expects c));
     (Page.col_remark, VString (Page.remark c));
     (Page.col_description, VString (Page.description c));
     (Page.col_organizer, VString (Page.organizer c))]).

(** The line the copy handler writes for a record. *)
Definition line (c : Page.Course) : jsstring :=
  Page.id c ++ str " " ++ Page.name c ++ [10%N].

(** The year-set state that stands for a single-year state: the same texts,
    the name filter in contains mode, and the given years. *)
Definition with_years (st : Page001.State) (years : gset Z) : Page.State :=
  {| Page.idFilter := Page001.idFilter st;
     Page.idFilterMode := Page001.idFilterMode st;
     Page.nameFilter := Page001.nameFilter st;
     Page.nameFilterMode := Page.NameContain;
     Page.yearFilter := years;
     Page.priorityString := Page001.priorityString st;
     Page.showDescription := Page001.showDescription st;
     Page.maxVisibleCourseCount := Page001.maxVisibleCourseCount st |}.

End Runs.

(** ** Notions for reasoning about the case mappings *)

Module CaseTables.
Import JS.

(** The code points an entry of a mapping table maps, and all the code
    points a table maps. *)
Definition range_points (entry : N * N * N * N) : list N :=
  let '(first, last, step, _) := entry in
  List.map (fun i => (first + N.of_nat i * step)%N)
    (seq 0 (S (N.to_nat ((last - first) / step)))).

Definition mapped_points (special : list (N * list N))
    (ranges : list (N * N * N * N)) : list N :=
  List.map fst special ++ flat_map range_points ranges.

Definition is_surrogate (c : N) : bool :=
  is_leading_surrogate c || is_trailing_surrogate c.

(** A Unicode scalar value: a code point that is not a surrogate. *)
Definition scalar (cp : N) : bool :=
  (cp <=? 0x10FFFF)%N && negb (is_surrogate cp).

(** Two strings differ at a position that both have. *)
Fixpoint clash (a b : jsstring) : bool :=
  match a, b with
  | x :: a', y :: b' => negb (x =? y)%N || clash a' b'
  | _, _ => false
  end.

(** The string starts with a trailing surrogate; the string ends with a
    leading one. *)
Definition head_is_trail (s : jsstring) : bool :=
  match s with
  | d :: _ => is_trailing_surrogate d
  | [] => false
  end.

Definition ends_with_lead (s : jsstring) : bool :=
  match last s with
  | Some c => is_leading_surrogate c
  | None => false
  end.

(** The code units written for a code point by [toUpperCase]. *)
Definition upper_block (cp : N) : jsstring :=
  CodePointsToString (upper_point cp).

(** What the upper-case table is checked for at a code point it maps: the
    code point and its images are scalar values, there is an image, the
    images are mapped to themselves, and the code units written differ
    from those read. *)
Definition upper_ok (cp : N) : bool :=
  scalar cp &&
  negb (bool_decide (upper_point cp = [])) &&
  forallb (fun t => scalar t && bool_decide (upper_point t = [t]))
    (upper_point cp) &&
  clash (upper_block cp) (UTF16EncodeCodePoint cp).

(** The code units written for a code point by [toLowerCase] away from
    a capital sigma, and the lower-case form of a string in which no
    capital sigma is final. *)
Definition lower_block (cp : N) : jsstring :=
  CodePointsToString (lower_point cp).

Definition lower_form (s : jsstring) : jsstring :=
  CodePointsToString (flat_map lower_point (StringToCodePoints s)).

(** What the lower-case table is checked for at a code point it maps: the
    code point is a scalar value and, but for the capital I with a dot,
    its image is one scalar value, in the Basic Multilingual Plane if and
    only if the code point is. *)
Definition lower_ok (cp : N) : bool :=
  scalar cp &&
  ((cp =? 0x0130)%N ||
   match lower_point cp with
   | [t] => scalar t && Bool.eqb (cp <? 0x10000)%N (t <? 0x10000)%N
   | _ => false
   end).

End CaseTables.

(** ** Facts about the runtime model *)

Module JSFacts.
Import JS.

Lemma startsWith_prefix (s p : jsstring) :
  startsWith s p = true <-> p `prefix_of` s.
Proof.
  revert s. induction p as [|x p IH]; intros s; simpl.
  - split; [intros _; apply prefix_nil | done].
  - destruct s as [|y s].
    + split; [done | intros H; by apply prefix_nil_not in H].
    + rewrite andb_true_iff, N.eqb_eq, IH. split.
      * intros [-> H]. by apply prefix_cons.
      * intros H. split.
        -- by apply prefix_cons_inv_1 in H.
        -- by apply prefix_cons_inv_2 in H.
Qed.

Lemma includes_substring (s p : jsstring) :
  includes s p = true <-> Spec.substring p s.
Proof.
  unfold Spec.substring. induction s as [|y s IH].
  - simpl. rewrite orb_false_r, startsWith_prefix. split.
    + intros [k Hk]. exists [], k. done.
    + intros (b & a & H). symmetry in H.
      apply app_eq_nil in H as [-> H]. apply app_eq_nil in H as [-> _].
      done.
  - cbn [includes]. rewrite orb_true_iff, startsWith_prefix, IH. split.
    + intros [[k Hk] | (b & a & H)].
      * exists [], k. done.
      * exists (y :: b), a. by rewrite H.
    + intros (b & a & H). destruct b as [|z b].
      * left. exists a. done.
      * right. simpl in H. injection H as _ H. by exists b, a.
Qed.

Lemma startsWith_map (f : code_unit -> code_unit) (s p : jsstring) :
  startsWith (List.map f s) (List.map f p) = true <->
  exists p' rest, s = p' ++ rest /\ List.map f p' = List.map f p.
Proof.
  rewrite startsWith_prefix. split.
  - intros [k Hk]. exists (take (length p) s), (drop (length p) s).
    split; [by rewrite take_drop |].
    assert (Hl : take (length p) (List.map f s) = List.map f p).
    { rewrite Hk. rewrite <- (length_map f p) at 1.
      by rewrite take_app_length. }
    rewrite <- Hl. clear. revert s.
    induction (length p) as [|n IH]; intros [|y s]; simpl; try done.
    by rewrite IH.
  - intros (p' & rest & -> & H). rewrite List.map_app, H. by eexists.
Qed.

Lemma includes_map (f : code_unit -> code_unit) (s p : jsstring) :
  includes (List.map f s) (List.map f p) = true <->
  exists before p' after,
    s = before ++ p' ++ after /\ List.map f p' = List.map f p.
Proof.
  induction s as [|y s IH].
  - simpl. rewrite orb_false_r. change [] with (List.map f []) at 1.
    rewrite startsWith_map. split.
    + intros (p' & rest & H & E). by exists [], p', rest.
    + intros (b & p' & a & H & E). symmetry in H.
      apply app_eq_nil in H as [-> H]. exists p', a. done.
  - cbn [List.map includes]. rewrite orb_true_iff, IH.
    change (f y :: List.map f s) with (List.map f (y :: s)).
    rewrite startsWith_map. split.
    + intros [(p' & rest & H & E) | (b & p' & a & H & E)].
      * by exists [], p', rest.
      * exists (y :: b), p', a. by rewrite H.
    + intros (b & p' & a & H & E). destruct b as [|z b].
      * left. by exists p', a.
      * right. simpl in H. injection H as _ H. by exists b, p', a.
Qed.

(** *** Trimming *)

Lemma trimStart_split (s : jsstring) :
  exists ws, s = ws ++ trimStart s /\
    Forall (fun c => is_white_space c = true) ws.
Proof.
  induction s as [|c s (ws & E & F)]; simpl.
  - by exists [].
  - destruct (is_white_space c) eqn:W.
    + exists (c :: ws). split; [by rewrite E at 1 | by constructor].
    + by exists [].
Qed.

Lemma trimStart_head (s : jsstring) (c : code_unit) :
  head (trimStart s) = Some c -> is_white_space c = false.
Proof.
  induction s as [|d s IH]; simpl; [done |].
  destruct (is_white_space d) eqn:W; [done |].
  simpl. by intros [= <-].
Qed.

Lemma trimStart_last (s : jsstring) (c : code_unit) :
  last (trimStart s) = Some c -> last s = Some c.
Proof.
  destruct (trimStart_split s) as (ws & E & _). intros H.
  rewrite E. destruct (trimStart s) as [|d t] eqn:T; [done |].
  by rewrite last_app, H.
Qed.

Lemma trimEnd_split (s : jsstring) :
  exists ws, s = trimEnd s ++ ws /\
    Forall (fun c => is_white_space c = true) ws.
Proof.
  unfold trimEnd. destruct (trimStart_split (reverse s)) as (ws & E & F).
  exists (reverse ws). split.
  - rewrite <- reverse_app, <- E. by rewrite reverse_involutive.
  - by apply Forall_reverse.
Qed.

Lemma trim_split (s : jsstring) :
  exists before after, s = before ++ trim s ++ after /\
    Forall (fun c => is_white_space c = true) before /\
    Forall (fun c => is_white_space c = true) after.
Proof.
  unfold trim. destruct (trimStart_split s) as (b & E & F).
  destruct (trimEnd_split (trimStart s)) as (a & E' & F').
  exists b, a. by rewrite <- E', <- E.
Qed.

Lemma trim_trimmed (s : jsstring) : Spec.trimmed (trim s).
Proof.
  unfold Spec.trimmed, trim, trimEnd. split; intros c.
  - rewrite head_reverse. intros H. apply trimStart_last in H.
    rewrite last_reverse in H. by apply trimStart_head in H.
  - rewrite last_reverse. apply trimStart_head.
Qed.

(** *** The order of strings *)

Lemma string_ltb_irrefl (a : jsstring) : string_ltb a a = false.
Proof.
  induction a as [|x a IH]; simpl; [done |].
  by rewrite N.ltb_irrefl.
Qed.

Lemma string_ltb_asym (a b : jsstring) :
  string_ltb a b = true -> string_ltb b a = false.
Proof.
  revert b. induction a as [|x a IH]; intros [|y b]; simpl; try done.
  destruct (N.ltb_spec x y), (N.ltb_spec y x); try done; try lia.
  apply IH.
Qed.

(** Not being greater is transitive. *)
Lemma string_le_trans (a b c : jsstring) :
  string_ltb b a = false -> string_ltb c b = false ->
  string_ltb c a = false.
Proof.
  revert b c. induction a as [|x a IH]; intros [|y b] [|z c]; simpl;
    try done.
  destruct (N.ltb_spec y x), (N.ltb_spec x y), (N.ltb_spec z y),
    (N.ltb_spec y z), (N.ltb_spec z x), (N.ltb_spec x z);
    try done; try lia.
  apply IH.
Qed.

Lemma string_ltb_antisym (a b : jsstring) :
  string_ltb a b = false -> string_ltb b a = false -> a = b.
Proof.
  revert b. induction a as [|x a IH]; intros [|y b]; simpl; try done.
  destruct (N.ltb_spec x y), (N.ltb_spec y x); try done.
  intros H1 H2. f_equal; [lia | by apply IH].
Qed.

(** [<] on strings is the lexicographic order. *)
Lemma string_ltb_lex (a b : jsstring) :
  string_ltb a b = true <-> Spec.lex_lt a b.
Proof.
  split.
  - revert b. induction a as [|x a IH]; intros [|y b]; simpl; try done.
    + intros _. constructor.
    + destruct (N.ltb_spec x y); [intros _; by constructor |].
      destruct (N.ltb_spec y x); [done |].
      assert (x = y) as -> by lia. intros Hab.
      apply Spec.lex_lt_later. by apply IH.
  - induction 1 as [y b | x y a b Hxy | x a b _ IH]; simpl; [done | |].
    + by destruct (N.ltb_spec x y); [| lia].
    + by rewrite N.ltb_irrefl.
Qed.

Lemma string_le_lex (a b : jsstring) :
  string_ltb b a = false <-> Spec.lex_le a b.
Proof.
  unfold Spec.lex_le. rewrite <- string_ltb_lex. split.
  - intros Hba. destruct (string_ltb a b) eqn:Hab; [by right | left].
    by apply string_ltb_antisym.
  - intros [-> | Hab]; [apply string_ltb_irrefl | by apply string_ltb_asym].
Qed.

(** *** Sorting *)

Section SortFacts.
Context {A : Type} (compare : A -> A -> Z).

Local Abbreviation not_after := (not_after compare).

Lemma sort_insert_perm (x : A) (l : list A) :
  sort_insert compare x l ≡ₚ x :: l.
Proof.
  induction l as [|y l IH]; simpl; [done |].
  destruct (compare x y <=? 0); [done |].
  rewrite IH. apply Permutation_swap.
Qed.

Lemma sort_perm (l : list A) : sort compare l ≡ₚ l.
Proof.
  induction l as [|x l IH]; simpl; [done |].
  by rewrite sort_insert_perm, IH.
Qed.

Lemma sort_length (l : list A) : length (sort compare l) = length l.
Proof. by rewrite sort_perm. Qed.

Lemma sort_insert_sorted (x : A) (l : list A) :
  (forall y, not_after x y \/ not_after y x) ->
  Sorted not_after l -> Sorted not_after (sort_insert compare x l).
Proof.
  intros Htot. induction 1 as [|y l Hs IH Hd]; simpl.
  - by repeat constructor.
  - destruct (Z.leb_spec (compare x y) 0) as [Hle | Hgt].
    + by repeat constructor.
    + constructor; [done |].
      destruct Hd as [|z l Hyz]; simpl.
      * constructor. destruct (Htot y) as [H | H]; [unfold not_after in H; lia | done].
      * destruct (compare x z <=? 0).
        -- constructor. destruct (Htot y) as [H | H]; [unfold not_after in H; lia | done].
        -- by constructor.
Qed.

Lemma sort_sorted (l : list A) :
  (forall x y, not_after x y \/ not_after y x) ->
  Sorted not_after (sort compare l).
Proof.
  intros Htot. induction l as [|x l IH]; simpl; [constructor |].
  apply sort_insert_sorted; [apply Htot | done].
Qed.

(** An array already in order is left as it is. *)
Lemma sort_sorted_id (l : list A) :
  Sorted not_after l -> sort compare l = l.
Proof.
  induction 1 as [|x l Hs IH Hd]; simpl; [done |].
  rewrite IH. destruct Hd as [|y l Hxy]; simpl; [done |].
  unfold not_after in Hxy.
  by destruct (Z.leb_spec (compare x y) 0); [| lia].
Qed.

End SortFacts.

End JSFacts.

(** ** The case mappings *)

Module CaseFacts.
Import JS CaseTables.

#[local] Arguments upper_point : simpl never.
#[local] Arguments lower_point : simpl never.
#[local] Arguments Cased : simpl never.
#[local] Arguments Case_Ignorable : simpl never.

(** *** The tables *)

Section Tables.
Context (special : list (N * list N)) (ranges : list (N * N * N * N)).

Lemma covers_range_points (cp : N) (entry : N * N * N * N) :
  covers cp entry = true -> In cp (range_points entry).
Proof.
  destruct entry as [[[first last] step] image]. unfold covers, range_points.
  destruct (N.leb_spec first cp) as [Hf |]; [| done].
  destruct (N.leb_spec cp last) as [Hl |]; [| done].
  rewrite N.eqb_eq. intros Hm.
  apply in_map_iff. exists (N.to_nat ((cp - first) / step)). split.
  - rewrite N2Nat.id.
    destruct (N.eq_dec step 0%N) as [-> | Hs].
    + rewrite N.mod_0_r in Hm. rewrite N.mul_0_r. lia.
    + pose proof (N.div_mod (cp - first) step Hs) as Hd.
      rewrite Hm, N.add_0_r, N.mul_comm in Hd. rewrite <- Hd. lia.
  - apply in_seq. split; [apply Nat.le_0_l |]. simpl.
    assert (Hq : ((cp - first) / step <= (last - first) / step)%N)
      by (apply N.Div0.div_le_mono; lia).
    revert Hq. generalize ((cp - first) / step)%N ((last - first) / step)%N.
    intros q r Hq. lia.
Qed.

Lemma full_case_mapped (cp : N) :
  full_case special ranges cp <> [cp] -> In cp (mapped_points special ranges).
Proof.
  unfold full_case, special_case, simple_case, mapped_points. intros H.
  apply in_or_app.
  destruct (find _ special) as [entry|] eqn:Es.
  - left. apply find_some in Es as [Hin He].
    apply N.eqb_eq in He. subst cp. by apply in_map.
  - right. destruct (find (covers cp) ranges) as [entry|] eqn:Er; [| done].
    apply find_some in Er as [Hin Hc].
    apply in_flat_map. exists entry. split; [done |].
    by apply covers_range_points.
Qed.

(** What holds of every mapped code point holds wherever the mapping is
    not the identity. *)
Lemma mapped_points_forall (ok : N -> bool) (cp : N) :
  forallb ok (mapped_points special ranges) = true ->
  full_case special ranges cp <> [cp] -> ok cp = true.
Proof.
  intros Hall H. rewrite forallb_forall in Hall.
  by apply Hall, full_case_mapped.
Qed.

End Tables.

Lemma upper_table_ok :
  forallb upper_ok (mapped_points upper_special upper_ranges) = true.
Proof. vm_compute. reflexivity. Qed.

Lemma lower_table_ok :
  forallb lower_ok (mapped_points lower_special lower_ranges) = true.
Proof. vm_compute. reflexivity. Qed.

Lemma upper_point_cases (cp : N) :
  upper_point cp = [cp] \/ upper_ok cp = true.
Proof.
  destruct (decide (upper_point cp = [cp])) as [H | H]; [by left | right].
  by apply (mapped_points_forall upper_special upper_ranges upper_ok cp
              upper_table_ok).
Qed.

Lemma lower_point_cases (cp : N) :
  lower_point cp = [cp] \/ lower_ok cp = true.
Proof.
  destruct (decide (lower_point cp = [cp])) as [H | H]; [by left | right].
  by apply (mapped_points_forall lower_special lower_ranges lower_ok cp
              lower_table_ok).
Qed.

(** *** Surrogate pairs *)

Ltac divlia := zify; Z.to_euclidean_division_equations; lia.

Ltac bounds :=
  unfold scalar, is_surrogate, is_leading_surrogate, is_trailing_surrogate
    in *;
  repeat progress
    (rewrite ?andb_true_iff, ?andb_false_iff, ?orb_true_iff, ?orb_false_iff,
       ?negb_true_iff, ?negb_false_iff, ?N.leb_le, ?N.leb_gt, ?N.ltb_lt,
       ?N.ltb_ge in *).

Lemma lead_not_trail (c : code_unit) :
  is_leading_surrogate c = true -> is_trailing_surrogate c = false.
Proof. bounds. lia. Qed.

Lemma encode_pair (c d : code_unit) :
  is_leading_surrogate c = true -> is_trailing_surrogate d = true ->
  UTF16EncodeCodePoint (UTF16SurrogatePairToCodePoint c d) = [c; d].
Proof.
  intros Hc Hd. unfold UTF16EncodeCodePoint, UTF16SurrogatePairToCodePoint.
  bounds.
  destruct (N.leb_spec 0x10000 ((c - 0xD800) * 0x400 + (d - 0xDC00) + 0x10000));
    [| lia].
  destruct (N.leb_spec ((c - 0xD800) * 0x400 + (d - 0xDC00) + 0x10000) 0x10FFFF);
    [| lia].
  simpl. f_equal; [| f_equal]; divlia.
Qed.

Lemma pair_astral (c d : code_unit) :
  is_leading_surrogate c = true -> is_trailing_surrogate d = true ->
  (0x10000 <= UTF16SurrogatePairToCodePoint c d <= 0x10FFFF)%N.
Proof. unfold UTF16SurrogatePairToCodePoint. bounds. lia. Qed.

Lemma encode_astral (cp : N) :
  (0x10000 <= cp <= 0x10FFFF)%N ->
  exists c d, UTF16EncodeCodePoint cp = [c; d] /\
    is_leading_surrogate c = true /\ is_trailing_surrogate d = true /\
    UTF16SurrogatePairToCodePoint c d = cp.
Proof.
  intros H. unfold UTF16EncodeCodePoint.
  destruct (N.leb_spec 0x10000 cp); [| lia].
  destruct (N.leb_spec cp 0x10FFFF); [| lia]. simpl.
  eexists _, _. split; [done |].
  unfold UTF16SurrogatePairToCodePoint. bounds.
  repeat split; divlia.
Qed.

Lemma encode_other (cp : N) :
  ~ (0x10000 <= cp <= 0x10FFFF)%N -> UTF16EncodeCodePoint cp = [cp].
Proof.
  intros H. unfold UTF16EncodeCodePoint.
  destruct (N.leb_spec 0x10000 cp), (N.leb_spec cp 0x10FFFF); simpl;
    try done; lia.
Qed.

(** The code units written for a scalar value: one that is no surrogate,
    or a pair. *)
Lemma encode_scalar (cp : N) :
  scalar cp = true ->
  (UTF16EncodeCodePoint cp = [cp] /\ (cp < 0x10000)%N /\
   is_surrogate cp = false) \/
  (exists c d, UTF16EncodeCodePoint cp = [c; d] /\
     is_leading_surrogate c = true /\ is_trailing_surrogate d = true /\
     UTF16SurrogatePairToCodePoint c d = cp).
Proof.
  intros H. destruct (N.leb_spec 0x10000 cp) as [Hh | Hl].
  - right. apply encode_astral. bounds. lia.
  - left. rewrite encode_other by lia. split; [done |]. split; [done |].
    bounds. lia.
Qed.

(** *** Reading a string chunk by chunk *)

Lemma StringToCodePoints_pair (c d : code_unit) (s : jsstring) :
  is_leading_surrogate c = true -> is_trailing_surrogate d = true ->
  StringToCodePoints (c :: d :: s) =
    UTF16SurrogatePairToCodePoint c d :: StringToCodePoints s.
Proof. intros Hc Hd. cbn [StringToCodePoints]. by rewrite Hc, Hd. Qed.

Lemma StringToCodePoints_single (c : code_unit) (s : jsstring) :
  is_leading_surrogate c && head_is_trail s = false ->
  StringToCodePoints (c :: s) = c :: StringToCodePoints s.
Proof.
  intros H. destruct s as [|d s]; [done |].
  cbn [StringToCodePoints]. simpl in H. by rewrite H.
Qed.

Lemma toUpperCase_pair (c d : code_unit) (s : jsstring) :
  is_leading_surrogate c = true -> is_trailing_surrogate d = true ->
  toUpperCase (c :: d :: s) =
    upper_block (UTF16SurrogatePairToCodePoint c d) ++ toUpperCase s.
Proof.
  intros Hc Hd. unfold toUpperCase, toUppercase, CodePointsToString.
  rewrite StringToCodePoints_pair by done. simpl.
  by rewrite flat_map_app.
Qed.

Lemma toUpperCase_single (c : code_unit) (s : jsstring) :
  is_leading_surrogate c && head_is_trail s = false ->
  toUpperCase (c :: s) = upper_block c ++ toUpperCase s.
Proof.
  intros H. unfold toUpperCase, toUppercase, CodePointsToString.
  rewrite StringToCodePoints_single by done. simpl.
  by rewrite flat_map_app.
Qed.

(** Induction over the chunks of a string: a surrogate pair, or a code
    unit that is not the lead of one. *)
Lemma chunk_ind (P : jsstring -> Prop) :
  P [] ->
  (forall c d s,
     is_leading_surrogate c = true -> is_trailing_surrogate d = true ->
     P s -> P (c :: d :: s)) ->
  (forall c s,
     is_leading_surrogate c && head_is_trail s = false ->
     P s -> P (c :: s)) ->
  forall s, P s.
Proof.
  intros Hnil Hpair Hsingle s.
  assert (H : forall n s, (length s <= n)%nat -> P s).
  { clear s. induction n as [|n IH]; intros [|c s] Hlen; simpl in *;
      try done; try lia.
    destruct (is_leading_surrogate c && head_is_trail s) eqn:E.
    - apply andb_true_iff in E as [Hc Hd].
      destruct s as [|d s]; [done |]. simpl in *.
      apply Hpair; [done | done |]. apply IH. lia.
    - apply Hsingle; [done |]. apply IH. lia. }
  by apply (H (length s)).
Qed.

(** *** The code units written for a code point *)

Lemma trail_not_lead (d : code_unit) :
  is_trailing_surrogate d = true -> is_leading_surrogate d = false.
Proof. bounds. lia. Qed.

Lemma upper_block_fixed (t : N) :
  upper_point t = [t] -> upper_block t = UTF16EncodeCodePoint t.
Proof.
  unfold upper_block, CodePointsToString. intros ->. simpl.
  by rewrite app_nil_r.
Qed.

Lemma upper_ok_inv (x : N) :
  upper_ok x = true ->
  scalar x = true /\ upper_point x <> [] /\
  Forall (fun t => scalar t = true /\ upper_point t = [t]) (upper_point x) /\
  clash (upper_block x) (UTF16EncodeCodePoint x) = true.
Proof.
  unfold upper_ok. rewrite !andb_true_iff, negb_true_iff, forallb_forall.
  intros [[[Hs Hn] Hall] Hc]. repeat split; try done.
  - by apply bool_decide_eq_false in Hn.
  - apply List.Forall_forall. intros t Ht. apply Hall in Ht.
    apply andb_true_iff in Ht as [H1 H2].
    by apply bool_decide_eq_true in H2.
Qed.

(** A code point is written as itself, as the pair it is read from, or as
    the encoding of the scalar values the table maps it to. *)
Lemma upper_block_cases (x : N) :
  (~ (0x10000 <= x <= 0x10FFFF)%N /\ upper_block x = [x]) \/
  (exists c d, upper_block x = [c; d] /\
     is_leading_surrogate c = true /\ is_trailing_surrogate d = true /\
     UTF16SurrogatePairToCodePoint c d = x) \/
  upper_ok x = true.
Proof.
  destruct (upper_point_cases x) as [H | H]; [| by right; right].
  rewrite (upper_block_fixed x H).
  destruct (decide (0x10000 <= x <= 0x10FFFF)%N) as [Ha | Ha].
  - right; left. by apply encode_astral.
  - left. by rewrite encode_other.
Qed.

(** Scalar values that the table maps to themselves are read back as they
    were written. *)
Lemma toUpperCase_scalars (ts : list N) (r : jsstring) :
  Forall (fun t => scalar t = true /\ upper_point t = [t]) ts ->
  toUpperCase (CodePointsToString ts ++ r) =
    CodePointsToString ts ++ toUpperCase r.
Proof.
  induction 1 as [|t ts [Hs Hf] _ IH]; [done |].
  change (CodePointsToString (t :: ts))
    with (UTF16EncodeCodePoint t ++ CodePointsToString ts).
  rewrite <- !app_assoc.
  destruct (encode_scalar t Hs) as [(E & Hlt & Hn) | (c & d & E & Hc & Hd & Hp)];
    rewrite E; simpl.
  - rewrite toUpperCase_single.
    + rewrite (upper_block_fixed t Hf), E. simpl. by rewrite IH.
    + unfold is_surrogate in Hn. apply orb_false_iff in Hn as [-> _]. done.
  - rewrite toUpperCase_pair by done.
    rewrite Hp, (upper_block_fixed t Hf), E. simpl. by rewrite IH.
Qed.

Lemma head_is_trail_scalars (ts : list N) (r : jsstring) :
  ts <> [] -> Forall (fun t => scalar t = true) ts ->
  head_is_trail (CodePointsToString ts ++ r) = false.
Proof.
  intros Hne Hall. destruct Hall as [|t ts Hs _]; [done |].
  change (CodePointsToString (t :: ts))
    with (UTF16EncodeCodePoint t ++ CodePointsToString ts).
  destruct (encode_scalar t Hs) as [(E & Hlt & Hn) | (c & d & E & Hc & Hd & Hp)];
    rewrite E; simpl.
  - unfold is_surrogate in Hn. by apply orb_false_iff in Hn as [_ ->].
  - by apply lead_not_trail.
Qed.

Lemma ends_with_lead_app (a b : jsstring) :
  ends_with_lead (a ++ b) =
    match b with
    | [] => ends_with_lead a
    | _ :: _ => ends_with_lead b
    end.
Proof.
  unfold ends_with_lead. rewrite last_app.
  destruct b as [|y b]; [done |].
  destruct (last (y :: b)) as [z|] eqn:E; [done |].
  by apply last_None in E.
Qed.

Lemma ends_with_lead_scalars (ts : list N) :
  Forall (fun t => scalar t = true) ts ->
  ends_with_lead (CodePointsToString ts) = false.
Proof.
  induction 1 as [|t ts Hs _ IH]; [done |].
  change (CodePointsToString (t :: ts))
    with (UTF16EncodeCodePoint t ++ CodePointsToString ts).
  rewrite ends_with_lead_app.
  destruct (CodePointsToString ts) as [|u us]; [| done].
  destruct (encode_scalar t Hs) as [(E & Hlt & Hn) | (c & d & E & Hc & Hd & Hp)];
    rewrite E; unfold ends_with_lead; simpl.
  - unfold is_surrogate in Hn. by apply orb_false_iff in Hn as [-> _].
  - by apply trail_not_lead.
Qed.

Lemma units_scalars (ts : list N) :
  Forall (fun t => scalar t = true) ts ->
  Forall (fun u => (u < 0x10000)%N) (CodePointsToString ts).
Proof.
  induction 1 as [|t ts Hs _ IH]; [constructor |].
  change (CodePointsToString (t :: ts))
    with (UTF16EncodeCodePoint t ++ CodePointsToString ts).
  apply Forall_app. split; [| done].
  destruct (encode_scalar t Hs) as [(E & Hlt & Hn) | (c & d & E & Hc & Hd & Hp)];
    rewrite E.
  - by repeat constructor.
  - repeat constructor; bounds; lia.
Qed.

Lemma Forall_scalar_fixed (ts : list N) :
  Forall (fun t => scalar t = true /\ upper_point t = [t]) ts ->
  Forall (fun t => scalar t = true) ts.
Proof. intros H. eapply Forall_impl; [exact H | simpl; tauto]. Qed.

(** The code units written for a code point are read back as that code
    point's, unless a lone leading surrogate meets a trailing one. *)
Lemma upper_block_settled (x : N) (r : jsstring) :
  ends_with_lead (upper_block x) && head_is_trail r = false ->
  toUpperCase (upper_block x ++ r) = upper_block x ++ toUpperCase r.
Proof.
  intros Hb.
  destruct (upper_block_cases x)
    as [[Ha E] | [(c & d & E & Hc & Hd & Hp) | Hok]].
  - rewrite E in *. simpl. rewrite toUpperCase_single by done.
    by rewrite E.
  - rewrite E at 1. simpl. rewrite toUpperCase_pair by done.
    by rewrite Hp.
  - apply upper_ok_inv in Hok as (_ & _ & Hall & _).
    by apply toUpperCase_scalars.
Qed.

Lemma upper_block_head (x : N) (r : jsstring) :
  head_is_trail (upper_block x ++ r) = true ->
  upper_block x = [x] /\ is_trailing_surrogate x = true.
Proof.
  destruct (upper_block_cases x)
    as [[Ha E] | [(c & d & E & Hc & Hd & Hp) | Hok]].
  - rewrite E. simpl. done.
  - rewrite E. simpl. by rewrite (lead_not_trail c Hc).
  - apply upper_ok_inv in Hok as (_ & Hne & Hall & _).
    unfold upper_block.
    by rewrite head_is_trail_scalars by
      (done || by apply Forall_scalar_fixed).
Qed.

Lemma upper_block_last (x : N) :
  ends_with_lead (upper_block x) = true ->
  upper_block x = [x] /\ is_leading_surrogate x = true.
Proof.
  destruct (upper_block_cases x)
    as [[Ha E] | [(c & d & E & Hc & Hd & Hp) | Hok]].
  - rewrite E. unfold ends_with_lead. simpl. done.
  - rewrite E. unfold ends_with_lead. simpl.
    by rewrite (trail_not_lead d Hd).
  - apply upper_ok_inv in Hok as (_ & Hne & Hall & _).
    unfold upper_block.
    by rewrite ends_with_lead_scalars by (by apply Forall_scalar_fixed).
Qed.

Lemma astral_not_surrogate (x : N) :
  (0x10000 <= x)%N ->
  is_leading_surrogate x = false /\ is_trailing_surrogate x = false.
Proof. bounds. lia. Qed.

(** The upper-case form starts with a trailing surrogate only if the
    string does. *)
Lemma toUpperCase_head (s : jsstring) :
  head_is_trail (toUpperCase s) = true -> head_is_trail s = true.
Proof.
  destruct s as [|c s]; [done |].
  destruct (is_leading_surrogate c && head_is_trail s) eqn:E.
  - apply andb_true_iff in E as [Hc Hd]. destruct s as [|d s]; [done |].
    simpl in Hd. rewrite toUpperCase_pair by done. intros H.
    apply upper_block_head in H as [_ H].
    pose proof (pair_astral c d Hc Hd) as [Hx _].
    apply astral_not_surrogate in Hx as [_ Hx]. congruence.
  - rewrite toUpperCase_single by done. intros H.
    by apply upper_block_head in H as [_ H].
Qed.

(** Upper-casing twice is upper-casing once. *)
Lemma toUpperCase_idempotent (s : jsstring) :
  toUpperCase (toUpperCase s) = toUpperCase s.
Proof.
  induction s as [| c d s Hc Hd IH | c s Hcs IH] using chunk_ind; [done | |].
  - rewrite toUpperCase_pair by done.
    rewrite upper_block_settled; [by rewrite IH |].
    destruct (ends_with_lead _) eqn:E; [| done].
    apply upper_block_last in E as [_ E].
    pose proof (pair_astral c d Hc Hd) as [Hx _].
    apply astral_not_surrogate in Hx as [Hx _]. congruence.
  - rewrite toUpperCase_single by done.
    rewrite upper_block_settled; [by rewrite IH |].
    destruct (ends_with_lead _) eqn:E; [| done].
    apply upper_block_last in E as [_ E]. rewrite E in Hcs. simpl in *.
    destruct (head_is_trail (toUpperCase s)) eqn:Ht; [| done].
    apply toUpperCase_head in Ht. congruence.
Qed.

(** *** Strings in upper-case form *)

Lemma clash_app (a b x y : jsstring) :
  clash a b = true -> a ++ x <> b ++ y.
Proof.
  revert b. induction a as [|u a IH]; intros [|v b]; simpl; try done.
  rewrite orb_true_iff, negb_true_iff, N.eqb_neq.
  intros [H | H] [= E1 E2]; [done | by apply (IH b)].
Qed.

(** A string in upper-case form is made of chunks that are written as
    they are read. *)
Lemma fixed_pair (c d : code_unit) (s t : jsstring) :
  is_leading_surrogate c = true -> is_trailing_surrogate d = true ->
  upper_block (UTF16SurrogatePairToCodePoint c d) ++ t = c :: d :: s ->
  upper_block (UTF16SurrogatePairToCodePoint c d) = [c; d] /\ t = s.
Proof.
  intros Hc Hd E. pose proof (pair_astral c d Hc Hd) as Hx.
  destruct (upper_block_cases (UTF16SurrogatePairToCodePoint c d))
    as [[Ha _] | [(c' & d' & E' & _) | Hok]]; [done | |].
  - rewrite E' in *. by injection E as -> -> ->.
  - apply upper_ok_inv in Hok as (_ & _ & _ & Hcl).
    rewrite (encode_pair c d Hc Hd) in Hcl.
    by apply (clash_app _ _ t s) in Hcl.
Qed.

Lemma fixed_single (c : code_unit) (s t : jsstring) :
  upper_block c ++ t = c :: s -> upper_block c = [c] /\ t = s.
Proof.
  intros E.
  destruct (upper_block_cases c)
    as [[Ha E'] | [(c' & d' & E' & Hc & Hd & Hp) | Hok]].
  - rewrite E' in *. by injection E as ->.
  - rewrite E' in E. injection E as -> _.
    pose proof (pair_astral c d' Hc Hd) as [Hx _]. rewrite Hp in Hx.
    apply astral_not_surrogate in Hx as [Hx _]. congruence.
  - apply upper_ok_inv in Hok as (Hs & Hne & Hall & Hcl).
    destruct (N.ltb_spec c 0x10000) as [Hlt | Hge].
    + rewrite encode_other in Hcl by lia.
      by apply (clash_app _ _ t s) in Hcl.
    + pose proof (units_scalars _ (Forall_scalar_fixed _ Hall)) as Hu.
      fold (upper_block c) in Hu.
      destruct (upper_block c) as [|u us] eqn:Eb.
      * unfold upper_block in Eb.
        destruct (upper_point c) as [|t0 ts]; [done |].
        apply Forall_cons in Hall as [[Ht0 _] _].
        change (CodePointsToString (t0 :: ts))
          with (UTF16EncodeCodePoint t0 ++ CodePointsToString ts) in Eb.
        destruct (encode_scalar t0 Ht0) as [(E0 & _) | (? & ? & E0 & _)];
          by rewrite E0 in Eb.
      * injection E as -> _. apply Forall_cons in Hu as [Hu _]. lia.
Qed.

Lemma upper_block_surrogate (c : code_unit) :
  is_surrogate c = true -> upper_block c = [c].
Proof.
  intros Hc.
  destruct (upper_block_cases c)
    as [[Ha E] | [(c' & d' & E & Hc' & Hd' & Hp) | Hok]]; [done | |].
  - pose proof (pair_astral c' d' Hc' Hd') as [Hx _]. rewrite Hp in Hx.
    apply astral_not_surrogate in Hx as [H1 H2].
    unfold is_surrogate in Hc. by rewrite H1, H2 in Hc.
  - apply upper_ok_inv in Hok as (Hs & _). unfold scalar in Hs.
    rewrite Hc in Hs. by rewrite andb_false_r in Hs.
Qed.

(** Every part of a string in upper-case form is in upper-case form. *)
Lemma toUpperCase_fixed_part (s : jsstring) :
  toUpperCase s = s ->
  forall before p after, s = before ++ p ++ after -> toUpperCase p = p.
Proof.
  induction s as [| c d s Hc Hd IH | c s Hcs IH] using chunk_ind.
  - intros _ before p after E. symmetry in E.
    apply app_eq_nil in E as [_ E]. by apply app_eq_nil in E as [-> _].
  - rewrite toUpperCase_pair by done. intros E.
    apply fixed_pair in E as [Eb Es]; [| done | done].
    specialize (IH Es). intros before p after E.
    destruct before as [|b1 before].
    + destruct p as [|p1 p]; [done |]. simpl in E. injection E as -> E.
      destruct p as [|p2 p].
      * rewrite toUpperCase_single by (simpl; apply andb_false_r).
        rewrite upper_block_surrogate; [done |].
        unfold is_surrogate. by rewrite Hc.
      * simpl in E. injection E as -> E.
        rewrite toUpperCase_pair by done.
        by rewrite Eb, (IH [] p after E).
    + simpl in E. injection E as -> E.
      destruct before as [|b2 before].
      * destruct p as [|p1 p]; [done |]. simpl in E. injection E as -> E.
        rewrite toUpperCase_single
          by (by rewrite (trail_not_lead p1 Hd)).
        rewrite upper_block_surrogate, (IH [] p after E); [done |].
        unfold is_surrogate. rewrite Hd. apply orb_true_r.
      * simpl in E. injection E as -> E. by apply (IH before p after).
  - rewrite toUpperCase_single by done. intros E.
    apply fixed_single in E as [Eb Es].
    specialize (IH Es). intros before p after E.
    destruct before as [|b1 before].
    + destruct p as [|p1 p]; [done |]. simpl in E. injection E as -> E.
      rewrite toUpperCase_single.
      * by rewrite Eb, (IH [] p after E).
      * destruct p as [|p2 p]; [apply andb_false_r |].
        rewrite E in Hcs. done.
    + simpl in E. injection E as -> E. by apply (IH before p after).
Qed.

(** *** Plain text in lower case *)

#[local] Arguments lower_form : simpl never.
#[local] Arguments lower_block : simpl never.

Lemma lower_ok_inv (x : N) :
  lower_ok x = true ->
  scalar x = true /\
  (x = 0x0130%N \/
   exists t, lower_point x = [t] /\ scalar t = true /\
     ((x < 0x10000)%N <-> (t < 0x10000)%N)).
Proof.
  unfold lower_ok. rewrite andb_true_iff, orb_true_iff, N.eqb_eq.
  intros [Hs [H | H]]; (split; [done |]); [by left | right].
  destruct (lower_point x) as [|t [|t' ts]]; try done.
  apply andb_true_iff in H as [Ht He]. exists t. split; [done |].
  split; [done |]. apply eqb_prop in He. rewrite <- !N.ltb_lt.
  by rewrite He.
Qed.

Lemma lower_block_fixed (t : N) :
  lower_point t = [t] -> lower_block t = UTF16EncodeCodePoint t.
Proof.
  unfold lower_block, CodePointsToString. intros ->. simpl.
  by rewrite app_nil_r.
Qed.

(** A code unit that is no surrogate and a surrogate pair are written as
    one of their kind; a lone surrogate is kept. *)
Lemma lower_block_single (c : code_unit) :
  (c < 0x10000)%N -> is_surrogate c = false -> c <> 0x0130%N ->
  exists u, lower_block c = [u] /\ (u < 0x10000)%N /\ is_surrogate u = false.
Proof.
  intros Hlt Hs Hi. destruct (lower_point_cases c) as [H | H].
  - exists c. by rewrite (lower_block_fixed c H), encode_other by lia.
  - apply lower_ok_inv in H as [_ [H | (t & E & Ht & Hp)]]; [done |].
    exists t. unfold lower_block, CodePointsToString. rewrite E. simpl.
    apply Hp in Hlt. rewrite encode_other by lia.
    split; [done |]. split; [done |].
    unfold scalar in Ht. apply andb_true_iff in Ht as [_ Ht].
    by apply negb_true_iff in Ht.
Qed.

Lemma lower_block_pair (c d : code_unit) :
  is_leading_surrogate c = true -> is_trailing_surrogate d = true ->
  exists c' d', lower_block (UTF16SurrogatePairToCodePoint c d) = [c'; d'] /\
    is_leading_surrogate c' = true /\ is_trailing_surrogate d' = true.
Proof.
  intros Hc Hd. pose proof (pair_astral c d Hc Hd) as Hx.
  destruct (lower_point_cases (UTF16SurrogatePairToCodePoint c d))
    as [H | H].
  - exists c, d. by rewrite (lower_block_fixed _ H), encode_pair.
  - apply lower_ok_inv in H as [_ [H | (t & E & Ht & Hp)]]; [lia |].
    assert (Ha : (0x10000 <= t <= 0x10FFFF)%N).
    { split; [lia |]. unfold scalar in Ht.
      apply andb_true_iff in Ht as [Ht _]. by apply N.leb_le in Ht. }
    destruct (encode_astral t Ha) as (c' & d' & E' & Hc' & Hd' & _).
    exists c', d'. unfold lower_block, CodePointsToString. rewrite E. simpl.
    by rewrite E'.
Qed.

Lemma lower_block_surrogate (c : code_unit) :
  is_surrogate c = true -> lower_block c = [c].
Proof.
  intros Hc. destruct (lower_point_cases c) as [H | H].
  - rewrite (lower_block_fixed c H). apply encode_other.
    revert Hc. bounds. lia.
  - apply lower_ok_inv in H as [Hs _]. unfold scalar in Hs.
    rewrite Hc in Hs. by rewrite andb_false_r in Hs.
Qed.

Lemma lower_form_pair (c d : code_unit) (s : jsstring) :
  is_leading_surrogate c = true -> is_trailing_surrogate d = true ->
  lower_form (c :: d :: s) =
    lower_block (UTF16SurrogatePairToCodePoint c d) ++ lower_form s.
Proof.
  intros Hc Hd. unfold lower_form, CodePointsToString.
  rewrite StringToCodePoints_pair by done. simpl.
  by rewrite flat_map_app.
Qed.

Lemma lower_form_single (c : code_unit) (s : jsstring) :
  is_leading_surrogate c && head_is_trail s = false ->
  lower_form (c :: s) = lower_block c ++ lower_form s.
Proof.
  intros H. unfold lower_form, CodePointsToString.
  rewrite StringToCodePoints_single by done. simpl.
  by rewrite flat_map_app.
Qed.

(** Without a capital sigma no letter depends on those around it. *)
Lemma toLowercase_no_sigma (before text : list N) :
  forallb (fun cp => negb (cp =? 0x03A3)%N) text = true ->
  toLowercase before text = flat_map lower_point text.
Proof.
  revert before. induction text as [|cp text IH]; intros before; [done |].
  simpl forallb. rewrite andb_true_iff, negb_true_iff. intros [Hc Hs].
  cbn [toLowercase flat_map]. by rewrite IH, Hc.
Qed.

Lemma StringToCodePoints_no_sigma (s : jsstring) :
  forallb Spec.plain_unit s = true ->
  forallb (fun cp => negb (cp =? 0x03A3)%N) (StringToCodePoints s) = true.
Proof.
  induction s as [| c d s Hc Hd IH | c s Hcs IH] using chunk_ind; [done | |].
  - intros H. apply andb_true_iff in H as [_ H].
    apply andb_true_iff in H as [_ Hs].
    rewrite StringToCodePoints_pair by done.
    cbn [forallb]. rewrite IH by done.
    pose proof (pair_astral c d Hc Hd) as [Hx _].
    destruct (N.eqb_spec (UTF16SurrogatePairToCodePoint c d) 0x03A3);
      [lia | done].
  - intros H. apply andb_true_iff in H as [Hp Hs].
    rewrite StringToCodePoints_single by done.
    cbn [forallb]. rewrite IH by done. unfold Spec.plain_unit in Hp.
    apply andb_true_iff in Hp as [-> _]. done.
Qed.

Lemma toLowerCase_lower_form (s : jsstring) :
  forallb Spec.plain_unit s = true -> toLowerCase s = lower_form s.
Proof.
  intros H. unfold toLowerCase, lower_form.
  by rewrite toLowercase_no_sigma by (by apply StringToCodePoints_no_sigma).
Qed.

(** Well-formed strings, chunk by chunk. *)
Lemma well_formed_pair (c d : code_unit) (s : jsstring) :
  is_leading_surrogate c = true ->
  Spec.well_formed (c :: d :: s) =
    is_trailing_surrogate d && Spec.well_formed s.
Proof. intros Hc. cbn [Spec.well_formed]. by rewrite Hc. Qed.

Lemma well_formed_lead (c : code_unit) (s : jsstring) :
  is_leading_surrogate c = true ->
  Spec.well_formed (c :: s) =
    match s with
    | d :: s' => is_trailing_surrogate d && Spec.well_formed s'
    | [] => false
    end.
Proof. intros Hc. cbn [Spec.well_formed]. by rewrite Hc. Qed.

Lemma well_formed_single (c : code_unit) (s : jsstring) :
  is_leading_surrogate c = false ->
  Spec.well_formed (c :: s) =
    negb (is_trailing_surrogate c) && (c <? 0x10000)%N && Spec.well_formed s.
Proof. intros Hc. cbn [Spec.well_formed]. by rewrite Hc. Qed.

Lemma well_formed_ind (P : jsstring -> Prop) :
  P [] ->
  (forall c d s,
     is_leading_surrogate c = true -> is_trailing_surrogate d = true ->
     Spec.well_formed s = true -> P s -> P (c :: d :: s)) ->
  (forall c s,
     is_surrogate c = false -> (c < 0x10000)%N ->
     Spec.well_formed s = true -> P s -> P (c :: s)) ->
  forall s, Spec.well_formed s = true -> P s.
Proof.
  intros Hnil Hpair Hsingle s.
  induction s as [| c d s Hc Hd IH | c s Hcs IH] using chunk_ind; [done | |].
  - rewrite well_formed_pair by done. rewrite Hd. simpl. intros Hs.
    by apply Hpair; [| | | apply IH].
  - destruct (is_leading_surrogate c) eqn:Hc.
    + simpl in Hcs. cbn [Spec.well_formed]. rewrite Hc.
      destruct s as [|d s]; [done |]. simpl in Hcs. by rewrite Hcs.
    + rewrite well_formed_single by done.
      rewrite !andb_true_iff, negb_true_iff, N.ltb_lt. intros [[Ht Hlt] Hs].
      apply Hsingle; [| done | done | by apply IH].
      unfold is_surrogate. by rewrite Hc, Ht.
Qed.

#[local] Arguments Spec.well_formed : simpl never.

Ltac by_chunks s H :=
  revert s H;
  match goal with
  | |- forall s, Spec.well_formed s = true -> @?P s =>
      apply (well_formed_ind P); cbn beta
  end.

Lemma well_formed_single_true (c : code_unit) (s : jsstring) :
  is_surrogate c = false -> (c < 0x10000)%N -> Spec.well_formed s = true ->
  Spec.well_formed (c :: s) = true.
Proof.
  unfold is_surrogate. rewrite orb_false_iff. intros [Hc Ht] Hlt Hs.
  rewrite well_formed_single, Ht, Hs by done.
  by destruct (N.ltb_spec c 0x10000); [| lia].
Qed.

Lemma well_formed_app (x y : jsstring) :
  Spec.well_formed x = true -> Spec.well_formed y = true ->
  Spec.well_formed (x ++ y) = true.
Proof.
  intros Hx Hy.
  by_chunks x Hx;
    [done | intros c d s Hc Hd _ IH | intros c s Hc Hlt _ IH].
  - simpl. rewrite well_formed_pair by done. by rewrite Hd, IH.
  - simpl. by apply well_formed_single_true.
Qed.

Lemma well_formed_app_inv (x y : jsstring) :
  Spec.well_formed x = true -> Spec.well_formed (x ++ y) = true ->
  Spec.well_formed y = true.
Proof.
  intros Hx.
  by_chunks x Hx;
    [done | intros c d s Hc Hd _ IH | intros c s Hc Hlt _ IH].
  - simpl. rewrite well_formed_pair by done. rewrite Hd. apply IH.
  - simpl. unfold is_surrogate in Hc. apply orb_false_iff in Hc as [Hc Ht].
    rewrite well_formed_single by done. rewrite !andb_true_iff.
    intros [_ H]. by apply IH.
Qed.

(** A well-formed string is cut between two chunks wherever what follows
    does not start with a trailing surrogate. *)
Lemma well_formed_split (x y : jsstring) :
  Spec.well_formed (x ++ y) = true -> head_is_trail y = false ->
  Spec.well_formed x = true /\ Spec.well_formed y = true.
Proof.
  intros H Hy. revert H.
  induction x as [| c d s Hc Hd IH | c s Hcs IH] using chunk_ind; [done | |].
  - simpl. rewrite !well_formed_pair by done. rewrite Hd. simpl. apply IH.
  - simpl. destruct (is_leading_surrogate c) eqn:Hc.
    + simpl in Hcs. rewrite well_formed_lead by done.
      destruct s as [|d s]; simpl.
      * destruct y as [|d y]; [done |]. simpl in Hy. by rewrite Hy.
      * simpl in Hcs. by rewrite Hcs.
    + rewrite !well_formed_single by done. rewrite !andb_true_iff.
      intros [H1 H2]. destruct (IH H2) as [Hs Hy']. by rewrite Hs.
Qed.

Lemma well_formed_head (s : jsstring) :
  Spec.well_formed s = true -> head_is_trail s = false.
Proof.
  intros H.
  by_chunks s H;
    [done | intros c d s Hc Hd _ _ | intros c s Hc Hlt _ _]; simpl;
    [by apply lead_not_trail |].
  unfold is_surrogate in Hc. by apply orb_false_iff in Hc as [_ ->].
Qed.

Lemma well_formed_last (s : jsstring) :
  Spec.well_formed s = true -> ends_with_lead s = false.
Proof.
  intros H.
  by_chunks s H;
    [done | intros c d s Hc Hd _ IH | intros c s Hc Hlt _ IH].
  - change (c :: d :: s) with ([c; d] ++ s). rewrite ends_with_lead_app.
    destruct s; [| done]. unfold ends_with_lead. simpl.
    by apply trail_not_lead.
  - change (c :: s) with ([c] ++ s). rewrite ends_with_lead_app.
    destruct s; [| done]. unfold ends_with_lead. simpl.
    unfold is_surrogate in Hc. by apply orb_false_iff in Hc as [-> _].
Qed.

(** In a well-formed string a trailing surrogate stands behind a leading
    one. *)
Lemma well_formed_before_trail (p a : jsstring) (d : code_unit) :
  Spec.well_formed (p ++ d :: a) = true -> is_trailing_surrogate d = true ->
  exists p' c, p = p' ++ [c] /\ is_leading_surrogate c = true /\
    Spec.well_formed p' = true.
Proof.
  intros H Hd. revert H.
  induction p as [| c0 d0 s Hc0 Hd0 IH | c0 s Hcs IH] using chunk_ind.
  - simpl. rewrite well_formed_single by (by apply trail_not_lead).
    by rewrite Hd.
  - simpl. rewrite well_formed_pair by done. rewrite Hd0. simpl.
    intros H. destruct (IH H) as (p' & c & -> & Hc & Hp').
    exists (c0 :: d0 :: p'), c. split; [done |]. split; [done |].
    rewrite well_formed_pair by done. by rewrite Hd0.
  - simpl. destruct (is_leading_surrogate c0) eqn:Hc.
    + simpl in Hcs. destruct s as [|d1 s].
      * intros _. by exists [], c0.
      * simpl in Hcs. simpl. rewrite well_formed_pair by done.
        by rewrite Hcs.
    + rewrite well_formed_single by done. rewrite !andb_true_iff.
      intros [[Ht Hlt] H]. destruct (IH H) as (p' & c & -> & Hc' & Hp').
      exists (c0 :: p'), c. split; [done |]. split; [done |].
      rewrite well_formed_single by done. by rewrite Ht, Hlt.
Qed.

(** The lower-case form of plain text, chunk by chunk. *)
Lemma lower_form_app (x y : jsstring) :
  Spec.well_formed x = true ->
  lower_form (x ++ y) = lower_form x ++ lower_form y.
Proof.
  intros Hx.
  by_chunks x Hx;
    [done | intros c d s Hc Hd _ IH | intros c s Hc Hlt _ IH].
  - simpl. rewrite !lower_form_pair by done. by rewrite IH, app_assoc.
  - unfold is_surrogate in Hc. apply orb_false_iff in Hc as [Hc _].
    simpl. rewrite !lower_form_single by (by rewrite Hc).
    by rewrite IH, app_assoc.
Qed.

Lemma plain_unit_not_dotted (c : code_unit) :
  Spec.plain_unit c = true -> c <> 0x0130%N.
Proof.
  unfold Spec.plain_unit. rewrite andb_true_iff, !negb_true_iff, !N.eqb_neq.
  tauto.
Qed.

Lemma lower_form_well_formed (s : jsstring) :
  Spec.well_formed s = true -> forallb Spec.plain_unit s = true ->
  Spec.well_formed (lower_form s) = true /\
  length (lower_form s) = length s.
Proof.
  intros Hs.
  by_chunks s Hs;
    [done | intros c d s Hc Hd _ IH | intros c s Hc Hlt _ IH]; simpl forallb;
    rewrite ?andb_true_iff.
  - intros (_ & _ & Hp). destruct (IH Hp) as [Hw Hl].
    rewrite lower_form_pair by done.
    destruct (lower_block_pair c d Hc Hd) as (c' & d' & -> & Hc' & Hd').
    simpl. rewrite well_formed_pair by done. by rewrite Hd', Hw, Hl.
  - intros [Hu Hp]. destruct (IH Hp) as [Hw Hl].
    unfold is_surrogate in Hc. apply orb_false_iff in Hc as [Hc Ht].
    rewrite lower_form_single by (by rewrite Hc).
    destruct (lower_block_single c Hlt) as (u & -> & Hlu & Hsu).
    { unfold is_surrogate. by rewrite Hc, Ht. }
    { by apply plain_unit_not_dotted. }
    simpl. by rewrite well_formed_single_true, Hl.
Qed.

(** A cut between two chunks of the lower-case form is one of the
    text. *)
Lemma lower_form_split (s x y : jsstring) :
  Spec.well_formed s = true -> forallb Spec.plain_unit s = true ->
  Spec.well_formed x = true -> lower_form s = x ++ y ->
  exists x' y', s = x' ++ y' /\ lower_form x' = x /\ lower_form y' = y /\
    Spec.well_formed x' = true.
Proof.
  intros Hs. revert x.
  by_chunks s Hs;
    [| intros c d s Hc Hd _ IH | intros c s Hc Hlt _ IH]; intros x;
    simpl forallb; rewrite ?andb_true_iff.
  - intros _ _ E. symmetry in E. apply app_eq_nil in E as [-> ->].
    by exists [], [].
  - intros (_ & _ & Hp) Hx. rewrite lower_form_pair by done.
    destruct (lower_block_pair c d Hc Hd) as (c' & d' & Eb & Hc' & Hd').
    rewrite Eb. destruct x as [|u x].
    + simpl. intros <-. exists [], (c :: d :: s).
      rewrite lower_form_pair, Eb by done. done.
    + simpl. intros [= -> E]. rewrite well_formed_lead in Hx by done.
      destruct x as [|v x]; [done |].
      apply andb_true_iff in Hx as [_ Hx].
      simpl in E. injection E as -> E.
      destruct (IH x Hp Hx E) as (x' & y' & -> & <- & <- & Hx').
      exists (c :: d :: x'), y'. rewrite lower_form_pair, Eb by done.
      rewrite well_formed_pair by done. by rewrite Hd, Hx'.
  - intros [Hu Hp] Hx.
    assert (Hc' := Hc). unfold is_surrogate in Hc'.
    apply orb_false_iff in Hc' as [Hcl Hct].
    rewrite lower_form_single by (by rewrite Hcl).
    destruct (lower_block_single c Hlt Hc (plain_unit_not_dotted c Hu))
      as (u & Eb & Hlu & Hsu).
    rewrite Eb. destruct x as [|v x].
    + simpl. intros <-. exists [], (c :: s).
      rewrite lower_form_single, Eb by (by rewrite Hcl). done.
    + simpl. intros [= -> E].
      unfold is_surrogate in Hsu. apply orb_false_iff in Hsu as [Hul Hut].
      rewrite well_formed_single in Hx by done.
      apply andb_true_iff in Hx as [_ Hx].
      destruct (IH x Hp Hx E) as (x' & y' & -> & <- & <- & Hx').
      exists (c :: x'), y'.
      rewrite lower_form_single, Eb by (by rewrite Hcl).
      by rewrite well_formed_single_true.
Qed.

(** On plain text, looking for the lower-case form of the query in the
    lower-case form of a field is looking for the query ignoring case. *)
Lemma includes_ignoring_case_plain (s p : jsstring) :
  Spec.plain s -> Spec.plain p ->
  includes (toLowerCase s) (toLowerCase p) = true <->
  Spec.substring_ignoring_case p s.
Proof.
  intros [Hws Hus] [Hwp Hup].
  rewrite !toLowerCase_lower_form by done.
  rewrite JSFacts.includes_substring.
  unfold Spec.substring, Spec.substring_ignoring_case, Spec.eq_ignoring_case.
  destruct (lower_form_well_formed p Hwp Hup) as [Hwq Hlq].
  destruct (lower_form_well_formed s Hws Hus) as [Hwf _].
  destruct p as [|p1 p].
  { split; [intros _; by exists [], [], s |].
    intros _. by exists [], (lower_form s). }
  assert (Hhq : forall r, head_is_trail (lower_form (p1 :: p) ++ r) = false).
  { intros r. pose proof (well_formed_head _ Hwq) as H.
    destruct (lower_form (p1 :: p)); [done | done]. }
  rewrite (toLowerCase_lower_form (p1 :: p)) by done.
  split.
  - intros (B & A & E).
    rewrite E in Hwf.
    destruct (well_formed_split _ _ Hwf (Hhq A)) as [HB HQA].
    destruct (lower_form_split s B _ Hws Hus HB E)
      as (b & r & -> & <- & Er & Hb).
    rewrite forallb_app, andb_true_iff in Hus. destruct Hus as [Hub Hur].
    pose proof (well_formed_app_inv _ _ Hb Hws) as Hr.
    destruct (lower_form_split r _ A Hr Hur Hwq Er)
      as (p' & a & -> & Ep & <- & Hp').
    exists b, p', a. split; [done |].
    rewrite forallb_app, andb_true_iff in Hur. destruct Hur as [Hup' _].
    by rewrite toLowerCase_lower_form.
  - intros (b & p' & a & -> & E).
    rewrite !forallb_app, !andb_true_iff in Hus.
    destruct Hus as (Hub & Hup' & Hua).
    rewrite (toLowerCase_lower_form p') in E by done.
    assert (Hp1 : head_is_trail p' = false).
    { destruct p' as [|d p']; [done |]. simpl.
      destruct (is_trailing_surrogate d) eqn:Hd; [| done].
      rewrite (lower_form_single d p') in E
        by (by rewrite (trail_not_lead d Hd)).
      rewrite (lower_block_surrogate d) in E
        by (unfold is_surrogate; rewrite Hd; apply orb_true_r).
      pose proof (well_formed_head _ Hwq) as H. rewrite E in H.
      simpl in H. congruence. }
    assert (Hne : p' <> []).
    { intros ->. by rewrite E in Hlq. }
    destruct (well_formed_split b (p' ++ a) Hws) as [Hb Hpa].
    { by destruct p'. }
    assert (Ha1 : head_is_trail a = false).
    { destruct a as [|d a]; [done |]. simpl.
      destruct (is_trailing_surrogate d) eqn:Hd; [| done].
      destruct (well_formed_before_trail p' a d Hpa Hd)
        as (p'' & c & -> & Hc & Hp'').
      rewrite (lower_form_app p'' [c]) in E by done.
      rewrite (lower_form_single c []) in E by apply andb_false_r.
      rewrite (lower_block_surrogate c) in E
        by (unfold is_surrogate; by rewrite Hc).
      pose proof (well_formed_last _ Hwq) as H. rewrite E in H.
      change (lower_form []) with (@nil code_unit) in H.
      rewrite ends_with_lead_app in H. unfold ends_with_lead in H.
      simpl in H. congruence. }
    destruct (well_formed_split p' a Hpa Ha1) as [Hp' Ha].
    exists (lower_form b), (lower_form a).
    by rewrite !lower_form_app, E.
Qed.

End CaseFacts.

(** ** The parser *)

Module ParserFacts.
Import JS Page.

Lemma string_column_cell (row : value) (k : jsstring) :
  string_column row k = true ->
  exists s, Spec.cell row k = Some s /\ as_string (get row k) = s.
Proof.
  unfold string_column, Spec.cell. destruct row as [| | | | |props]; try done.
  simpl. destruct (props !! k) as [[]|]; simpl; rewrite ?andb_false_r;
    try done.
  intros _. by eexists.
Qed.

Lemma cell_none_string_column (row : value) (k : jsstring) :
  Spec.cell row k = None -> string_column row k = false.
Proof.
  intros H. destruct (string_column row k) eqn:E; [| done].
  apply string_column_cell in E as (s & E & _). congruence.
Qed.

Lemma row_guard_columns (row : value) :
  row_guard row = true ->
  Forall (fun k => string_column row k = true) Spec.required_columns.
Proof.
  unfold row_guard. rewrite !andb_true_iff.
  intros [[[[[[[[[_ ?] ?] ?] ?] ?] ?] ?] ?] ?].
  by repeat constructor.
Qed.

Lemma row_guard_missing (row : value) (k : jsstring) :
  k ∈ Spec.required_columns -> Spec.cell row k = None ->
  row_guard row = false.
Proof.
  intros Hk Hc. destruct (row_guard row) eqn:G; [| done].
  apply row_guard_columns in G. rewrite Forall_forall in G.
  specialize (G k Hk). by rewrite (cell_none_string_column row k) in G.
Qed.

(** What a pushed record is made of. *)
Lemma parse_row_some (y : Z) (row : value) (c : Course) :
  parse_row y row = Some c ->
  id c <> [] /\ year c = y /\
  key c = id c ++ str "," ++ numberToString y /\
  List.map Some (Spec.text_fields c) =
    List.map (fun k => trim <$> Spec.cell row k) Spec.required_columns.
Proof.
  unfold parse_row. destruct (row_guard row) eqn:G; simpl; [| done].
  unfold string_eqb. case_bool_decide as Hid; [done |].
  intros [= <-]. simpl. repeat split; try done.
  apply row_guard_columns in G. unfold Spec.required_columns in *.
  repeat match goal with
  | H : Forall _ (_ :: _) |- _ =>
      let s := fresh "s" in let E := fresh "E" in let E' := fresh "E'" in
      apply Forall_cons in H as [(s & E & E')%string_column_cell H];
      rewrite E, E'
  end.
  done.
Qed.

Lemma parse_row_trimmed (y : Z) (row : value) (c : Course) :
  parse_row y row = Some c -> Forall Spec.trimmed (Spec.text_fields c).
Proof.
  unfold parse_row. destruct (row_guard row); simpl; [| done].
  destruct (string_eqb _ _); [done |]. intros [= <-].
  unfold Spec.text_fields; simpl.
  repeat constructor; apply JSFacts.trim_trimmed.
Qed.

Lemma omap_length_le {A B : Type} (f : A -> option B) (l : list A) :
  (length (omap f l) <= length l)%nat.
Proof.
  induction l as [|x l IH]; csimpl; [done |].
  destruct (f x); simpl; lia.
Qed.

(** C5. Wholesale failure: the parser returns [undefined], and with it no
    record at all, exactly when the decoder reports at least one error;
    otherwise it returns a sequence of records, made of the decoded rows
    alone. *)
Theorem parseCoursesCsv_fails_iff_errors
    (parse : jsstring -> ParseResult) (csv : jsstring) (y : Z) :
  (parseCoursesCsv parse csv y = None <-> errors (parse csv) <> []) /\
  (errors (parse csv) = [] <->
   parseCoursesCsv parse csv y = Some (omap (parse_row y) (data (parse csv)))).
Proof.
  unfold parseCoursesCsv. destruct (errors (parse csv)) as [|e es]; simpl.
  - repeat split; intros; congruence.
  - repeat split; intros; congruence.
Qed.

(** C4. Row postconditions: when the parse succeeds on [N] decoded rows, at
    most [N] records come back, in the order of their rows; each has a
    non-empty identifier, the caller's year, the sort key
    [identifier + "," + year], and every text field is the trimmed cell of
    its row, free of white space at both ends; a row that lacks a string in
    a required column (the row is no object, the column is missing, or the
    cell is not a string) is skipped, and so is a row whose identifier
    trims to the empty string. *)
Theorem parseCoursesCsv_rows
    (parse : jsstring -> ParseResult) (csv : jsstring) (y : Z)
    (cs : list Course) :
  parseCoursesCsv parse csv y = Some cs ->
  let rows := data (parse csv) in
  (length cs <= length rows)%nat /\
  cs = omap (parse_row y) rows /\
  Forall (fun c =>
    id c <> [] /\ year c = y /\
    key c = id c ++ str "," ++ numberToString y /\
    Forall Spec.trimmed (Spec.text_fields c) /\
    exists row, row ∈ rows /\
      List.map Some (Spec.text_fields c) =
        List.map (fun k => trim <$> Spec.cell row k) Spec.required_columns)
    cs /\
  (forall row k, k ∈ Spec.required_columns -> Spec.cell row k = None ->
     parse_row y row = None) /\
  (forall row s, Spec.cell row col_id = Some s -> trim s = [] ->
     parse_row y row = None).
Proof.
  unfold parseCoursesCsv. destruct (errors (parse csv)); simpl; [| done].
  intros [= <-]. repeat split.
  - apply omap_length_le.
  - rewrite Forall_forall. intros c Hc.
    apply list_elem_of_omap in Hc as (row & Hrow & Hc).
    pose proof (parse_row_some _ _ _ Hc) as (? & ? & ? & ?).
    pose proof (parse_row_trimmed _ _ _ Hc).
    repeat split; try done. by exists row.
  - intros row k Hk Hc. unfold parse_row.
    by rewrite (row_guard_missing row k Hk Hc).
  - intros row s Hc Ht. unfold parse_row.
    destruct (row_guard row) eqn:G; simpl; [| done].
    assert (as_string (get row col_id) = s) as ->.
    { unfold Spec.cell in Hc. destruct row as [| | | | |props]; try done.
      simpl. by destruct (props !! col_id) as [[]|]; simplify_eq. }
    rewrite Ht. unfold string_eqb. by case_bool_decide.
Qed.

Lemma parseCoursesCsv_rows_witness :
  parseCoursesCsv Samples.sample_parse [] 2023 =
    Some (Samples.sample_courses 2023) /\
  (length (Samples.sample_courses 2023) <= length Samples.sample_rows)%nat.
Proof.
  assert (H : parseCoursesCsv Samples.sample_parse [] 2023 =
              Some (Samples.sample_courses 2023)) by (vm_compute; reflexivity).
  split; [exact H |].
  exact (proj1 (parseCoursesCsv_rows Samples.sample_parse [] 2023 _ H)).
Defined.

End ParserFacts.

(** ** The record store *)

Module LoaderFacts.
Import JS Page.

Lemma courseCompare_not_after (a b : Course) :
  not_after courseCompare a b <-> Spec.key_le a b.
Proof.
  unfold Spec.key_le. rewrite <- JSFacts.string_le_lex.
  unfold not_after, courseCompare.
  destruct (string_ltb (key a) (key b)) eqn:Hab.
  - apply JSFacts.string_ltb_asym in Hab. rewrite Hab. split; [done | lia].
  - destruct (string_ltb (key b) (key a)); split; (done || lia).
Qed.

Lemma courseCompare_total (a b : Course) :
  not_after courseCompare a b \/ not_after courseCompare b a.
Proof.
  rewrite !courseCompare_not_after. unfold Spec.key_le.
  rewrite <- !JSFacts.string_le_lex.
  destruct (string_ltb (key b) (key a)) eqn:Hba; [| by left].
  right. by apply JSFacts.string_ltb_asym.
Qed.

Lemma key_le_trans (a b c : Course) :
  Spec.key_le a b -> Spec.key_le b c -> Spec.key_le a c.
Proof.
  unfold Spec.key_le. rewrite <- !JSFacts.string_le_lex.
  apply JSFacts.string_le_trans.
Qed.

Lemma Sorted_weaken {A : Type} (R S : A -> A -> Prop) (l : list A) :
  (forall a b, R a b -> S a b) -> Sorted R l -> Sorted S l.
Proof.
  intros HRS. induction 1 as [|x l _ IH Hd]; constructor; [done |].
  destruct Hd; constructor. by apply HRS.
Qed.

Lemma Sorted_not_after_key_le (l : list Course) :
  Sorted (not_after courseCompare) l <-> Sorted Spec.key_le l.
Proof.
  split; apply Sorted_weaken; intros a b; apply courseCompare_not_after.
Qed.

Lemma load_loop_all (parse : jsstring -> ParseResult)
    (sources : list (jsstring * Z)) (parsed : list (list Course))
    (courses : list Course) :
  Forall2 (fun src cs => parseCoursesCsv parse (fst src) (snd src) = Some cs)
    sources parsed ->
  load_loop parse sources courses = Some (courses ++ concat parsed).
Proof.
  intros H. revert courses.
  induction H as [|[csv y] cs sources parsed Hp _ IH]; intros courses; simpl.
  - by rewrite app_nil_r.
  - simpl in Hp. rewrite Hp. simpl. by rewrite IH, app_assoc.
Qed.

(** A source that fails to parse stops the load at the assertion. *)
Lemma load_loop_failure (parse : jsstring -> ParseResult)
    (sources : list (jsstring * Z)) (courses : list Course) :
  Exists (fun src => parseCoursesCsv parse (fst src) (snd src) = None)
    sources ->
  load_loop parse sources courses = None.
Proof.
  intros H. revert courses.
  induction H as [[csv y] sources Hp | [csv y] sources _ IH];
    intros courses; simpl.
  - simpl in Hp. by rewrite Hp.
  - destruct (parseCoursesCsv parse csv y); simpl; [apply IH | done].
Qed.

(** C6. Canonical order: when every source parses, the store is the
    concatenation of the per-source records, in the order of the sources,
    sorted by the comparator; it holds the same records, no sort key is
    followed by a smaller one in the lexicographic order of strings (for
    neighbours and for any two positions), and sorting it once more leaves
    it as it is.  The page's own [loadCourses] is this load on its three
    bundled sources. *)
Theorem loadCourses_canonical_order (parse : jsstring -> ParseResult)
    (sources : list (jsstring * Z)) (parsed : list (list Course)) :
  Forall2 (fun src cs => parseCoursesCsv parse (fst src) (snd src) = Some cs)
    sources parsed ->
  exists courses,
    loadCoursesFrom parse sources = Some courses /\
    courses = sort courseCompare (concat parsed) /\
    courses ≡ₚ concat parsed /\
    Sorted Spec.key_le courses /\
    StronglySorted Spec.key_le courses /\
    sort courseCompare courses = courses /\
    (forall a b c,
       loadCourses parse a b c =
       loadCoursesFrom parse [(a, 2023); (b, 2024); (c, 2025)]).
Proof.
  intros H. exists (sort courseCompare (concat parsed)).
  assert (Hs : Sorted (not_after courseCompare)
                 (sort courseCompare (concat parsed)))
    by (apply JSFacts.sort_sorted, courseCompare_total).
  repeat split.
  - unfold loadCoursesFrom. by rewrite (load_loop_all _ _ _ _ H).
  - apply JSFacts.sort_perm.
  - by apply Sorted_not_after_key_le.
  - apply Sorted.Sorted_StronglySorted.
    + intros a b c. apply key_le_trans.
    + by apply Sorted_not_after_key_le.
  - by apply JSFacts.sort_sorted_id.
Qed.

Lemma loadCourses_canonical_order_witness :
  exists courses,
    loadCoursesFrom Samples.sample_parse [([], 2024); ([], 2023)] =
      Some courses /\
    courses =
      sort courseCompare
        (concat [Samples.sample_courses 2024; Samples.sample_courses 2023]).
Proof.
  destruct (loadCourses_canonical_order Samples.sample_parse
              [([], 2024); ([], 2023)]
              [Samples.sample_courses 2024; Samples.sample_courses 2023])
    as (courses & H1 & H2 & _).
  - repeat constructor; vm_compute; reflexivity.
  - by exists courses.
Defined.

End LoaderFacts.

(** ** The filter and its cap *)

Module FilterFacts.
Import JS Page.

(** The loop under a cap of [k], entered with no more than [k] courses
    collected: it stops at the match that would be one too many. *)
Lemma filter_loop_capped (st : State) (k : Z) (courses acc : list Course) :
  ToNumber (maxVisibleCourseCount st) = Num k ->
  Z.of_nat (length acc) <= k ->
  let matching := List.filter (passes st) courses in
  let room := Z.to_nat (k - Z.of_nat (length acc)) in
  filter_loop st courses acc =
    if (room <? length matching)%nat
    then (acc ++ take room matching, true)
    else (acc ++ matching, false).
Proof.
  intros Hcap. revert acc.
  induction courses as [|c courses IH]; intros acc Hacc; simpl.
  - by rewrite app_nil_r.
  - destruct (passes st c) eqn:Hc; simpl; [| by apply IH].
    rewrite Hcap. simpl. rewrite length_app. simpl.
    destruct (Z.eqb_spec (Z.of_nat (length acc + 1)) (k + 1)) as [E | E].
    + rewrite removelast_last.
      replace (Z.to_nat (k - Z.of_nat (length acc))) with 0%nat by lia.
      simpl. by rewrite app_nil_r.
    + rewrite IH by (rewrite length_app; simpl; lia).
      rewrite length_app. simpl.
      replace (Z.to_nat (k - Z.of_nat (length acc)))
        with (S (Z.to_nat (k - Z.of_nat (length acc + 1)))) by lia.
      simpl. rewrite <- !app_assoc. simpl.
      set (r := Z.to_nat (k - Z.of_nat (length acc + 1))).
      set (n := length (List.filter (passes st) courses)).
      destruct (Nat.ltb_spec r n), (Nat.ltb_spec (S r) (S n)); (done || lia).
Qed.

(** Under a cap that is not a number the comparison never holds. *)
Lemma filter_loop_NaN (st : State) (courses acc : list Course) :
  ToNumber (maxVisibleCourseCount st) = NaN ->
  filter_loop st courses acc = (acc ++ List.filter (passes st) courses, false).
Proof.
  intros Hcap. revert acc.
  induction courses as [|c courses IH]; intros acc; simpl.
  - by rewrite app_nil_r.
  - destruct (passes st c); simpl; [| apply IH].
    rewrite Hcap. simpl. by rewrite IH, <- app_assoc.
Qed.

End FilterFacts.

(** ** The priority ranking *)

Module RankFacts.
Import JS Page.

(** The write-back loop of [sortByKeyCached] copies the sorted values over
    the array, one index after the other. *)
Lemma write_back_prefix {T : Type} (pairs : list (Z * T)) (ts : list T)
    (m : nat) :
  length pairs = length ts -> (m <= length ts)%nat ->
  fold_left
    (fun ts i =>
       match pairs !! i with
       | Some p => <[i := snd p]> ts
       | None => ts
       end)
    (seq 0 m) ts
  = take m (List.map snd pairs) ++ drop m ts.
Proof.
  intros Hlen. induction m as [|m IH]; intros Hm; [done |].
  rewrite seq_S, fold_left_app, IH by lia. simpl.
  destruct (lookup_lt_is_Some_2 pairs m) as [p Hp]; [lia |].
  destruct (lookup_lt_is_Some_2 ts m) as [t Ht]; [lia |].
  rewrite Hp.
  assert (Hv : List.map snd pairs !! m = Some (snd p)).
  { change (List.map snd pairs) with (snd <$> pairs).
    by rewrite list_lookup_fmap, Hp. }
  rewrite (take_S_r _ _ _ Hv), (drop_S _ _ _ Ht).
  rewrite insert_app_r_alt; rewrite length_take, length_map; [| lia].
  replace (m - m `min` length pairs)%nat with 0%nat by lia.
  simpl. by rewrite <- app_assoc.
Qed.

Lemma sortByKeyCached_sorted {T : Type} (ts : list T) (getKey : T -> Z) :
  Util.sortByKeyCached ts getKey =
  List.map snd
    (sort (fun p q => fst p - fst q) (List.map (fun t => (getKey t, t)) ts)).
Proof.
  unfold Util.sortByKeyCached.
  rewrite write_back_prefix.
  - rewrite drop_all, app_nil_r. apply take_ge.
    by rewrite length_map, JSFacts.sort_length, length_map.
  - by rewrite JSFacts.sort_length, length_map.
  - done.
Qed.

(** Sorting by a key that is [-1] for the chosen elements and [0] for the
    others puts the chosen ones first and keeps the order inside both
    groups. *)
Section BinaryKey.
Context {T : Type} (chosen : T -> bool).

Let keyed (t : T) : Z * T := (- Z.b2z (chosen t), t).
Let by_key (p q : Z * T) : Z := fst p - fst q.

Lemma sort_insert_binary (x : T) (l : list T) :
  sort_insert by_key (keyed x)
    (List.map keyed (List.filter chosen l) ++
     List.map keyed (List.filter (fun t => negb (chosen t)) l))
  = List.map keyed (List.filter chosen (x :: l)) ++
    List.map keyed (List.filter (fun t => negb (chosen t)) (x :: l)).
Proof.
  simpl. destruct (chosen x) eqn:Hx; simpl.
  - destruct (List.map keyed (List.filter chosen l) ++ _) as [|[k y] r] eqn:E;
      [done |].
    assert (Hk : k = - Z.b2z (chosen y)).
    { destruct (List.filter chosen l) as [|a f]; simpl in E.
      - destruct (List.filter _ l); simpl in E; [done |]. by injection E as <- <-.
      - by injection E as <- <-. }
    simpl. unfold by_key. simpl. rewrite Hx, Hk.
    by destruct (chosen y).
  - assert (Hall : Forall (fun t => chosen t = true) (List.filter chosen l)).
    { rewrite Forall_forall. intros t Ht.
      apply list_elem_of_In, filter_In in Ht. tauto. }
    induction Hall as [|y f Hy _ IH]; simpl.
    + destruct (List.filter _ l) as [|z g] eqn:E; [done |].
      simpl. unfold by_key. simpl. rewrite Hx.
      assert (Hz : chosen z = false).
      { assert (Hin : In z (List.filter (fun t => negb (chosen t)) l))
          by (rewrite E; by left).
        apply filter_In in Hin as [_ Hin]. by destruct (chosen z). }
      by rewrite Hz.
    + unfold by_key at 1. simpl. rewrite Hx, Hy. simpl. by rewrite IH.
Qed.

Lemma sort_binary (l : list T) :
  sort by_key (List.map keyed l) =
  List.map keyed (List.filter chosen l) ++
  List.map keyed (List.filter (fun t => negb (chosen t)) l).
Proof.
  induction l as [|x l IH]; [done |].
  change (sort_insert by_key (keyed x) (sort by_key (List.map keyed l)) = 
    List.map keyed (List.filter chosen (x :: l)) ++
    List.map keyed (List.filter (fun t => negb (chosen t)) (x :: l))).
  rewrite IH. apply sort_insert_binary.
Qed.

Lemma sortByKeyCached_binary (l : list T) :
  Util.sortByKeyCached l (fun t => - Z.b2z (chosen t)) =
  List.filter chosen l ++ List.filter (fun t => negb (chosen t)) l.
Proof.
  rewrite sortByKeyCached_sorted.
  change (List.map snd (sort by_key (List.map keyed l)) = 
    List.filter chosen l ++ List.filter (fun t => negb (chosen t)) l).
  rewrite sort_binary, List.map_app, !List.map_map. simpl.
  by rewrite !List.map_id.
Qed.

End BinaryKey.

(** What [courseContainsString] computes. *)
Lemma courseContainsString_found (c : Course) (q : jsstring) (d : bool) :
  courseContainsString c q d = true <-> Spec.found_in_lower_case q d c.
Proof.
  unfold courseContainsString, Spec.found_in_lower_case, Spec.searched_fields.
  rewrite !orb_true_iff, andb_true_iff, !JSFacts.includes_substring. split.
  - intros [[[[[[[[H | H] | H] | H] | H] | H] | H] | H] | [-> H]];
      eexists; (split; [| exact H]); set_solver.
  - intros (field & Hin & H). apply elem_of_app in Hin as [Hin | Hin].
    + repeat (apply elem_of_cons in Hin as [-> | Hin]; [tauto |]).
      by apply elem_of_nil in Hin.
    + destruct d; [| by apply elem_of_nil in Hin].
      apply list_elem_of_singleton in Hin as ->. tauto.
Qed.

(** On plain text this is containing the query ignoring case. *)
Lemma courseContainsString_plain (c : Course) (q : jsstring) (d : bool) :
  Spec.plain q -> Forall Spec.plain (Spec.searched_fields d c) ->
  courseContainsString c q d = true <-> Spec.matches_query q d c.
Proof.
  unfold courseContainsString, Spec.matches_query, Spec.searched_fields.
  rewrite Forall_app, !Forall_cons.
  intros Hq ((H1 & H2 & H3 & H4 & H5 & H6 & H7 & H8 & _) & Hd).
  rewrite !orb_true_iff, andb_true_iff.
  rewrite !CaseFacts.includes_ignoring_case_plain by done.
  destruct d.
  - apply Forall_cons in Hd as [Hd _].
    rewrite CaseFacts.includes_ignoring_case_plain by done. tauto.
  - intuition congruence.
Qed.

Lemma count_loop_prefix (st : State) (front back : list Course) (n : Z) :
  Forall (fun c => courseContainsString c (priorityString st)
                     (showDescription st) = true) front ->
  Forall (fun c => courseContainsString c (priorityString st)
                     (showDescription st) = false) back ->
  count_loop st (front ++ back) n = n + Z.of_nat (length front).
Proof.
  intros Hf Hb. revert n. induction Hf as [|c front Hc _ IH]; intros n.
  - destruct Hb as [|c back Hc _]; simpl; [lia |]. rewrite Hc. lia.
  - simpl. rewrite Hc, IH. lia.
Qed.

(** C2, amended.  Stable partition: with a non-empty query the ranking
    returns the records that contain the query, in their input order,
    followed by the records that do not, in their input order, and the
    count of the former.  A record contains the query when the lower-case
    form of the query occurs in the lower-case form of its identifier,
    title, credit value, term, schedule, expected year, remark or
    organizer, or of its description when the description is to be
    searched; for a plain query and plain fields, that is when the query
    is a substring, ignoring case, of one of these fields. *)
Theorem prioritize_stable_partition (st : State) (results : list Course) :
  priorityString st <> [] ->
  let contains c :=
    courseContainsString c (priorityString st) (showDescription st) in
  prioritize st results =
    (List.filter contains results ++
     List.filter (fun c => negb (contains c)) results,
     Some (Z.of_nat (length (List.filter contains results)))) /\
  (forall c, contains c = true <->
     Spec.found_in_lower_case (priorityString st) (showDescription st) c) /\
  (Spec.plain (priorityString st) ->
   forall c,
     Forall Spec.plain (Spec.searched_fields (showDescription st) c) ->
     (contains c = true <->
      Spec.matches_query (priorityString st) (showDescription st) c)).
Proof.
  intros Hq contains. split; [| split].
  - unfold prioritize, string_eqb. case_bool_decide; [done |]. simpl.
    rewrite (sortByKeyCached_binary contains). f_equal. f_equal.
    rewrite count_loop_prefix; [lia | |].
    + rewrite Forall_forall. intros c Hc.
      apply list_elem_of_In, filter_In in Hc. tauto.
    + rewrite Forall_forall. intros c Hc.
      apply list_elem_of_In, filter_In in Hc as [_ Hc].
      fold (contains c). by destruct (contains c).
  - intros c. apply courseContainsString_found.
  - intros Hp c Hc. by apply courseContainsString_plain.
Qed.

(** The example of the specification: of four records the second and the
    fourth match; they come first, and two are counted.  The second holds
    "Logic", which is the query "logic" ignoring case. *)
Lemma prioritize_stable_partition_witness :
  prioritize (Samples.sample_state "logic" (Num 1000)) Samples.four_courses =
    ([Samples.course "Y1" "Logic" 2023; Samples.course "Z1" "LOGIC II" 2024;
      Samples.course "X1" "Algebra" 2023; Samples.course "X1" "Algebra" 2024],
     Some 2) /\
  courseContainsString (Samples.course "Y1" "Logic" 2023) (str "logic") false
    = true.
Proof.
  destruct (prioritize_stable_partition
              (Samples.sample_state "logic" (Num 1000)) Samples.four_courses)
    as (H & _ & Hplain); [vm_compute; discriminate |].
  split; [rewrite H; vm_compute; reflexivity |].
  apply (Hplain (conj eq_refl eq_refl) (Samples.course "Y1" "Logic" 2023)).
  - cbn [Spec.searched_fields app].
    repeat (constructor; [split; vm_compute; reflexivity |]). constructor.
  - right; left. exists [], (str "Logic"), []. split; [done |].
    vm_compute. reflexivity.
Defined.

(** The record named with an alpha and a capital sigma holds the query,
    a capital sigma, as it is written; yet it does not contain it for the
    ranking, which leaves it behind the record that does not match and
    counts nothing: at the end of a word the lower-case form of the sigma
    is the final sigma, and that of the query is not. *)
Lemma prioritize_misses_final_sigma :
  Spec.substring Samples.sigma (name Samples.sigma_course) /\
  Spec.matches_query Samples.sigma false Samples.sigma_course /\
  courseContainsString Samples.sigma_course Samples.sigma false = false /\
  prioritize Samples.sigma_state
    [Samples.course "X1" "Algebra" 2023; Samples.sigma_course] =
    ([Samples.course "X1" "Algebra" 2023; Samples.sigma_course], Some 0).
Proof.
  split; [| split; [| split]].
  - by exists [0x0391%N], [].
  - right; left. by exists [0x0391%N], Samples.sigma, [].
  - vm_compute. reflexivity.
  - vm_compute. reflexivity.
Qed.

Lemma prioritize_no_query (st : State) (results : list Course) :
  priorityString st = [] -> prioritize st results = (results, None).
Proof.
  intros Hq. unfold prioritize, string_eqb. rewrite Hq.
  by case_bool_decide.
Qed.

(** C8. No-op on the empty query: the input comes back as it is and the
    count is [undefined], which is not the count [0]; the view then shows
    the filtered records in their canonical order. *)
Theorem prioritize_empty_query (st : State) (results : list Course) :
  priorityString st = [] ->
  prioritize st results = (results, None) /\
  snd (prioritize st results) <> Some 0 /\
  (forall courses,
     visibleCourses (derived st courses) = fst (filterCourses st courses) /\
     prioritizedCount (derived st courses) = None).
Proof.
  intros Hq.
  pose proof (fun l => prioritize_no_query st l Hq) as H.
  rewrite H. repeat split; try done.
  - unfold derived. destruct (filterCourses st courses) as [v e].
    by rewrite H.
  - unfold derived. destruct (filterCourses st courses) as [v e].
    by rewrite H.
Qed.

Lemma prioritize_empty_query_witness :
  prioritize (Samples.sample_state "" (Num 1000)) Samples.four_courses =
    (Samples.four_courses, None).
Proof.
  exact (proj1 (prioritize_empty_query
                  (Samples.sample_state "" (Num 1000)) Samples.four_courses
                  eq_refl)).
Defined.

End RankFacts.

(** ** The cap on the visible courses *)

Module CapFacts.
Import JS Page.

Lemma filter_partition_perm {T : Type} (f : T -> bool) (l : list T) :
  List.filter f l ++ List.filter (fun t => negb (f t)) l ≡ₚ l.
Proof.
  induction l as [|x l IH]; simpl; [done |].
  destruct (f x); simpl.
  - by rewrite IH.
  - by rewrite <- Permutation_middle, IH.
Qed.

Lemma prioritize_perm (st : State) (l : list Course) :
  fst (prioritize st l) ≡ₚ l.
Proof.
  unfold prioritize. destruct (negb _); simpl; [| done].
  rewrite (RankFacts.sortByKeyCached_binary
             (fun c => courseContainsString c (priorityString st)
                         (showDescription st))).
  apply filter_partition_perm.
Qed.

(** C1. Cap semantics, for a positive integer cap [k]: when at least [k+1]
    records pass the filter, the result is the first [k] of them, in
    canonical order, and truncation is reported; when exactly [k] pass,
    the result is these [k] and no truncation is reported; and the scan
    halts at the [(k+1)]-th passing record, which is left out: whatever
    follows it in the collection, the result is the [k] passing records
    scanned before it. *)
Theorem filterCourses_cap (st : State) (courses : list Course) (k : Z) :
  0 < k ->
  maxVisibleCourseCount st = Num k ->
  let matching := List.filter (passes st) courses in
  (k + 1 <= Z.of_nat (length matching) ->
   filterCourses st courses = (take (Z.to_nat k) matching, true) /\
   Z.of_nat (length (fst (filterCourses st courses))) = k) /\
  (Z.of_nat (length matching) = k ->
   filterCourses st courses = (matching, false)) /\
  (forall scanned c rest,
     Z.of_nat (length (List.filter (passes st) scanned)) = k ->
     passes st c = true ->
     filterCourses st (scanned ++ c :: rest) =
       (List.filter (passes st) scanned, true)).
Proof.
  intros Hk Hcap matching.
  assert (Hloop : forall l,
    filterCourses st l =
      if (Z.to_nat k <? length (List.filter (passes st) l))%nat
      then (take (Z.to_nat k) (List.filter (passes st) l), true)
      else (List.filter (passes st) l, false)).
  { intros l. unfold filterCourses.
    rewrite (FilterFacts.filter_loop_capped st k l [] (f_equal ToNumber Hcap))
      by (simpl; lia).
    simpl. by rewrite Z.sub_0_r. }
  repeat split.
  - rewrite Hloop. fold matching.
    by destruct (Nat.ltb_spec (Z.to_nat k) (length matching)); [| lia].
  - rewrite Hloop. fold matching.
    destruct (Nat.ltb_spec (Z.to_nat k) (length matching)); [| lia].
    simpl. rewrite length_take. lia.
  - intros Hlen. rewrite Hloop. fold matching.
    by destruct (Nat.ltb_spec (Z.to_nat k) (length matching)); [lia |].
  - intros scanned c rest Hlen Hc. rewrite Hloop.
    rewrite List.filter_app. simpl. rewrite Hc.
    rewrite length_app. simpl.
    destruct (Nat.ltb_spec (Z.to_nat k)
                (length (List.filter (passes st) scanned) +
                 S (length (List.filter (passes st) rest)))); [| lia].
    f_equal. rewrite take_app_le by lia. apply take_ge. lia.
Qed.

Lemma filterCourses_cap_witness :
  filterCourses (Samples.sample_state "" (Num 2)) Samples.four_courses =
    (take 2 Samples.four_courses, true).
Proof.
  destruct (filterCourses_cap (Samples.sample_state "" (Num 2))
              Samples.four_courses 2) as [H _]; [lia | reflexivity |].
  destruct H as [H _]; [vm_compute; discriminate |].
  rewrite H. vm_compute. reflexivity.
Defined.

(** C9, amended.  The computation of the view is a total function, so it
    ends without an exception whatever the cap holds.  With [NaN] as the
    cap the comparison with it never holds: every passing record is kept,
    in canonical order, and no truncation is reported; the view shows
    these records (reordered by the ranking when a priority string is
    set).  With [null] as the cap, which is what the page stores while the
    text of the cap input is empty or not a number, [null + 1] is [1] and
    the cap is that of zero: no record is kept, and truncation is reported
    exactly when some record passes. *)
Theorem filterCourses_cap_not_a_number (st : State) (courses : list Course) :
  (maxVisibleCourseCount st = NaN ->
   filterCourses st courses = (List.filter (passes st) courses, false) /\
   maxExceeded (derived st courses) = false /\
   visibleCourses (derived st courses) ≡ₚ List.filter (passes st) courses /\
   (priorityString st = [] ->
    visibleCourses (derived st courses) = List.filter (passes st) courses)) /\
  (maxVisibleCourseCount st = Null ->
   filterCourses st courses =
     ([], bool_decide (List.filter (passes st) courses <> [])) /\
   visibleCourses (derived st courses) = [] /\
   maxExceeded (derived st courses) =
     bool_decide (List.filter (passes st) courses <> [])).
Proof.
  split; intros Hcap.
  - assert (H : filterCourses st courses =
                (List.filter (passes st) courses, false)).
    { unfold filterCourses. rewrite FilterFacts.filter_loop_NaN; [done |].
      by rewrite Hcap. }
    unfold derived. rewrite H.
    pose proof (prioritize_perm st (List.filter (passes st) courses)) as Hp.
    destruct (prioritize st (List.filter (passes st) courses)) as [v n] eqn:E.
    simpl in *. repeat split; try done.
    intros Hq. rewrite RankFacts.prioritize_no_query in E by done.
    congruence.
  - assert (H : filterCourses st courses =
                ([], bool_decide (List.filter (passes st) courses <> []))).
    { unfold filterCourses.
      rewrite (FilterFacts.filter_loop_capped st 0 courses []);
        [| by rewrite Hcap | done].
      simpl. by destruct (List.filter (passes st) courses). }
    unfold derived. rewrite H.
    pose proof (prioritize_perm st []) as Hp.
    destruct (prioritize st []) as [v n]. simpl in *.
    apply Permutation_nil_r in Hp. by subst v.
Qed.

Lemma filterCourses_cap_not_a_number_witness :
  filterCourses (Samples.sample_state "" NaN) Samples.four_courses =
    (Samples.four_courses, false).
Proof.
  destruct (filterCourses_cap_not_a_number (Samples.sample_state "" NaN)
              Samples.four_courses) as [H _].
  destruct (H eq_refl) as [H' _]. rewrite H'. vm_compute. reflexivity.
Defined.

(** While the text of the cap input is not a number the cap is [null]:
    all four records pass, none is shown, and truncation is reported. *)
Lemma filterCourses_cap_null_shows_nothing :
  maxVisibleCourseCount Samples.null_cap_state = Null /\
  List.filter (passes Samples.null_cap_state) Samples.four_courses =
    Samples.four_courses /\
  filterCourses Samples.null_cap_state Samples.four_courses = ([], true) /\
  visibleCourses (derived Samples.null_cap_state Samples.four_courses) = [] /\
  maxExceeded (derived Samples.null_cap_state Samples.four_courses) = true.
Proof.
  split; [reflexivity |]. split; [vm_compute; reflexivity |].
  split; [vm_compute; reflexivity |]. split; vm_compute; reflexivity.
Qed.

End CapFacts.

(** ** The row spans *)

Module SpanFacts.
Import JS Page.

Lemma alter_last_app (f : Z -> Z) (cs ds : list Z) :
  ds <> [] ->
  alter f (Nat.pred (length (cs ++ ds))) (cs ++ ds) =
  cs ++ alter f (Nat.pred (length ds)) ds.
Proof.
  intros Hds. destruct ds as [|d ds]; [done |].
  rewrite alter_app_r_alt; rewrite length_app; simpl; [| lia].
  by replace (Nat.pred (length cs + S (length ds)) - length cs)%nat
    with (length ds) by lia.
Qed.

Lemma alter_last_snoc (f : Z -> Z) (cs : list Z) (n : Z) :
  alter f (Nat.pred (length (cs ++ [n]))) (cs ++ [n]) = cs ++ [f n].
Proof. by rewrite alter_last_app. Qed.

(** One turn of the counting loop: a new counter at [1] for a new id, one
    more on the last counter otherwise. *)
Lemma count_step_new (cs : list Z) (prev : option jsstring) (c : Course) :
  prev <> Some (id c) ->
  count_step (cs, prev) c = (cs ++ [1], Some (id c)).
Proof.
  intros H. unfold count_step. case_bool_decide; [done |]. simpl.
  by rewrite alter_last_snoc.
Qed.

Lemma count_step_same (cs : list Z) (n : Z) (c : Course) :
  count_step (cs ++ [n], Some (id c)) c = (cs ++ [n + 1], Some (id c)).
Proof.
  unfold count_step. case_bool_decide; [| done]. simpl.
  by rewrite alter_last_snoc.
Qed.

Lemma count_step_first (n : Z) (c : Course) :
  count_step ([], None) c = ([1], Some (id c)) /\
  count_step ([n], Some (id c)) c = ([n + 1], Some (id c)).
Proof.
  split.
  - by apply (count_step_new [] None c).
  - apply (count_step_same [] n c).
Qed.

(** A run of one id adds its length to the open counter. *)
Lemma count_run (x : jsstring) (run : list Course) (cs : list Z) (n : Z) :
  Forall (fun c => id c = x) run ->
  fold_left count_step run (cs ++ [n], Some x) =
  (cs ++ [n + Z.of_nat (length run)], Some x).
Proof.
  intros H. revert n. induction H as [|c run Hc _ IH]; intros n.
  - simpl. by rewrite Z.add_0_r.
  - cbn [fold_left]. subst x. rewrite count_step_same, IH.
    do 3 f_equal. simpl length. lia.
Qed.

(** The counters already closed do not change any more. *)
Lemma count_frame (l : list Course) (cs : list Z) (n : Z)
    (prev : option jsstring) :
  fold_left count_step l (cs ++ [n], prev) =
  (cs ++ fst (fold_left count_step l ([n], prev)),
   snd (fold_left count_step l ([n], prev))).
Proof.
  revert cs n prev. induction l as [|c l IH]; intros cs n prev; [done |].
  cbn [fold_left]. destruct (decide (prev = Some (id c))) as [-> | Hne].
  - rewrite count_step_same, (proj2 (count_step_first n c)). apply IH.
  - rewrite count_step_new, (count_step_new [n]) by done.
    rewrite (IH (cs ++ [n])), (IH [n]). simpl. by rewrite <- app_assoc.
Qed.

(** The counters of a sequence that begins with a new id are those it
    gets when counted on its own. *)
Lemma count_fresh (l : list Course) (cs : list Z) (prev : option jsstring) :
  (forall c, head l = Some c -> prev <> Some (id c)) ->
  fst (fold_left count_step l (cs, prev)) =
  cs ++ duplicateCourseIdCounts l.
Proof.
  unfold duplicateCourseIdCounts. destruct l as [|c l]; intros H.
  - simpl. by rewrite app_nil_r.
  - cbn [fold_left]. rewrite count_step_new by (by apply H).
    rewrite (proj1 (count_step_first 0 c)). by rewrite count_frame.
Qed.

(** After the loop [lastCourseId] is the id of the last course, if there
    is one. *)
Lemma count_last (l : list Course) (cs : list Z) (prev : option jsstring) :
  snd (fold_left count_step l (cs, prev)) =
  match last l with
  | Some c => Some (id c)
  | None => prev
  end.
Proof.
  revert cs prev. induction l as [|c l IH]; intros cs prev; [done |].
  cbn [fold_left]. unfold count_step at 2.
  case_bool_decide as E; simpl; rewrite IH, last_cons;
    destruct (last l); congruence.
Qed.

Lemma counts_app (before l : list Course) :
  (forall c d, last before = Some c -> head l = Some d -> id c <> id d) ->
  duplicateCourseIdCounts (before ++ l) =
  duplicateCourseIdCounts before ++ duplicateCourseIdCounts l.
Proof.
  intros H. unfold duplicateCourseIdCounts at 1 2. rewrite fold_left_app.
  destruct (fold_left count_step before ([], None)) as [cs prev] eqn:E.
  simpl. apply count_fresh. intros d Hd.
  pose proof (count_last before [] None) as Hl.
  rewrite E in Hl. simpl in Hl. rewrite Hl.
  destruct (last before) as [c|] eqn:Hc; [| done].
  intros [= Hcd]. by apply (H c d).
Qed.

Lemma counts_run (x : jsstring) (run : list Course) :
  run <> [] -> Forall (fun c => id c = x) run ->
  duplicateCourseIdCounts run = [Z.of_nat (length run)].
Proof.
  intros Hne H. destruct H as [|c run Hc H]; [done |].
  unfold duplicateCourseIdCounts. cbn [fold_left].
  rewrite (proj1 (count_step_first 0 c)), Hc.
  pose proof (count_run x run [] 1 H) as E.
  change ([] ++ [1]) with [1] in E. rewrite E. simpl. f_equal. lia.
Qed.

Lemma total_snoc (cs : list Z) (n : Z) :
  Spec.total (cs ++ [n]) = Spec.total cs + n.
Proof.
  unfold Spec.total. induction cs as [|m cs IH]; simpl; lia.
Qed.

(** What the counting loop keeps true: every counter is at least one, the
    counters add up to the number of courses seen, and a counter is open
    as soon as an id has been seen. *)
Lemma count_invariant (l : list Course) :
  let acc := fold_left count_step l ([], None) in
  Forall (fun n => 1 <= n) (fst acc) /\
  Spec.total (fst acc) = Z.of_nat (length l) /\
  (fst acc = [] -> snd acc = None).
Proof.
  induction l as [|c l IH] using rev_ind; simpl; [done |].
  rewrite fold_left_app. cbn [fold_left].
  destruct (fold_left count_step l ([], None)) as [cs prev].
  simpl in IH. destruct IH as (Hpos & Hsum & Hopen).
  rewrite length_app. simpl length.
  destruct (decide (prev = Some (id c))) as [-> | Hne].
  - destruct cs as [|n cs _] using rev_ind; [by specialize (Hopen eq_refl) |].
    rewrite count_step_same. simpl.
    rewrite Forall_app, Forall_singleton in Hpos. destruct Hpos as [Hpos Hn].
    rewrite total_snoc in *. repeat split.
    + rewrite Forall_app, Forall_singleton. split; [done | lia].
    + lia.
    + intros H. by apply app_eq_nil in H as [_ H].
  - rewrite count_step_new by done. simpl.
    rewrite total_snoc. repeat split.
    + by rewrite Forall_app, Forall_singleton.
    + lia.
    + intros H. by apply app_eq_nil in H as [_ H].
Qed.


Lemma expand_length (cs : list Z) :
  Forall (fun n => 1 <= n) cs ->
  Z.of_nat (length (flat_map expand_count cs)) = Spec.total cs.
Proof.
  unfold Spec.total. induction 1 as [|n cs Hn _ IH]; simpl; [done |].
  rewrite length_app, length_replicate. lia.
Qed.

Lemma rowSpans_length (l : list Course) : length (rowSpans l) = length l.
Proof.
  destruct (count_invariant l) as (Hpos & Hsum & _).
  apply Nat2Z.inj. unfold rowSpans, duplicateCourseIdCounts.
  by rewrite expand_length.
Qed.

(** The spans of a sequence cut around a maximal run. *)
Lemma rowSpans_app_run (before run after : list Course) (x : jsstring) :
  run <> [] ->
  Forall (fun c => id c = x) run ->
  (forall c, last before = Some c -> id c <> x) ->
  (forall c, head after = Some c -> id c <> x) ->
  rowSpans (before ++ run ++ after) =
  rowSpans before ++
  (Z.of_nat (length run) :: replicate (length run - 1) 0) ++
  rowSpans after.
Proof.
  intros Hne Hrun Hb Ha. unfold rowSpans.
  destruct run as [|r run]; [done |].
  rewrite counts_app.
  - rewrite counts_app.
    + rewrite (counts_run x (r :: run)) by done.
      rewrite !flat_map_app. simpl flat_map. rewrite app_nil_r.
      unfold expand_count.
      simpl length.
      by replace (Z.to_nat (Z.of_nat (S (length run)) - 1))
        with (S (length run) - 1)%nat by lia.
    + intros c d Hc Hd Hcd. apply (Ha d Hd). rewrite <- Hcd.
      rewrite Forall_forall in Hrun. apply Hrun.
      by apply last_Some_elem_of.
  - intros c d Hc Hd. simpl in Hd. injection Hd as <-.
    apply Forall_inv in Hrun. rewrite Hrun. by apply Hb.
Qed.

(** C7. Group spans: the spans are as many as the records; around a
    maximal run of records with one identifier (a run that no record with
    that identifier precedes or follows directly) the spans are those of
    the records before, then the length of the run followed by zeros, then
    those of the records after, so that the first position of the run
    holds its length and its other positions hold [0]; runs are a matter of
    adjacency: identifiers A, A, B, A give [2, 0, 1, 1]. *)
Theorem rowSpans_runs (before run after : list Course) (x : jsstring) :
  run <> [] ->
  Forall (fun c => id c = x) run ->
  (forall c, last before = Some c -> id c <> x) ->
  (forall c, head after = Some c -> id c <> x) ->
  let spans := rowSpans (before ++ run ++ after) in
  length spans = length (before ++ run ++ after) /\
  spans =
    rowSpans before ++
    (Z.of_nat (length run) :: replicate (length run - 1) 0) ++
    rowSpans after /\
  spans !! length before = Some (Z.of_nat (length run)) /\
  (forall j, (0 < j < length run)%nat ->
     spans !! (length before + j)%nat = Some 0) /\
  (forall a1 a2 b a3,
     id a2 = id a1 -> id a3 = id a1 -> id b <> id a1 ->
     rowSpans [a1; a2; b; a3] = [2; 0; 1; 1]).
Proof.
  intros Hne Hrun Hb Ha spans.
  assert (E : spans = rowSpans before ++
    (Z.of_nat (length run) :: replicate (length run - 1) 0) ++
    rowSpans after) by by apply (rowSpans_app_run before run after x).
  split; [apply rowSpans_length |]. split; [done |]. split; [| split].
  - rewrite E, lookup_app_r; rewrite rowSpans_length; [| lia].
    by rewrite Nat.sub_diag.
  - intros j Hj. rewrite E, lookup_app_r; rewrite rowSpans_length; [| lia].
    replace (length before + j - length before)%nat with j by lia.
    destruct j as [|j]; [lia |]. simpl.
    rewrite lookup_app_l by (rewrite length_replicate; lia).
    apply lookup_replicate_2. lia.
  - intros a1 a2 b a3 H2 H3 Hb'.
    change [a1; a2; b; a3] with ([] ++ [a1; a2] ++ [b; a3]).
    rewrite (rowSpans_app_run [] [a1; a2] [b; a3] (id a1)); try done.
    + change [b; a3] with ([] ++ [b] ++ [a3]).
      rewrite (rowSpans_app_run [] [b] [a3] (id b)); try done.
      * by repeat constructor.
      * simpl. intros c [= <-]. congruence.
    + by repeat constructor.
    + simpl. by intros c [= <-].
Qed.

Lemma rowSpans_runs_witness :
  rowSpans Samples.aaba_courses = [2; 0; 1; 1].
Proof.
  destruct (rowSpans_runs
              [Samples.course "A" "Algebra" 2023;
               Samples.course "A" "Algebra" 2024]
              [Samples.course "B" "Logic" 2024]
              [Samples.course "A" "Algebra" 2025] (str "B"))
    as (_ & H & _).
  - discriminate.
  - repeat constructor.
  - simpl. intros c [= <-]. vm_compute. discriminate.
  - simpl. intros c [= <-]. vm_compute. discriminate.
  - simpl in H. unfold Samples.aaba_courses. rewrite H.
    vm_compute. reflexivity.
Defined.


End SpanFacts.

(** ** The identifier filter *)

Module IdFilterFacts.
Import JS Page.

(** What the filter compares: the upper-cased filter text with the
    identifier as stored. *)
Lemma id_passes_uppercased_filter (st : State) (c : Course) :
  (idFilterMode st = IdPrefix ->
   (id_passes st c = true <-> toUpperCase (idFilter st) `prefix_of` id c)) /\
  (idFilterMode st = IdContain ->
   (id_passes st c = true <->
    Spec.substring (toUpperCase (idFilter st)) (id c))).
Proof.
  unfold id_passes, idPrefix, uppercaseIdFilter. split; intros ->.
  - apply JSFacts.startsWith_prefix.
  - apply JSFacts.includes_substring.
Qed.

(** The earliest variant compares the filter text as typed. *)
Lemma RoutesPage_id_passes_exact (text : jsstring) (c : Course) :
  (RoutesPage.id_passes true text c = true <-> text `prefix_of` id c) /\
  (RoutesPage.id_passes false text c = true <-> Spec.substring text (id c)).
Proof.
  unfold RoutesPage.id_passes. split.
  - apply JSFacts.startsWith_prefix.
  - apply JSFacts.includes_substring.
Qed.

(** A record that passes holds a spelling of the filter text: its
    upper-case form. *)
Lemma id_passes_spelling (st : State) (c : Course) :
  (idFilterMode st = IdPrefix -> id_passes st c = true ->
   Spec.prefix_in_upper_case (idFilter st) (id c)) /\
  (idFilterMode st = IdContain -> id_passes st c = true ->
   Spec.substring_in_upper_case (idFilter st) (id c)).
Proof.
  destruct (id_passes_uppercased_filter st c) as [Hp Hc].
  split; intros Hm H.
  - apply (Hp Hm) in H as [rest H].
    exists (toUpperCase (idFilter st)), rest. split; [done |].
    unfold Spec.eq_in_upper_case.
    by rewrite CaseFacts.toUpperCase_idempotent.
  - apply (Hc Hm) in H as (before & after & H).
    exists before, (toUpperCase (idFilter st)), after. split; [done |].
    unfold Spec.eq_in_upper_case.
    by rewrite CaseFacts.toUpperCase_idempotent.
Qed.

(** An identifier in upper-case form holds a spelling of the filter text
    only as its upper-case form. *)
Lemma id_passes_upper_case_id (st : State) (c : Course) :
  toUpperCase (id c) = id c ->
  (idFilterMode st = IdPrefix ->
   Spec.prefix_in_upper_case (idFilter st) (id c) -> id_passes st c = true) /\
  (idFilterMode st = IdContain ->
   Spec.substring_in_upper_case (idFilter st) (id c) ->
   id_passes st c = true).
Proof.
  intros Hup. destruct (id_passes_uppercased_filter st c) as [Hp Hc].
  split; intros Hm.
  - intros (p' & rest & H & E). apply (Hp Hm).
    unfold Spec.eq_in_upper_case in E. rewrite E.
    rewrite (CaseFacts.toUpperCase_fixed_part (id c) Hup [] p' rest H).
    by exists rest.
  - intros (before & p' & after & H & E). apply (Hc Hm).
    unfold Spec.eq_in_upper_case in E. rewrite E.
    rewrite (CaseFacts.toUpperCase_fixed_part (id c) Hup before p' after H).
    by exists before, after.
Qed.

(** C3, amended.  The filter text is upper-cased and the identifier is
    taken as stored.  Two strings counting as equal ignoring case when
    they have the same upper-case form: a record passes the identifier
    condition exactly when its identifier starts with (prefix mode), or
    contains (contains mode), the upper-case form of the text; if it
    passes, the text is a prefix, or a substring, of the identifier
    ignoring case; and for a record whose identifier is its own upper-case
    form it passes exactly when the text is a prefix, or a substring, of
    the identifier ignoring case.  In the variant of
    [src/routes/+page.svelte] the record passes exactly when the text as
    typed is a prefix, or a substring, of the identifier. *)
Theorem id_passes_ignoring_case (st : State) (c : Course) :
  ((idFilterMode st = IdPrefix ->
    (id_passes st c = true <-> toUpperCase (idFilter st) `prefix_of` id c)) /\
   (idFilterMode st = IdContain ->
    (id_passes st c = true <->
     Spec.substring (toUpperCase (idFilter st)) (id c)))) /\
  ((idFilterMode st = IdPrefix -> id_passes st c = true ->
    Spec.prefix_in_upper_case (idFilter st) (id c)) /\
   (idFilterMode st = IdContain -> id_passes st c = true ->
    Spec.substring_in_upper_case (idFilter st) (id c))) /\
  (toUpperCase (id c) = id c ->
   (idFilterMode st = IdPrefix ->
    (id_passes st c = true <->
     Spec.prefix_in_upper_case (idFilter st) (id c))) /\
   (idFilterMode st = IdContain ->
    (id_passes st c = true <->
     Spec.substring_in_upper_case (idFilter st) (id c)))) /\
  (forall text,
     (RoutesPage.id_passes true text c = true <-> text `prefix_of` id c) /\
     (RoutesPage.id_passes false text c = true <->
      Spec.substring text (id c))).
Proof.
  split; [apply id_passes_uppercased_filter |].
  split; [apply id_passes_spelling |].
  split; [| intros text; apply RoutesPage_id_passes_exact].
  intros Hup.
  destruct (id_passes_spelling st c) as [Sp Sc].
  destruct (id_passes_upper_case_id st c Hup) as [Cp Cc].
  split; intros Hm; split; auto.
Qed.

Lemma id_passes_ignoring_case_witness :
  id_passes (Samples.gb_state IdPrefix)
    (Samples.course "GB101" "Logic" 2023) = true.
Proof.
  destruct (id_passes_ignoring_case (Samples.gb_state IdPrefix)
              (Samples.course "GB101" "Logic" 2023)) as (_ & _ & H & _).
  destruct H as [Hp _]; [vm_compute; reflexivity |].
  apply (Hp eq_refl). exists (str "GB"), (str "101").
  split; vm_compute; reflexivity.
Defined.

(** The filter text "gb" is a prefix, and so a substring, of the identifier
    "gb101", as it is written and so ignoring case in either sense, yet
    the record does not pass in either mode; in the earliest variant the
    same text misses the identifier "GB101", of which it is a prefix
    ignoring case. *)
Lemma id_passes_not_case_insensitive :
  str "gb" `prefix_of` str "gb101" /\
  Spec.prefix_in_upper_case (str "gb") (str "gb101") /\
  Spec.substring_in_upper_case (str "gb") (str "gb101") /\
  Spec.prefix_ignoring_case (str "gb") (str "gb101") /\
  Spec.substring_ignoring_case (str "gb") (str "gb101") /\
  id_passes (Samples.gb_state IdPrefix)
    (Samples.course "gb101" "Logic" 2023) = false /\
  id_passes (Samples.gb_state IdContain)
    (Samples.course "gb101" "Logic" 2023) = false /\
  Spec.prefix_in_upper_case (str "gb") (str "GB101") /\
  Spec.prefix_ignoring_case (str "gb") (str "GB101") /\
  RoutesPage.id_passes true (str "gb")
    (Samples.course "GB101" "Logic" 2023) = false /\
  RoutesPage.id_passes false (str "gb")
    (Samples.course "GB101" "Logic" 2023) = false.
Proof.
  split; [by exists (str "101") |].
  split; [by exists (str "gb"), (str "101") |].
  split; [by exists [], (str "gb"), (str "101") |].
  split; [by exists (str "gb"), (str "101") |].
  split; [by exists [], (str "gb"), (str "101") |].
  split; [vm_compute; reflexivity |].
  split; [vm_compute; reflexivity |].
  split;
    [exists (str "GB"), (str "101"); split; vm_compute; reflexivity |].
  split;
    [exists (str "GB"), (str "101"); split; vm_compute; reflexivity |].
  split; vm_compute; reflexivity.
Qed.

End IdFilterFacts.

(** ** More about [sortByKeyCached], [courseCompare] and [loadCourses] *)

Module UtilFacts.
Import JS.

Section ByKey.
Context {T : Type} (getKey : T -> Z).

Let keyed (t : T) : Z * T := (getKey t, t).
Let pair_order (p q : Z * T) : Z := fst p - fst q.
Let key_order (a b : T) : Z := getKey a - getKey b.

Lemma sort_insert_keyed (x : T) (l : list T) :
  sort_insert pair_order (keyed x) (List.map keyed l) =
  List.map keyed (sort_insert key_order x l).
Proof.
  induction l as [|y l IH]; simpl; [done |].
  unfold pair_order at 1, key_order at 1. simpl.
  destruct (getKey x - getKey y <=? 0); simpl; [done |]. by rewrite IH.
Qed.

Lemma sort_keyed (l : list T) :
  sort pair_order (List.map keyed l) = List.map keyed (sort key_order l).
Proof.
  induction l as [|x l IH]; simpl; [done |].
  by rewrite IH, sort_insert_keyed.
Qed.

(** Computing the keys once gives what sorting by [getKey(a) - getKey(b)]
    gives. *)
Lemma sortByKeyCached_direct (ts : list T) :
  Util.sortByKeyCached ts getKey = sort key_order ts.
Proof.
  rewrite RankFacts.sortByKeyCached_sorted.
  change (List.map snd (sort pair_order (List.map keyed ts)) =
          sort key_order ts).
  rewrite sort_keyed, List.map_map. simpl. apply List.map_id.
Qed.

Lemma key_order_total (a b : T) :
  not_after key_order a b \/ not_after key_order b a.
Proof. unfold not_after, key_order. lia. Qed.

Lemma sort_insert_filter_key (k : Z) (x : T) (l : list T) :
  List.filter (fun t => getKey t =? k) (sort_insert key_order x l) =
  List.filter (fun t => getKey t =? k) (x :: l).
Proof.
  induction l as [|y l IH]; [done |].
  cbn [sort_insert]. unfold key_order at 1.
  destruct (Z.leb_spec (getKey x - getKey y) 0) as [Hle | Hgt]; [done |].
  cbn [List.filter] in *. rewrite IH.
  destruct (Z.eqb_spec (getKey x) k), (Z.eqb_spec (getKey y) k);
    try done; lia.
Qed.

(** X1. [sortByKeyCached] puts the array in ascending order of the keys: the
    result holds the same elements, and no element is followed, directly
    or later, by one with a smaller key. *)
Theorem sortByKeyCached_ascending (ts : list T) :
  Util.sortByKeyCached ts getKey ≡ₚ ts /\
  length (Util.sortByKeyCached ts getKey) = length ts /\
  Sorted (fun a b => getKey a <= getKey b) (Util.sortByKeyCached ts getKey) /\
  StronglySorted (fun a b => getKey a <= getKey b)
    (Util.sortByKeyCached ts getKey).
Proof.
  rewrite sortByKeyCached_direct.
  assert (Hs : Sorted (fun a b => getKey a <= getKey b) (sort key_order ts)).
  { apply (LoaderFacts.Sorted_weaken (not_after key_order)).
    - unfold not_after, key_order. intros a b. lia.
    - apply JSFacts.sort_sorted, key_order_total. }
  repeat split.
  - apply JSFacts.sort_perm.
  - apply JSFacts.sort_length.
  - done.
  - apply Sorted.Sorted_StronglySorted; [| done]. intros a b c. lia.
Qed.

(** X2. The sort is stable: the elements that have a given key stand in the
    result in the order they had in the array. *)
Theorem sortByKeyCached_equal_keys_in_order (ts : list T) (k : Z) :
  List.filter (fun t => getKey t =? k) (Util.sortByKeyCached ts getKey) =
  List.filter (fun t => getKey t =? k) ts.
Proof.
  rewrite sortByKeyCached_direct.
  induction ts as [|x ts IH]; [done |].
  cbn [sort]. rewrite sort_insert_filter_key.
  cbn [List.filter]. by rewrite IH.
Qed.

(** X3. An array already in ascending key order is left as it is; hence
    sorting a second time changes nothing. *)
Theorem sortByKeyCached_sorted_unchanged (ts : list T) :
  (Sorted (fun a b => getKey a <= getKey b) ts ->
   Util.sortByKeyCached ts getKey = ts) /\
  Util.sortByKeyCached (Util.sortByKeyCached ts getKey) getKey =
    Util.sortByKeyCached ts getKey.
Proof.
  assert (H : forall l, Sorted (fun a b => getKey a <= getKey b) l ->
                        Util.sortByKeyCached l getKey = l).
  { intros l Hl. rewrite sortByKeyCached_direct.
    apply JSFacts.sort_sorted_id.
    apply (LoaderFacts.Sorted_weaken (fun a b => getKey a <= getKey b));
      [| done].
    unfold not_after, key_order. intros a b. lia. }
  split; [apply H |]. apply H.
  rewrite sortByKeyCached_direct.
  apply (LoaderFacts.Sorted_weaken (not_after key_order)).
  - unfold not_after, key_order. intros a b. lia.
  - apply JSFacts.sort_sorted, key_order_total.
Qed.

End ByKey.

Lemma sortByKeyCached_sorted_unchanged_witness :
  Util.sortByKeyCached [(1, 7); (1, 3); (2, 5)] fst = [(1, 7); (1, 3); (2, 5)].
Proof.
  apply (proj1 (sortByKeyCached_sorted_unchanged fst _)).
  repeat constructor; simpl; lia.
Defined.

End UtilFacts.

Module StoreFacts.
Import JS Page.

(** X4. [courseCompare] is a consistent comparator: swapping the arguments
    negates the result, the result is [0] exactly for equal keys and
    negative exactly when the first key is the smaller one in the
    lexicographic order, and "not after" is transitive. *)
Theorem courseCompare_consistent (a b c : Course) :
  courseCompare a b = - courseCompare b a /\
  (courseCompare a b = 0 <-> key a = key b) /\
  (courseCompare a b < 0 <-> Spec.lex_lt (key a) (key b)) /\
  (courseCompare a b = -1 \/ courseCompare a b = 0 \/ courseCompare a b = 1) /\
  (courseCompare a b <= 0 -> courseCompare b c <= 0 ->
   courseCompare a c <= 0).
Proof.
  split; [| split; [| split; [| split]]].
  - unfold courseCompare.
    destruct (string_ltb (key a) (key b)) eqn:Hab,
             (string_ltb (key b) (key a)) eqn:Hba; try done.
    apply JSFacts.string_ltb_asym in Hab. congruence.
  - unfold courseCompare.
    destruct (string_ltb (key a) (key b)) eqn:Hab.
    + split; [done |]. intros E. rewrite E in Hab.
      by rewrite JSFacts.string_ltb_irrefl in Hab.
    + destruct (string_ltb (key b) (key a)) eqn:Hba.
      * split; [done |]. intros E. rewrite E in Hba.
        by rewrite JSFacts.string_ltb_irrefl in Hba.
      * split; [| done]. intros _. by apply JSFacts.string_ltb_antisym.
  - rewrite <- JSFacts.string_ltb_lex. unfold courseCompare.
    destruct (string_ltb (key a) (key b)); [done |].
    destruct (string_ltb (key b) (key a)); split; (done || lia).
  - unfold courseCompare.
    destruct (string_ltb (key a) (key b)), (string_ltb (key b) (key a));
      auto.
  - intros Hab Hbc.
    apply (LoaderFacts.courseCompare_not_after a c).
    apply (LoaderFacts.key_le_trans a b c);
      by apply LoaderFacts.courseCompare_not_after.
Qed.

Lemma parse_fails_iff (parse : jsstring -> ParseResult) (csv : jsstring)
    (y : Z) :
  parseCoursesCsv parse csv y = None <-> errors (parse csv) <> [].
Proof.
  unfold parseCoursesCsv. by destruct (errors (parse csv)).
Qed.

Lemma load_loop_fails_iff (parse : jsstring -> ParseResult)
    (sources : list (jsstring * Z)) (courses : list Course) :
  load_loop parse sources courses = None <->
  Exists (fun src => parseCoursesCsv parse (fst src) (snd src) = None)
    sources.
Proof.
  revert courses. induction sources as [|[csv y] sources IH];
    intros courses; simpl.
  - split; [done | by intros H%Exists_nil].
  - rewrite Exists_cons. simpl.
    destruct (parseCoursesCsv parse csv y) as [cs|]; simpl.
    + rewrite IH. split; [by right | by intros [? | ?]].
    + split; [by left | done].
Qed.

(** X5. The load fails, at the assertion, exactly when the decoder reports
    an error for one of the sources; for the page's own [loadCourses] these
    are the three bundled files. *)
Theorem loadCourses_fails_iff (parse : jsstring -> ParseResult)
    (sources : list (jsstring * Z)) :
  (loadCoursesFrom parse sources = None <->
   Exists (fun src => errors (parse (fst src)) <> []) sources) /\
  (forall a b c,
     loadCourses parse a b c = None <->
     errors (parse a) <> [] \/ errors (parse b) <> [] \/
     errors (parse c) <> []).
Proof.
  assert (H : forall srcs,
    loadCoursesFrom parse srcs = None <->
    Exists (fun src => errors (parse (fst src)) <> []) srcs).
  { intros srcs. unfold loadCoursesFrom.
    pose proof (load_loop_fails_iff parse srcs []) as Hl.
    destruct (load_loop parse srcs []) as [cs|].
    - split; [done |]. intros He. apply proj2 in Hl.
      assert (Some cs = None) as E; [| done].
      apply Hl. eapply Exists_impl; [exact He |].
      intros [csv y] Hs. by apply parse_fails_iff.
    - split; [| done]. intros _. apply proj1 in Hl.
      eapply Exists_impl; [by apply Hl |].
      intros [csv y] Hs. by apply parse_fails_iff in Hs. }
  split; [apply H |]. intros a b c. unfold loadCourses. rewrite H.
  rewrite !Exists_cons, Exists_nil. simpl. tauto.
Qed.

End StoreFacts.
(** ** The sort key *)

Module KeyFacts.
Import JS Page.

Lemma str_inj (a b : string) : str a = str b -> a = b.
Proof.
  unfold str. intros H.
  rewrite <- (string_of_list_ascii_of_string a),
          <- (string_of_list_ascii_of_string b).
  f_equal. revert H.
  generalize (list_ascii_of_string a) (list_ascii_of_string b).
  intros l. induction l as [|x l IH]; intros [|y l']; simpl; try done.
  intros [= Hxy Hl]. f_equal; [| by apply IH].
  by rewrite <- (ascii_N_embedding x), <- (ascii_N_embedding y), Hxy.
Qed.

Lemma uint_digits (d : Decimal.uint) :
  Forall (fun u => (48 <= u <= 57)%N) (str (NilEmpty.string_of_uint d)).
Proof.
  induction d; simpl; constructor; (done || lia).
Qed.

(** The decimal numeral of an integer has no comma. *)
Lemma numberToString_no_comma (z : Z) :
  Forall (fun u => u <> 44%N) (numberToString z).
Proof.
  assert (H : forall d,
    Forall (fun u => u <> 44%N) (str (NilZero.string_of_uint d))).
  { intros d. eapply Forall_impl; [| intros u Hu; exact Hu].
    destruct d; try (eapply Forall_impl;
      [apply (uint_digits _) | simpl; intros; lia]).
    by repeat constructor. }
  unfold numberToString. destruct (Z.to_int z) as [d | d]; simpl.
  - apply H.
  - constructor; [done | apply H].
Qed.

Lemma numberToString_inj (a b : Z) :
  numberToString a = numberToString b -> a = b.
Proof.
  unfold numberToString. intros H%str_inj.
  apply DecimalZ.to_int_inj.
  assert (Hn : forall z, Z.to_int z <> Decimal.Pos Decimal.Nil /\
                         Z.to_int z <> Decimal.Neg Decimal.Nil).
  { intros [|p|p]; simpl; split; try done.
    - intros [= E]. by apply DecimalPos.Unsigned.to_uint_nonnil in E.
    - intros [= E]. by apply DecimalPos.Unsigned.to_uint_nonnil in E. }
  apply (f_equal NilZero.int_of_string) in H.
  rewrite !NilZero.isi in H by apply Hn. by injection H.
Qed.

(** The last comma of a key separates the identifier from the year. *)
Lemma split_at_last_comma (a b n m : jsstring) :
  Forall (fun u => u <> 44%N) n -> Forall (fun u => u <> 44%N) m ->
  a ++ [44%N] ++ n = b ++ [44%N] ++ m -> a = b /\ n = m.
Proof.
  intros Hn Hm. revert b.
  induction a as [|x a IH]; intros [|y b]; simpl.
  - by intros [= ->].
  - intros [= <- ->]. apply Forall_app in Hn as [_ Hn].
    by apply Forall_cons in Hn as [Hn _].
  - intros [= -> <-]. apply Forall_app in Hm as [_ Hm].
    by apply Forall_cons in Hm as [Hm _].
  - intros [= -> H]. destruct (IH b H) as [-> ->]. done.
Qed.

(** X6. The sort key of a parsed record determines its identifier and its
    year: two records built by the parser, from whatever rows and years,
    have the same key exactly when they have the same identifier and the
    same year. *)
Theorem key_determines_id_and_year (y1 y2 : Z) (row1 row2 : value)
    (c1 c2 : Course) :
  parse_row y1 row1 = Some c1 ->
  parse_row y2 row2 = Some c2 ->
  (key c1 = key c2 <-> id c1 = id c2 /\ year c1 = year c2).
Proof.
  intros H1 H2.
  destruct (ParserFacts.parse_row_some _ _ _ H1) as (_ & Hy1 & Hk1 & _).
  destruct (ParserFacts.parse_row_some _ _ _ H2) as (_ & Hy2 & Hk2 & _).
  rewrite Hk1, Hk2, Hy1, Hy2. split.
  - intros H. apply split_at_last_comma in H as [Hi Hn];
      try apply numberToString_no_comma.
    split; [done | by apply numberToString_inj].
  - by intros [-> ->].
Qed.

Lemma key_determines_id_and_year_witness :
  key (Samples.course "GB10101" "Logic" 2023) =
  key (Samples.course "GB10101" "Sets" 2023).
Proof.
  apply (proj2 (key_determines_id_and_year 2023 2023
    (Samples.full_row " GB10101 " "Logic") (Samples.full_row "GB10101" "Sets ")
    _ _ ltac:(vm_compute; reflexivity) ltac:(vm_compute; reflexivity))).
  split; reflexivity.
Defined.

End KeyFacts.
(** ** More about the filter and the view *)

Module ViewFacts.
Import JS Page.

(** A cap below the number of courses already collected never fires. *)
Lemma filter_loop_uncapped (st : State) (k : Z) (courses acc : list Course) :
  ToNumber (maxVisibleCourseCount st) = Num k ->
  k < Z.of_nat (length acc) ->
  filter_loop st courses acc = (acc ++ List.filter (passes st) courses, false).
Proof.
  intros Hcap. revert acc.
  induction courses as [|c courses IH]; intros acc Hacc; simpl.
  - by rewrite app_nil_r.
  - destruct (passes st c); simpl; [| by apply IH].
    rewrite Hcap. simpl. rewrite length_app. simpl.
    destruct (Z.eqb_spec (Z.of_nat (length acc + 1)) (k + 1)); [lia |].
    rewrite IH by (rewrite length_app; simpl; lia).
    by rewrite <- app_assoc.
Qed.

(** The outcome of the filter for every kind of cap. *)
Lemma filterCourses_cases (st : State) (courses : list Course) :
  let matching := List.filter (passes st) courses in
  filterCourses st courses =
    match ToNumber (maxVisibleCourseCount st) with
    | Num k =>
        if (0 <=? k) && (Z.to_nat k <? length matching)%nat
        then (take (Z.to_nat k) matching, true)
        else (matching, false)
    | NaN => (matching, false)
    end.
Proof.
  unfold filterCourses.
  destruct (ToNumber (maxVisibleCourseCount st)) as [k|] eqn:Hcap.
  - destruct (Z.leb_spec 0 k) as [Hk | Hk]; simpl.
    + rewrite (FilterFacts.filter_loop_capped st k courses [] Hcap)
        by (simpl; lia).
      simpl. by rewrite Z.sub_0_r.
    + rewrite (filter_loop_uncapped st k courses [] Hcap) by (simpl; lia).
      done.
  - by rewrite FilterFacts.filter_loop_NaN.
Qed.

(** The filter returns an initial part of the passing courses, all of them
    unless it reports truncation. *)
Lemma filterCourses_shape (st : State) (courses : list Course) :
  let matching := List.filter (passes st) courses in
  let result := filterCourses st courses in
  fst result `prefix_of` matching /\
  (snd result = false -> fst result = matching) /\
  (snd result = true ->
   ToNumber (maxVisibleCourseCount st) =
     Num (Z.of_nat (length (fst result))) /\
   (length (fst result) < length matching)%nat).
Proof.
  intros matching result. unfold result.
  rewrite filterCourses_cases. fold matching.
  destruct (ToNumber (maxVisibleCourseCount st)) as [k|]; [| by repeat split].
  destruct (Z.leb_spec 0 k) as [Hk | Hk]; simpl; [| by repeat split].
  destruct (Nat.ltb_spec (Z.to_nat k) (length matching)); simpl;
    [| by repeat split].
  repeat split; try done.
  - apply prefix_take.
  - rewrite length_take. f_equal. lia.
  - rewrite length_take. lia.
Qed.

(** X7. Whatever the cap, the filter returns an initial part of the passing
    courses, in the order of the store; when [maxExceeded] is false it
    returns all of them, and when it is true the cap counts as a number
    ([null] as 0), exactly that many courses are returned, and more than
    that many pass. *)
Theorem filterCourses_prefix (st : State) (courses : list Course) :
  let matching := List.filter (passes st) courses in
  let result := filterCourses st courses in
  fst result `prefix_of` matching /\
  (snd result = false -> fst result = matching) /\
  (snd result = true ->
   ToNumber (maxVisibleCourseCount st) =
     Num (Z.of_nat (length (fst result))) /\
   (length (fst result) < length matching)%nat).
Proof. apply filterCourses_shape. Qed.

(** X8. A cap of zero shows nothing, and reports truncation exactly when
    some course passes; a negative cap never truncates. *)
Theorem filterCourses_cap_not_positive (st : State) (courses : list Course)
    (k : Z) :
  maxVisibleCourseCount st = Num k ->
  k <= 0 ->
  let matching := List.filter (passes st) courses in
  (k = 0 ->
   filterCourses st courses = ([], bool_decide (matching <> []))) /\
  (k < 0 -> filterCourses st courses = (matching, false)).
Proof.
  intros Hcap Hk matching. rewrite filterCourses_cases, Hcap.
  cbn [ToNumber]. fold matching.
  split.
  - intros ->. simpl. by destruct matching as [|c m].
  - intros Hneg. by destruct (Z.leb_spec 0 k); [lia |].
Qed.

Lemma filterCourses_cap_not_positive_witness :
  filterCourses (Samples.sample_state "" (Num (-1))) Samples.four_courses =
    (Samples.four_courses, false).
Proof.
  destruct (filterCourses_cap_not_positive
              (Samples.sample_state "" (Num (-1))) Samples.four_courses (-1))
    as [_ H]; [reflexivity | lia |].
  rewrite H by lia. vm_compute. reflexivity.
Defined.

Lemma includes_empty (s : jsstring) : includes s [] = true.
Proof. by destruct s. Qed.

(** X9. With both text boxes empty, the name filter in contains mode, a
    course passes exactly when its year is ticked; in exact mode the empty
    name text passes only the courses whose name is empty. *)
Theorem passes_empty_texts (st : State) (c : Course) :
  idFilter st = [] -> nameFilter st = [] ->
  (nameFilterMode st = NameContain ->
   (passes st c = true <-> year c ∈ yearFilter st)) /\
  (nameFilterMode st = NameExact ->
   (passes st c = true <-> name c = [] /\ year c ∈ yearFilter st)).
Proof.
  intros Hi Hn.
  assert (Hid : id_passes st c = true).
  { unfold id_passes, uppercaseIdFilter. rewrite Hi. simpl.
    destruct (idPrefix st); [done | apply includes_empty]. }
  unfold passes. rewrite Hid. simpl.
  unfold name_passes, nameExact, lowercaseNameFilter, year_passes.
  rewrite Hn. simpl. split; intros ->.
  - rewrite includes_empty. simpl. apply bool_decide_eq_true.
  - rewrite andb_true_iff, bool_decide_eq_true.
    unfold string_eqb. by rewrite bool_decide_eq_true.
Qed.

Lemma passes_empty_texts_witness :
  passes (Samples.sample_state "" (Num 1000))
    (Samples.course "X1" "Algebra" 2023) = true.
Proof.
  destruct (passes_empty_texts (Samples.sample_state "" (Num 1000))
              (Samples.course "X1" "Algebra" 2023) eq_refl eq_refl)
    as [H _].
  apply (H eq_refl). vm_compute. reflexivity.
Defined.

(** The ranking only rearranges. *)
Lemma derived_visible_perm (st : State) (courses : list Course) :
  visibleCourses (derived st courses) ≡ₚ fst (filterCourses st courses) /\
  maxExceeded (derived st courses) = snd (filterCourses st courses).
Proof.
  unfold derived. destruct (filterCourses st courses) as [v e].
  pose proof (CapFacts.prioritize_perm st v) as Hp.
  by destruct (prioritize st v).
Qed.

(** The view shows only courses of the store that pass the filter. *)
Lemma derived_visible_sound (st : State) (courses : list Course) (c : Course) :
  c ∈ visibleCourses (derived st courses) ->
  c ∈ courses /\ passes st c = true.
Proof.
  destruct (derived_visible_perm st courses) as [Hp _].
  destruct (filterCourses_shape st courses) as (Hpre & _).
  intros Hc. rewrite Hp in Hc.
  eapply elem_of_prefix in Hc; [| exact Hpre].
  apply list_elem_of_In, filter_In in Hc as [Hc Hpass].
  by apply list_elem_of_In in Hc.
Qed.

(** X10. Every course of the view is a course of the store that passes the
    filter, so no more courses are shown than pass; when [maxExceeded] is
    false the view holds every passing course, each as often as the store
    does. *)
Theorem derived_visible_pass (st : State) (courses : list Course) :
  let view := derived st courses in
  (forall c, c ∈ visibleCourses view -> c ∈ courses /\ passes st c = true) /\
  (length (visibleCourses view) <=
   length (List.filter (passes st) courses))%nat /\
  (maxExceeded view = false ->
   visibleCourses view ≡ₚ List.filter (passes st) courses).
Proof.
  intros view. unfold view.
  destruct (derived_visible_perm st courses) as [Hp He].
  destruct (filterCourses_shape st courses) as (Hpre & Hall & _).
  split; [| split].
  - intros c. apply derived_visible_sound.
  - rewrite Hp. by apply prefix_length.
  - intros Hf. rewrite Hp, Hall; [done | by rewrite <- He].
Qed.

(** X11. With no year ticked the view is empty, whatever the texts and the
    cap: no course, no span, no truncation. *)
Theorem derived_no_year (st : State) (courses : list Course) :
  yearFilter st = ∅ ->
  let view := derived st courses in
  visibleCourses view = [] /\
  visibleCourseIdRowSpans view = [] /\
  maxExceeded view = false.
Proof.
  intros Hy view.
  assert (Hm : List.filter (passes st) courses = []).
  { induction courses as [|c courses IH]; simpl; [done |].
    unfold passes at 1, year_passes. rewrite Hy.
    rewrite bool_decide_eq_false_2 by apply not_elem_of_empty.
    by rewrite andb_false_r. }
  assert (Hf : filterCourses st courses = ([], false)).
  { rewrite filterCourses_cases, Hm.
    destruct (ToNumber (maxVisibleCourseCount st)) as [k|]; [| done].
    destruct (0 <=? k); simpl; [| done]. by destruct (Z.to_nat k). }
  destruct (derived_visible_perm st courses) as [Hp He].
  rewrite Hf in Hp, He. simpl in *.
  apply Permutation_nil_r in Hp. fold view in Hp, He.
  assert (Hs : visibleCourseIdRowSpans view = rowSpans (visibleCourses view)).
  { unfold view, derived. destruct (filterCourses st courses).
    by destruct (prioritize st l). }
  rewrite Hs, Hp. done.
Qed.

Lemma derived_no_year_witness :
  visibleCourses
    (derived (PageEvents.set_yearFilter (Samples.sample_state "" NaN) ∅)
       Samples.four_courses) = [].
Proof.
  apply (derived_no_year
    (PageEvents.set_yearFilter (Samples.sample_state "" NaN) ∅)
    Samples.four_courses eq_refl).
Defined.

End ViewFacts.
(** ** More about the ranking, the year boxes and the single-year variant *)

Module RankingFacts.
Import JS Page.

Lemma prioritize_ranked (st : State) (l : list Course) :
  priorityString st <> [] ->
  let contains c :=
    courseContainsString c (priorityString st) (showDescription st) in
  prioritize st l =
    (List.filter contains l ++ List.filter (fun c => negb (contains c)) l,
     Some (Z.of_nat (length (List.filter contains l)))).
Proof.
  intros Hq contains.
  unfold prioritize, string_eqb. case_bool_decide; [done |]. simpl.
  rewrite (RankFacts.sortByKeyCached_binary contains). f_equal. f_equal.
  rewrite RankFacts.count_loop_prefix; [lia | |].
  - rewrite Forall_forall. intros c Hc.
    apply list_elem_of_In, filter_In in Hc. tauto.
  - rewrite Forall_forall. intros c Hc.
    apply list_elem_of_In, filter_In in Hc as [_ Hc].
    fold (contains c). by destruct (contains c).
Qed.

Lemma filter_filter_same {T : Type} (f : T -> bool) (l : list T) :
  List.filter f (List.filter f l) = List.filter f l /\
  List.filter f (List.filter (fun t => negb (f t)) l) = [] /\
  List.filter (fun t => negb (f t)) (List.filter f l) = [] /\
  List.filter (fun t => negb (f t)) (List.filter (fun t => negb (f t)) l) =
    List.filter (fun t => negb (f t)) l.
Proof.
  induction l as [|x l (H1 & H2 & H3 & H4)]; simpl; [done |].
  destruct (f x) eqn:Hx; simpl; rewrite ?Hx; simpl;
    by rewrite ?H1, ?H2, ?H3, ?H4.
Qed.

(** X12. Ranking a ranked array again, with the same priority string,
    changes neither the order nor the count; and ranking keeps the courses
    it is given. *)
Theorem prioritize_idempotent (st : State) (l : list Course) :
  prioritize st (fst (prioritize st l)) = prioritize st l /\
  fst (prioritize st l) ≡ₚ l.
Proof.
  split; [| apply CapFacts.prioritize_perm].
  destruct (decide (priorityString st = [])) as [Hq | Hq].
  - by rewrite !RankFacts.prioritize_no_query.
  - rewrite !prioritize_ranked by done. cbn beta zeta. simpl fst.
    destruct (filter_filter_same
                (fun c => courseContainsString c (priorityString st)
                            (showDescription st)) l) as (H1 & H2 & H3 & H4).
    cbn beta in H1, H2, H3, H4.
    rewrite !List.filter_app, H1, H2, H3, H4. simpl.
    by rewrite app_nil_r.
Qed.

(** X13. The check mark: with a priority string set, the priority cell of
    a row holds the check mark exactly when the course of the row contains
    the string; with none set there is no priority cell. *)
Theorem priority_cell_marks (st : State) (courses : list Course) (i : nat) :
  let view := derived st courses in
  (priorityString st = [] -> PageEvents.priority_cell view i = None) /\
  (priorityString st <> [] ->
   forall c, visibleCourses view !! i = Some c ->
     PageEvents.priority_cell view i =
       Some (if courseContainsString c (priorityString st)
                  (showDescription st)
             then [9989%N] else [])).
Proof.
  intros view. unfold view, derived, PageEvents.priority_cell.
  destruct (filterCourses st courses) as [v e]. split; intros Hq.
  - by rewrite RankFacts.prioritize_no_query.
  - rewrite prioritize_ranked by done. simpl. intros c Hc.
    set (f := fun c => courseContainsString c (priorityString st)
                         (showDescription st)) in *.
    f_equal.
    destruct (Nat.lt_ge_cases i (length (List.filter f v))) as [Hi | Hi].
    + rewrite lookup_app_l in Hc by done.
      apply list_elem_of_lookup_2, list_elem_of_In, filter_In in Hc
        as [_ Hc].
      unfold f in Hc. rewrite Hc.
      by destruct (Z.ltb_spec (Z.of_nat i)
                     (Z.of_nat (length (List.filter f v)))); [| lia].
    + rewrite lookup_app_r in Hc by done.
      apply list_elem_of_lookup_2, list_elem_of_In, filter_In in Hc
        as [_ Hc].
      apply negb_true_iff in Hc. rewrite Hc.
      by destruct (Z.ltb_spec (Z.of_nat i)
                     (Z.of_nat (length (List.filter f v)))); [lia |].
Qed.

Lemma priority_cell_marks_witness :
  PageEvents.priority_cell
    (derived (Samples.sample_state "logic" (Num 1000)) Samples.four_courses)
    1 = Some [9989%N].
Proof.
  destruct (priority_cell_marks (Samples.sample_state "logic" (Num 1000))
              Samples.four_courses 1) as [_ H].
  rewrite (H ltac:(vm_compute; discriminate)
             (Samples.course "Z1" "LOGIC II" 2024));
    vm_compute; reflexivity.
Defined.

(** X14. The year boxes: after a box is unticked no course of that year is
    in the view; after it is ticked the year condition holds for the
    courses of that year; the box shows the state it was given; and the
    courses of the other years pass as they did before. *)
Theorem onchange_year_effect (st : State) (y : Z) (courses : list Course) :
  (forall c,
     c ∈ visibleCourses (derived (PageEvents.onchange_year y false st) courses)
     -> year c <> y) /\
  (forall c, year c = y ->
     year_passes (PageEvents.onchange_year y true st) c = true) /\
  (forall checked,
     bool_decide (y ∈ yearFilter (PageEvents.onchange_year y checked st)) =
     checked) /\
  (forall checked c, year c <> y ->
     passes (PageEvents.onchange_year y checked st) c = passes st c).
Proof.
  split; [| split; [| split]].
  - intros c Hc Hy. apply ViewFacts.derived_visible_sound in Hc as [_ Hc].
    unfold passes, year_passes in Hc. simpl in Hc.
    rewrite bool_decide_eq_false_2 in Hc.
    + by rewrite andb_false_r in Hc.
    + rewrite elem_of_difference, elem_of_singleton. tauto.
  - intros c Hy. unfold year_passes. simpl.
    apply bool_decide_eq_true.
    rewrite elem_of_union, elem_of_singleton. by left.
  - intros [|]; simpl.
    + apply bool_decide_eq_true.
      rewrite elem_of_union, elem_of_singleton. by left.
    + apply bool_decide_eq_false.
      rewrite elem_of_difference, elem_of_singleton. tauto.
  - intros checked c Hy. unfold passes, year_passes. f_equal.
    simpl. apply bool_decide_ext. destruct checked.
    + rewrite elem_of_union, elem_of_singleton. tauto.
    + rewrite elem_of_difference, elem_of_singleton. tauto.
Qed.

(** Two filter loops that agree on which courses pass, under the same cap,
    give the same result. *)
Lemma filter_loop_001 (st1 : Page001.State) (st : State)
    (courses acc : list Course) :
  Page001.maxVisibleCourseCount st1 = maxVisibleCourseCount st ->
  (forall c, c ∈ courses -> Page001.passes st1 c = passes st c) ->
  Page001.filter_loop st1 courses acc = filter_loop st courses acc.
Proof.
  intros Hcap. revert acc.
  induction courses as [|c courses IH]; intros acc Hp; [done |].
  cbn [Page001.filter_loop filter_loop].
  rewrite Hcap, (Hp c) by apply list_elem_of_here.
  assert (Hrest : forall d, d ∈ courses ->
                            Page001.passes st1 d = passes st d)
    by (intros d Hd; apply Hp; by apply list_elem_of_further).
  destruct (passes st c); simpl; [| by apply IH].
  by rewrite IH.
Qed.

(** X15. The single-year variant is the year-set page with one year
    ticked: with a year typed in, its filter returns what the latest page
    returns for the same texts in contains mode and that year alone
    ticked; with no year typed in, what the latest page returns when every
    year of the store is ticked. *)
Theorem Page001_as_year_set (st1 : Page001.State) (courses : list Course) :
  (forall y, Page001.yearFilter st1 = Some y ->
     Page001.filterCourses st1 courses =
     filterCourses (Runs.with_years st1 {[y]}) courses) /\
  (Page001.yearFilter st1 = None ->
   forall years : gset Z,
     (forall c, c ∈ courses -> year c ∈ years) ->
     Page001.filterCourses st1 courses =
     filterCourses (Runs.with_years st1 years) courses).
Proof.
  split.
  - intros y Hy. apply filter_loop_001; [done |]. intros c _.
    unfold Page001.passes, passes, id_passes, name_passes, year_passes.
    rewrite Hy. simpl. do 2 f_equal.
    destruct (Z.eqb_spec (year c) y) as [-> | Hne].
    + symmetry. apply bool_decide_eq_true. by apply elem_of_singleton.
    + symmetry. apply bool_decide_eq_false. by rewrite elem_of_singleton.
  - intros Hy years Hall. apply filter_loop_001; [done |]. intros c Hc.
    unfold Page001.passes, passes, id_passes, name_passes, year_passes.
    rewrite Hy. simpl. do 2 f_equal.
    symmetry. apply bool_decide_eq_true. by apply Hall.
Qed.

Lemma filter_loop_same_filters (st st' : State) (courses acc : list Course) :
  maxVisibleCourseCount st' = maxVisibleCourseCount st ->
  (forall c, passes st' c = passes st c) ->
  filter_loop st' courses acc = filter_loop st courses acc.
Proof.
  intros Hcap Hp. revert acc.
  induction courses as [|c courses IH]; intros acc; [done |].
  cbn [filter_loop]. rewrite Hcap, Hp, !IH. done.
Qed.

(** X16. The priority string and the description box only reorder: with
    the filters and the cap unchanged, whatever is typed in the priority
    box the view shows the same courses, each as often, and reports the
    same truncation; a course cut off by the cap is not brought back by
    the ranking. *)
Theorem priority_only_reorders (st : State) (text : jsstring)
    (description : bool) (courses : list Course) :
  let st' := PageEvents.set_priority st text description in
  visibleCourses (derived st' courses) ≡ₚ visibleCourses (derived st courses)
  /\ maxExceeded (derived st' courses) = maxExceeded (derived st courses)
  /\ length (visibleCourseIdRowSpans (derived st' courses)) =
     length (visibleCourseIdRowSpans (derived st courses)).
Proof.
  intros st'.
  assert (Hf : filterCourses st' courses = filterCourses st courses)
    by (by apply filter_loop_same_filters).
  destruct (ViewFacts.derived_visible_perm st' courses) as [Hp' He'].
  destruct (ViewFacts.derived_visible_perm st courses) as [Hp He].
  assert (Hperm : visibleCourses (derived st' courses) ≡ₚ
                  visibleCourses (derived st courses))
    by (by rewrite Hp', Hp, Hf).
  split; [done |]. split; [by rewrite He', He, Hf |].
  assert (Hs : forall s, length (visibleCourseIdRowSpans (derived s courses)) =
                         length (visibleCourses (derived s courses))).
  { intros s. unfold derived. destruct (filterCourses s courses) as [v e].
    destruct (prioritize s v). simpl. apply SpanFacts.rowSpans_length. }
  by rewrite !Hs, Hperm.
Qed.

End RankingFacts.
(** ** More about the row spans: the rows of the table and the copy
    handler *)

Module RowFacts.
Import JS Page.

Import Runs.

Lemma count_bump (l : list Course) (n : Z) (prev : option jsstring) :
  fst (fold_left count_step l ([n + 1], prev)) =
  bump (fst (fold_left count_step l ([n], prev))).
Proof.
  revert n prev. induction l as [|c l IH]; intros n prev; [done |].
  cbn [fold_left]. destruct (decide (prev = Some (id c))) as [-> | Hne].
  - rewrite !(proj2 (SpanFacts.count_step_first _ c)). apply IH.
  - rewrite (SpanFacts.count_step_new [n + 1]),
            (SpanFacts.count_step_new [n]) by done.
    by rewrite (SpanFacts.count_frame l [n + 1] 1),
               (SpanFacts.count_frame l [n] 1).
Qed.

Lemma counts_cons (c d : Course) (l : list Course) :
  duplicateCourseIdCounts (c :: d :: l) =
  if bool_decide (id d = id c)
  then bump (duplicateCourseIdCounts (d :: l))
  else 1 :: duplicateCourseIdCounts (d :: l).
Proof.
  case_bool_decide as E.
  - unfold duplicateCourseIdCounts. cbn [fold_left].
    rewrite (proj1 (SpanFacts.count_step_first 0 c)).
    rewrite (proj1 (SpanFacts.count_step_first 0 d)).
    rewrite <- E, (proj2 (SpanFacts.count_step_first 1 d)).
    apply (count_bump l 1).
  - change (c :: d :: l) with ([c] ++ d :: l).
    rewrite SpanFacts.counts_app; [done |].
    simpl. intros ? ? [= <-] [= <-]. congruence.
Qed.

Lemma counts_positive (l : list Course) :
  Forall (fun n => 1 <= n) (duplicateCourseIdCounts l).
Proof. apply (SpanFacts.count_invariant l). Qed.

Lemma counts_nonempty (c : Course) (l : list Course) :
  exists n rest, duplicateCourseIdCounts (c :: l) = n :: rest /\ 1 <= n.
Proof.
  pose proof (counts_positive (c :: l)) as Hpos.
  destruct (SpanFacts.count_invariant (c :: l)) as (_ & Hsum & _).
  fold (duplicateCourseIdCounts (c :: l)) in Hsum.
  destruct (duplicateCourseIdCounts (c :: l)) as [|n rest].
  - unfold Spec.total in Hsum. simpl in Hsum. lia.
  - apply Forall_cons in Hpos as [Hn _]. by exists n, rest.
Qed.

(** The spans of a sequence, from those of its tail. *)
Lemma rowSpans_cons (c d : Course) (l : list Course) :
  exists s t, rowSpans (d :: l) = s :: t /\ 1 <= s /\
    rowSpans (c :: d :: l) =
    if bool_decide (id d = id c) then (s + 1) :: 0 :: t
    else 1 :: s :: t.
Proof.
  destruct (counts_nonempty d l) as (n & rest & Hn & Hpos).
  exists n, (replicate (Z.to_nat (n - 1)) 0 ++ flat_map expand_count rest).
  unfold rowSpans. rewrite counts_cons, Hn.
  split; [done |]. split; [done |].
  case_bool_decide; simpl; [| done].
  unfold expand_count.
  replace (Z.to_nat (n + 1 - 1)) with (S (Z.to_nat (n - 1))) by lia.
  done.
Qed.

Lemma rowSpans_nonneg (l : list Course) :
  Forall (fun s => 0 <= s) (rowSpans l).
Proof.
  unfold rowSpans. pose proof (counts_positive l) as Hpos.
  induction Hpos as [|n cs Hn _ IH]; simpl; [done |].
  constructor; [lia |]. apply Forall_app. split; [| done].
  apply Forall_forall. intros s Hs. apply elem_of_replicate in Hs. lia.
Qed.

(** The span of a row is [0] exactly when the row above has the same id. *)
Lemma rowSpans_position (l : list Course) (i : nat) (c : Course) :
  l !! i = Some c ->
  exists s, rowSpans l !! i = Some s /\ 0 <= s /\
    (s = 0 <-> exists j p, i = S j /\ l !! j = Some p /\ id p = id c).
Proof.
  revert i c. induction l as [|c0 l IH]; intros i c Hi; [done |].
  destruct l as [|d l].
  - destruct i as [|i]; [| done]. exists 1. simpl. split; [done |].
    split; [lia |]. split; [lia |]. by intros (j & p & ? & _).
  - destruct (rowSpans_cons c0 d l) as (s & t & Hs & Hpos & Hc).
    rewrite Hc. destruct i as [|[|i]].
    + simpl in Hi. exists (if bool_decide (id d = id c0) then s + 1 else 1).
      split; [by case_bool_decide |].
      split; [case_bool_decide; lia |].
      split; [case_bool_decide; lia | by intros (j & p & ? & _)].
    + simpl in Hi. injection Hi as <-.
      exists (if bool_decide (id d = id c0) then 0 else s).
      split; [by case_bool_decide |].
      split; [case_bool_decide; lia |].
      case_bool_decide as E; split.
      * intros _. by exists 0%nat, c0.
      * done.
      * lia.
      * intros (j & p & [= <-] & [= <-] & Hp). congruence.
    + destruct (IH (S i) c Hi) as (s' & Hs' & Hpos' & Hiff).
      rewrite Hs in Hs'. simpl in Hs'.
      exists s'. split; [by case_bool_decide |]. split; [done |].
      rewrite Hiff. split.
      * intros (j & p & [= ->] & Hj & Hp). by exists (S j), p.
      * intros (j & p & [= <-] & Hj & Hp). by exists i, p.
Qed.

Lemma derived_spans (st : State) (courses : list Course) :
  visibleCourseIdRowSpans (derived st courses) =
  rowSpans (visibleCourses (derived st courses)).
Proof.
  unfold derived. destruct (filterCourses st courses) as [v e].
  by destruct (prioritize st v).
Qed.

(** X17. The spans and the courses of a view are parallel arrays: there is
    one span for every course shown. *)
Theorem derived_spans_parallel (st : State) (courses : list Course) :
  length (visibleCourseIdRowSpans (derived st courses)) =
  length (visibleCourses (derived st courses)).
Proof. rewrite derived_spans. apply SpanFacts.rowSpans_length. Qed.

(** X18. The identifier cell: a row of the table has no identifier cell
    exactly when the row above it shows a course with the same
    identifier; the first row always has one. *)
Theorem id_cell_rows (st : State) (courses : list Course) (i : nat)
    (c : Course) :
  let view := derived st courses in
  visibleCourses view !! i = Some c ->
  (PageEvents.id_cell_shown view i = false <->
   exists j p, i = S j /\ visibleCourses view !! j = Some p /\ id p = id c).
Proof.
  intros view Hi. unfold PageEvents.id_cell_shown.
  unfold view in *. rewrite derived_spans.
  destruct (rowSpans_position _ i c Hi) as (s & Hs & Hpos & Hiff).
  rewrite Hs, <- Hiff.
  destruct (Z.ltb_spec 0 s); split; (done || lia).
Qed.

Lemma id_cell_rows_witness :
  PageEvents.id_cell_shown
    (derived (Samples.sample_state "" (Num 1000)) Samples.aaba_courses) 1 =
  false.
Proof.
  apply (id_cell_rows (Samples.sample_state "" (Num 1000))
           Samples.aaba_courses 1 (Samples.course "A" "Algebra" 2024)).
  - vm_compute. reflexivity.
  - exists 0%nat, (Samples.course "A" "Algebra" 2023).
    vm_compute. repeat split.
Defined.

(** *** The copy handler *)

Lemma at_index_cons (c : Course) (l : list Course) (z : Z) :
  0 <= z -> PageEvents.at_index (c :: l) (z + 1) = PageEvents.at_index l z.
Proof.
  intros Hz. unfold PageEvents.at_index.
  destruct (Z.ltb_spec (z + 1) 0), (Z.ltb_spec z 0); try lia.
  by replace (Z.to_nat (z + 1)) with (S (Z.to_nat z)) by lia.
Qed.

Lemma fold_copy_shift (v1 v2 : View) (a b m : nat) (acc : option jsstring) :
  (forall j s, (j < m)%nat ->
     PageEvents.copy_step v1 s (a + j) = PageEvents.copy_step v2 s (b + j)) ->
  fold_left (PageEvents.copy_step v1) (seq a m) acc =
  fold_left (PageEvents.copy_step v2) (seq b m) acc.
Proof.
  revert a b acc. induction m as [|m IH]; intros a b acc H; [done |].
  cbn [seq fold_left].
  pose proof (H 0%nat acc ltac:(lia)) as H0.
  rewrite !Nat.add_0_r in H0. rewrite H0. apply IH.
  intros j s Hj. specialize (H (S j) s ltac:(lia)).
  by rewrite !Nat.add_succ_r in H.
Qed.

(** A row with span [0] adds nothing. *)
Lemma copy_step_skip (v : View) (acc : option jsstring) (i : nat) :
  visibleCourseIdRowSpans v !! i = Some 0 ->
  PageEvents.copy_step v acc i = acc.
Proof.
  intros H. unfold PageEvents.copy_step. rewrite H. by destruct acc.
Qed.

(** A row moved down by one reads the course moved down by one. *)
Lemma copy_step_below (c : Course) (l : list Course)
    (s : option jsstring) (i1 i2 : nat) :
  rowSpans (c :: l) !! i1 = rowSpans l !! i2 ->
  i1 = S i2 ->
  PageEvents.copy_step (table (c :: l)) s i1 =
  PageEvents.copy_step (table l) s i2.
Proof.
  intros Hs ->. unfold PageEvents.copy_step. destruct s as [s|]; [| done].
  simpl. rewrite Hs. destruct (rowSpans l !! i2) as [sp|] eqn:E; [| done].
  destruct (Z.eqb_spec sp 0); [done |].
  assert (0 <= sp).
  { pose proof (rowSpans_nonneg l) as Hn. rewrite Forall_forall in Hn.
    apply Hn. by eapply list_elem_of_lookup_2. }
  replace (Z.of_nat (S i2) + sp - 1) with (Z.of_nat i2 + sp - 1 + 1) by lia.
  by rewrite at_index_cons by lia.
Qed.

Lemma run_ends_cons (c d : Course) (l : list Course) :
  run_ends (c :: d :: l) =
  if bool_decide (id d = id c) then run_ends (d :: l)
  else c :: run_ends (d :: l).
Proof. done. Qed.

Lemma copy_table (l : list Course) (s0 : jsstring) :
  fold_left (PageEvents.copy_step (table l)) (seq 0 (length (rowSpans l)))
    (Some s0) =
  Some (s0 ++ flat_map line (run_ends l)).
Proof.
  revert s0. induction l as [|c l IH]; intros s0.
  - simpl. by rewrite app_nil_r.
  - destruct l as [|d l].
    + simpl. by rewrite app_nil_r.
    + destruct (rowSpans_cons c d l) as (sp & t & Hs & Hpos & Hc).
      rewrite run_ends_cons.
      destruct (decide (id d = id c)) as [E | E].
      * rewrite bool_decide_eq_true_2 in Hc |- * by done.
        specialize (IH s0). rewrite Hs in IH.
        cbn [length seq fold_left] in IH.
        rewrite Hc. cbn [length seq fold_left].
        assert (H0 : PageEvents.copy_step (table (c :: d :: l)) (Some s0) 0 =
                     PageEvents.copy_step (table (d :: l)) (Some s0) 0).
        { unfold PageEvents.copy_step. cbn [table visibleCourseIdRowSpans
            visibleCourses]. rewrite Hc, Hs. cbn [lookup list_lookup].
          destruct (Z.eqb_spec (sp + 1) 0), (Z.eqb_spec sp 0); try lia.
          replace (Z.of_nat 0 + (sp + 1) - 1) with (Z.of_nat 0 + sp - 1 + 1)
            by lia.
          by rewrite at_index_cons by lia. }
        rewrite H0.
        rewrite (copy_step_skip (table (c :: d :: l)) _ 1)
          by (cbn [table visibleCourseIdRowSpans]; by rewrite Hc).
        rewrite <- IH. apply fold_copy_shift. intros j s Hj.
        apply (copy_step_below c (d :: l)); [| done].
        by rewrite Hc, Hs.
      * rewrite bool_decide_eq_false_2 in Hc |- * by done.
        rewrite Hc. change (length (1 :: sp :: t)) with (S (length (sp :: t))).
        rewrite <- Hs. cbn [seq fold_left].
        assert (H0 : PageEvents.copy_step (table (c :: d :: l)) (Some s0) 0 =
                     Some (s0 ++ line c)).
        { unfold PageEvents.copy_step. cbn [table visibleCourseIdRowSpans
            visibleCourses]. by rewrite Hc. }
        rewrite H0. cbn [flat_map]. rewrite app_assoc.
        rewrite <- (IH (s0 ++ line c)).
        apply (fold_copy_shift _ _ 1 0). intros j s Hj.
        apply (copy_step_below c (d :: l)); [| done].
        by rewrite Hc, Hs.
Qed.

Lemma run_ends_run (x : jsstring) (run after : list Course) (r : Course) :
  Forall (fun c => id c = x) run ->
  last run = Some r ->
  (forall c, head after = Some c -> id c <> x) ->
  run_ends (run ++ after) = r :: run_ends after.
Proof.
  intros Hrun. revert r. induction Hrun as [|a run Ha Hrun IH];
    intros r Hr Hafter; [done |].
  destruct run as [|b run].
  - injection Hr as <-. destruct after as [|d after]; [done |].
    cbn [app]. rewrite run_ends_cons.
    rewrite bool_decide_eq_false_2; [done |].
    rewrite Ha. by apply Hafter.
  - cbn [app]. rewrite run_ends_cons.
    apply Forall_cons in Hrun as Hb. destruct Hb as [Hb _].
    rewrite bool_decide_eq_true_2 by congruence.
    apply IH; [| done]. by rewrite last_cons_cons in Hr.
Qed.

Lemma run_ends_app (before l : list Course) :
  (forall c d, last before = Some c -> head l = Some d -> id c <> id d) ->
  run_ends (before ++ l) = run_ends before ++ run_ends l.
Proof.
  induction before as [|b before IH]; intros H; [done |].
  destruct before as [|b' before].
  - destruct l as [|d l]; [done |]. cbn [app]. rewrite run_ends_cons.
    rewrite bool_decide_eq_false_2; [done |].
    intros E. by apply (H b d).
  - cbn [app]. rewrite !run_ends_cons.
    change (b' :: before ++ l) with ((b' :: before) ++ l).
    rewrite IH by (intros c d Hc; apply H; by rewrite last_cons_cons).
    by case_bool_decide.
Qed.

Lemma copy_step_fields (v1 v2 : View) (s : option jsstring) (i : nat) :
  visibleCourseIdRowSpans v1 = visibleCourseIdRowSpans v2 ->
  visibleCourses v1 = visibleCourses v2 ->
  PageEvents.copy_step v1 s i = PageEvents.copy_step v2 s i.
Proof. intros H1 H2. unfold PageEvents.copy_step. by rewrite H1, H2. Qed.

(** X19. The copy handler never reads outside the arrays, so it does not
    throw: the text it writes has one line, identifier, space, name and
    line feed, for every maximal run of courses with one identifier, in
    the order of the table, made from the last course of the run. *)
Theorem copied_text_run_ends (st : State) (courses : list Course) :
  let view := derived st courses in
  PageEvents.copied_text view =
    Some (flat_map line (run_ends (visibleCourses view))) /\
  (forall before run after x r,
     Forall (fun c => id c = x) run ->
     last run = Some r ->
     (forall c, last before = Some c -> id c <> x) ->
     (forall c, head after = Some c -> id c <> x) ->
     run_ends (before ++ run ++ after) =
     run_ends before ++ r :: run_ends after).
Proof.
  intros view. split.
  - unfold PageEvents.copied_text.
    transitivity
      (fold_left (PageEvents.copy_step (table (visibleCourses view)))
         (seq 0 (length (rowSpans (visibleCourses view)))) (Some []));
      [| exact (copy_table (visibleCourses view) [])].
    unfold view. rewrite derived_spans.
    apply fold_copy_shift. intros j s _.
    apply copy_step_fields; [| done]. apply derived_spans.
  - intros before run after x r Hrun Hr Hb Ha.
    destruct run as [|a run]; [done |].
    rewrite run_ends_app.
    + by rewrite (run_ends_run x _ _ r).
    + intros c d Hc [= <-]. apply Forall_cons in Hrun as [-> _].
      by apply Hb.
Qed.

Lemma copied_text_run_ends_witness :
  PageEvents.copied_text
    (derived (Samples.sample_state "" (Num 1000)) Samples.aaba_courses) =
  Some (str "A Algebra" ++ [10%N] ++ str "B Logic" ++ [10%N] ++
        str "A Algebra" ++ [10%N]).
Proof.
  rewrite (proj1 (copied_text_run_ends (Samples.sample_state "" (Num 1000))
                    Samples.aaba_courses)).
  vm_compute. reflexivity.
Defined.

End RowFacts.
(** ** Parsing again what was parsed *)

Module RoundTripFacts.
Import JS Page.

Lemma trimStart_fixed (s : jsstring) :
  (forall c, head s = Some c -> is_white_space c = false) ->
  trimStart s = s.
Proof.
  destruct s as [|c s]; [done |]. intros H. simpl.
  by rewrite (H c eq_refl).
Qed.

(** Trimming a trimmed string changes nothing. *)
Lemma trim_fixed (s : jsstring) : Spec.trimmed s -> trim s = s.
Proof.
  intros [Hh Hl]. unfold trim, trimEnd.
  rewrite (trimStart_fixed s Hh).
  rewrite trimStart_fixed; [apply reverse_involutive |].
  intros c. rewrite head_reverse. apply Hl.
Qed.

Lemma trim_idempotent (s : jsstring) : trim (trim s) = trim s.
Proof. apply trim_fixed, JSFacts.trim_trimmed. Qed.

Lemma parse_row_of (y : Z) (c : Course) :
  parse_row y (Runs.row_of c) =
  if string_eqb (trim (id c)) [] then None
  else Some {|
    id := trim (id c);
    name := trim (name c);
    credit := trim (credit c);
    term := trim (term c);
    when := trim (when c);
    expects := trim (expects c);
    remark := trim (remark c);
    description := trim (description c);
    organizer := trim (organizer c);
    year := y;
    key := trim (id c) ++ str "," ++ numberToString y;
  |}.
Proof.
  unfold parse_row.
  assert (row_guard (Runs.row_of c) = true) as -> by (vm_compute; reflexivity).
  cbn [negb].
  change (as_string (get (Runs.row_of c) col_id)) with (id c).
  change (as_string (get (Runs.row_of c) col_name)) with (name c).
  change (as_string (get (Runs.row_of c) col_credit)) with (credit c).
  change (as_string (get (Runs.row_of c) col_term)) with (term c).
  change (as_string (get (Runs.row_of c) col_when)) with (when c).
  change (as_string (get (Runs.row_of c) col_expects)) with (expects c).
  change (as_string (get (Runs.row_of c) col_remark)) with (remark c).
  change (as_string (get (Runs.row_of c) col_description))
    with (description c).
  change (as_string (get (Runs.row_of c) col_organizer)) with (organizer c).
  done.
Qed.

(** X20. Parsing is stable on its own output: a record the parser built
    from some row is built again, unchanged, from the row that holds the
    record's fields, for the same year. *)
Theorem parse_row_again (y : Z) (row : value) (c : Course) :
  parse_row y row = Some c ->
  parse_row y (Runs.row_of c) = Some c.
Proof.
  intros H.
  destruct (ParserFacts.parse_row_some _ _ _ H) as (Hid & Hy & Hk & _).
  pose proof (ParserFacts.parse_row_trimmed _ _ _ H) as Ht.
  unfold Spec.text_fields in Ht.
  repeat match goal with
  | Hf : Forall _ (_ :: _) |- _ =>
      let T := fresh "T" in apply Forall_cons in Hf as [T%trim_fixed Hf]
  end.
  rewrite parse_row_of.
  rewrite T, T0, T1, T2, T3, T4, T5, T6, T7.
  unfold string_eqb. rewrite bool_decide_eq_false_2 by done.
  destruct c. simpl in *. by subst.
Qed.

Lemma parse_row_again_witness :
  parse_row 2023 (Runs.row_of (Samples.course "GB10101" "Logic" 2023)) =
  Some (Samples.course "GB10101" "Logic" 2023).
Proof.
  apply (parse_row_again 2023 (Samples.full_row " GB10101 " "Logic")).
  vm_compute. reflexivity.
Defined.

End RoundTripFacts.
(** ** The records of one identifier stand together in the store *)

Module GroupFacts.
Import JS Page.

Lemma lex_le_cons (p q : code_unit) (a b : jsstring) :
  Spec.lex_le (p :: a) (q :: b) <->
  (p < q)%N \/ (p = q /\ Spec.lex_le a b).
Proof.
  unfold Spec.lex_le. split.
  - intros [[= -> ->] | H]; [right; by split; [| left] |].
    inversion H; subst; [by left | right; by split; [| right]].
  - intros [H | [-> [-> | H]]].
    + right. by constructor.
    + by left.
    + right. by apply Spec.lex_lt_later.
Qed.

Lemma lex_le_nil_r (a : jsstring) : Spec.lex_le a [] -> a = [].
Proof. intros [H | H]; [done | inversion H]. Qed.

(** A string between two strings that begin alike begins like them. *)
Lemma between_prefix (P x z k : jsstring) :
  Spec.lex_le (P ++ x) k -> Spec.lex_le k (P ++ z) ->
  exists r, k = P ++ r.
Proof.
  revert k. induction P as [|p P IH]; intros k H1 H2; [by exists k |].
  destruct k as [|q k].
  - by apply lex_le_nil_r in H1.
  - cbn [app] in H1, H2. apply lex_le_cons in H1, H2.
    destruct H1 as [H1 | [-> H1]], H2 as [H2 | [E H2]]; try lia.
    destruct (IH k H1 H2) as [r ->]. by exists r.
Qed.

Lemma first_comma (a b r n : jsstring) :
  Forall (fun u => u <> 44%N) a -> Forall (fun u => u <> 44%N) b ->
  a ++ 44%N :: r = b ++ 44%N :: n -> a = b.
Proof.
  intros Ha. revert b. induction Ha as [|x a Hx Ha IH];
    intros b Hb; destruct Hb as [|y b Hy Hb]; simpl; try congruence.
  intros [= -> H]. f_equal. by apply IH.
Qed.

Lemma key_between (a b na nb nc : jsstring) :
  Forall (fun u => u <> 44%N) a -> Forall (fun u => u <> 44%N) b ->
  Spec.lex_le (a ++ str "," ++ na) (b ++ str "," ++ nb) ->
  Spec.lex_le (b ++ str "," ++ nb) (a ++ str "," ++ nc) ->
  b = a.
Proof.
  intros Ha Hb H1 H2.
  change (str ",") with [44%N] in *.
  rewrite (app_assoc a [44%N] na) in H1.
  rewrite (app_assoc a [44%N] nc) in H2.
  destruct (between_prefix _ _ _ _ H1 H2) as [r Hr].
  rewrite <- app_assoc in Hr. by apply first_comma in Hr.
Qed.

(** Every record of the store was built by the row loop. *)
Lemma load_loop_built (parse : jsstring -> ParseResult)
    (sources : list (jsstring * Z)) (acc courses : list Course) :
  load_loop parse sources acc = Some courses ->
  forall c, c ∈ courses ->
    c ∈ acc \/ exists y row, parse_row y row = Some c.
Proof.
  revert acc. induction sources as [|[csv y] sources IH]; intros acc; simpl.
  - intros [= <-] c Hc. by left.
  - destruct (parseCoursesCsv parse csv y) as [cs|] eqn:E; simpl; [| done].
    intros H c Hc. destruct (IH _ H c Hc) as [Hin | Hb]; [| by right].
    apply elem_of_app in Hin as [Hin | Hin]; [by left | right].
    unfold parseCoursesCsv in E.
    destruct (0 <? length (errors (parse csv)))%nat; [done |].
    injection E as <-.
    apply list_elem_of_omap in Hin as (row & _ & Hrow). by exists y, row.
Qed.

(** X21. In the store the records of one identifier stand together,
    provided no identifier contains a comma: a record that stands between
    two records with the same identifier has that identifier too. *)
Theorem store_groups_identifiers (parse : jsstring -> ParseResult)
    (sources : list (jsstring * Z)) (courses : list Course)
    (l1 l2 l3 l4 : list Course) (a b c : Course) :
  loadCoursesFrom parse sources = Some courses ->
  (forall r, r ∈ courses -> Forall (fun u => u <> 44%N) (id r)) ->
  courses = l1 ++ a :: l2 ++ b :: l3 ++ c :: l4 ->
  id a = id c ->
  id b = id a.
Proof.
  intros Hload Hcomma Hsplit Hac.
  unfold loadCoursesFrom in Hload.
  destruct (load_loop parse sources []) as [cs|] eqn:Hl; [| done].
  injection Hload as Hsorted.
  assert (Hkey : forall r, r ∈ courses ->
            key r = id r ++ str "," ++ numberToString (year r)).
  { intros r Hr. rewrite <- Hsorted, JSFacts.sort_perm in Hr.
    destruct (load_loop_built _ _ _ _ Hl r Hr) as [Hin | (y & row & Hrow)].
    - by apply elem_of_nil in Hin.
    - destruct (ParserFacts.parse_row_some _ _ _ Hrow) as (_ & -> & Hk & _).
      done. }
  assert (Hss : StronglySorted Spec.key_le courses).
  { rewrite <- Hsorted. apply Sorted.Sorted_StronglySorted.
    - intros x y z. apply LoaderFacts.key_le_trans.
    - apply LoaderFacts.Sorted_not_after_key_le, JSFacts.sort_sorted,
        LoaderFacts.courseCompare_total. }
  assert (Ha : a ∈ courses) by (rewrite Hsplit; set_solver).
  assert (Hb : b ∈ courses) by (rewrite Hsplit; set_solver).
  assert (Hc : c ∈ courses) by (rewrite Hsplit; set_solver).
  rewrite Hsplit in Hss.
  apply StronglySorted_app_1_r, StronglySorted_cons in Hss as [Hab Hss].
  apply StronglySorted_app_1_r, StronglySorted_cons in Hss as [Hbc _].
  rewrite Forall_forall in Hab, Hbc.
  assert (Hab' : Spec.key_le a b) by (apply Hab; set_solver).
  assert (Hbc' : Spec.key_le b c) by (apply Hbc; set_solver).
  unfold Spec.key_le in Hab', Hbc'.
  rewrite (Hkey a Ha), (Hkey b Hb) in Hab'.
  rewrite (Hkey b Hb), (Hkey c Hc), <- Hac in Hbc'.
  eapply key_between; eauto.
Qed.

Lemma store_groups_identifiers_witness :
  id (Samples.course "GA10101" "Sets" 2024) =
  id (Samples.course "GA10101" "Sets" 2023).
Proof.
  apply (store_groups_identifiers Samples.sample_parse
           [([], 2024); ([], 2023); ([], 2025)]
           (sort courseCompare
              (Samples.sample_courses 2024 ++ Samples.sample_courses 2023 ++
               Samples.sample_courses 2025))
           [] [] [] [Samples.course "GB10101" "Logic" 2023;
                     Samples.course "GB10101" "Logic" 2024;
                     Samples.course "GB10101" "Logic" 2025]
           (Samples.course "GA10101" "Sets" 2023)
           (Samples.course "GA10101" "Sets" 2024)
           (Samples.course "GA10101" "Sets" 2025)).
  - vm_compute. reflexivity.
  - intros r Hr.
    assert (Hid : id r = str "GA10101" \/ id r = str "GB10101").
    { revert Hr. vm_compute. intros Hr.
      repeat (apply elem_of_cons in Hr as [-> | Hr]; [by (left + right) |]).
      by apply elem_of_nil in Hr. }
    destruct Hid as [-> | ->]; repeat constructor; done.
  - vm_compute. reflexivity.
  - reflexivity.
Defined.

End GroupFacts.
(** ** The keys of the rows *)

Module RowKeyFacts.
Import JS Page.

Lemma NoDup_map_inj {A B : Type} (f : A -> B) (l : list A) (x y : A) :
  NoDup (List.map f l) -> x ∈ l -> y ∈ l -> f x = f y -> x = y.
Proof.
  induction l as [|a l IH]; simpl; intros Hnd Hx Hy E.
  - by apply elem_of_nil in Hx.
  - apply NoDup_cons in Hnd as [Ha Hnd].
    apply elem_of_cons in Hx as [-> | Hx], Hy as [-> | Hy]; try done.
    + exfalso. apply Ha. rewrite E. apply list_elem_of_In, in_map.
      by apply list_elem_of_In.
    + exfalso. apply Ha. rewrite <- E. apply list_elem_of_In, in_map.
      by apply list_elem_of_In.
    + by apply IH.
Qed.

Lemma NoDup_map_self {A B : Type} (f : A -> B) (l : list A) :
  NoDup (List.map f l) -> NoDup l.
Proof.
  induction l as [|a l IH]; simpl; [intros _; constructor |].
  rewrite !NoDup_cons. intros [Ha Hnd]. split; [| by apply IH].
  intros Hin. apply Ha, list_elem_of_In, in_map. by apply list_elem_of_In.
Qed.

Lemma filter_sublist {A : Type} (f : A -> bool) (l : list A) :
  List.filter f l `sublist_of` l.
Proof.
  induction l as [|a l IH]; simpl; [constructor |].
  destruct (f a); by constructor.
Qed.

(** X22. The rows of the table have distinct keys whenever no two records
    of the store share both identifier and year: the keyed rows of the view
    are then told apart by [c.key]. *)
Theorem view_keys_distinct (parse : jsstring -> ParseResult)
    (sources : list (jsstring * Z)) (courses : list Course) (st : State) :
  loadCoursesFrom parse sources = Some courses ->
  NoDup (List.map (fun c => (id c, year c)) courses) ->
  NoDup (List.map key (visibleCourses (derived st courses))).
Proof.
  intros Hload Hnd.
  unfold loadCoursesFrom in Hload.
  destruct (load_loop parse sources []) as [cs|] eqn:Hl; [| done].
  injection Hload as Hsorted.
  assert (Hkey : forall r, r ∈ courses ->
            key r = id r ++ str "," ++ numberToString (year r)).
  { intros r Hr. rewrite <- Hsorted, JSFacts.sort_perm in Hr.
    destruct (GroupFacts.load_loop_built _ _ _ _ Hl r Hr)
      as [Hin | (y & row & Hrow)].
    - by apply elem_of_nil in Hin.
    - by destruct (ParserFacts.parse_row_some _ _ _ Hrow)
        as (_ & -> & Hk & _). }
  destruct (ViewFacts.derived_visible_perm st courses) as [Hp _].
  destruct (ViewFacts.filterCourses_shape st courses) as ([rest Hpre] & _).
  assert (Hv : NoDup (visibleCourses (derived st courses))).
  { rewrite Hp. apply NoDup_map_self in Hnd.
    apply (sublist_NoDup (List.filter (passes st) courses)) in Hnd;
      [| apply filter_sublist].
    rewrite Hpre in Hnd. by apply NoDup_app in Hnd as [Hnd _]. }
  change (NoDup (key <$> visibleCourses (derived st courses))).
  apply NoDup_fmap_2_strong; [| done].
  intros x y Hx Hy E.
  apply ViewFacts.derived_visible_sound in Hx as [Hx _], Hy as [Hy _].
  rewrite (Hkey x Hx), (Hkey y Hy) in E.
  apply KeyFacts.split_at_last_comma in E as [Hi Hn];
    try apply KeyFacts.numberToString_no_comma.
  apply KeyFacts.numberToString_inj in Hn.
  apply (NoDup_map_inj _ _ _ _ Hnd Hx Hy). by rewrite Hi, Hn.
Qed.

Lemma view_keys_distinct_witness :
  NoDup (List.map key
    (visibleCourses
       (derived (Samples.sample_state "" (Num 1000))
          (sort courseCompare (Samples.sample_courses 2023))))).
Proof.
  apply (view_keys_distinct Samples.sample_parse [([], 2023)]).
  - vm_compute. reflexivity.
  - vm_compute. repeat constructor; rewrite ?elem_of_cons, ?elem_of_nil;
      intros H; repeat destruct H as [H | H]; done.
Defined.

End RowKeyFacts.
(** ** The model at work *)

Module Examples.
Import JS Page.

Example str_units : str "aZ," = [97; 90; 44]%N.
Proof. reflexivity. Qed.

Example numberToString_year : numberToString 2023 = str "2023".
Proof. reflexivity. Qed.

Example trim_both_ends :
  trim ([12288; 32] ++ str "a b" ++ [9; 10])%N = str "a b".
Proof. reflexivity. Qed.

Example includes_inner : includes (str "hello") (str "ell") = true.
Proof. reflexivity. Qed.

(** Case mapping: Basic Latin, full-width letters, the Kelvin sign, the
    sharp s, the capital I with a dot, a capital sigma inside and at the
    end of a word, and a Deseret letter, which is a surrogate pair. *)
Example toLowerCase_letters :
  toLowerCase (str "aB1" ++ [0xFF21; 0xFF42; 0x212A; 0x00DF; 0x0130])%N =
  (str "ab1" ++ [0xFF41; 0xFF42; 0x006B; 0x00DF; 0x0069; 0x0307])%N.
Proof. vm_compute. reflexivity. Qed.

Example toUpperCase_letters :
  toUpperCase (str "aB1" ++ [0xFF21; 0xFF42; 0x212A; 0x00DF; 0x0130])%N =
  (str "AB1" ++ [0xFF21; 0xFF22; 0x212A; 0x0053; 0x0053; 0x0130])%N.
Proof. vm_compute. reflexivity. Qed.

Example toLowerCase_sigma :
  toLowerCase [0x03A3; 0x0391; 0x03A3; 0x0020; 0x03A3]%N =
  [0x03C3; 0x03B1; 0x03C2; 0x0020; 0x03C3]%N.
Proof. vm_compute. reflexivity. Qed.

Example toLowerCase_pair :
  toLowerCase [0xD801; 0xDC00; 0xD801]%N = [0xD801; 0xDC28; 0xD801]%N /\
  toUpperCase [0xD801; 0xDC28; 0xDC28]%N = [0xD801; 0xDC00; 0xDC28]%N.
Proof. split; vm_compute; reflexivity. Qed.

(** [null + 1] is [1]. *)
Example add_null : add (ToNumber Null) (Num 1) = Num 1.
Proof. reflexivity. Qed.

Example string_ltb_keys :
  string_ltb (str "CS101,2023") (str "CS101,2024") = true.
Proof. reflexivity. Qed.

Example sortByKeyCached_stable :
  Util.sortByKeyCached [(3, 1); (1, 2); (2, 3); (1, 4)] fst =
  [(1, 2); (1, 4); (2, 3); (3, 1)].
Proof. reflexivity. Qed.

Example parse_sample_rows :
  parseCoursesCsv Samples.sample_parse [] 2024 =
  Some (Samples.sample_courses 2024).
Proof. vm_compute. reflexivity. Qed.

Example parse_bad_text :
  parseCoursesCsv Samples.sample_parse (str "bad") 2024 = None.
Proof. vm_compute. reflexivity. Qed.

(** A cap of zero drops the first match and reports truncation. *)
Example cap_zero :
  filterCourses (Samples.sample_state "" (Num 0)) Samples.four_courses =
  ([], true).
Proof. vm_compute. reflexivity. Qed.

(** Three sources with one "CS101" row each: three records in the order of
    their years, shown with the spans [3, 0, 0]. *)
Example end_to_end :
  exists courses,
    loadCourses Samples.cs101_parse [] [] [] = Some courses /\
    List.map year courses = [2023; 2024; 2025] /\
    let view := derived Samples.cs101_state courses in
    List.map key (visibleCourses view) =
      [str "CS101,2023"; str "CS101,2024"; str "CS101,2025"] /\
    visibleCourseIdRowSpans view = [3; 0; 0] /\
    maxExceeded view = false /\
    prioritizedCount view = None.
Proof.
  eexists. split; [vm_compute; reflexivity |].
  vm_compute. repeat split.
Qed.

End Examples.
